(** * GitSync: deployment orchestration core

    A shallow embedding of the GitSync sources (webhook.js, polling.js,
    deployer.js, gitPull.js, dependencyInstaller.js, taskServerClient.js,
    pathUtils.js, configLoader.js, index.js) together with the
    properties of the orchestration core that hold on them.

    Conventions.
    - A JavaScript string is a [string]; a byte buffer is a [list byte].
    - A value produced by [JSON.parse] is a [json]; [undefined] is the
      [None] of [option json].
    - A JavaScript computation that may throw is a [completion].
    - External collaborators (git, package managers, the process
      manager, child processes, the file system, the clock) are oracles
      that read the trace of interactions performed so far. *)

From Stdlib Require Import String Ascii List ZArith NArith Bool Arith Lia.
From Stdlib Require Import Strings.Byte DecimalString.
Import ListNotations.

Set Warnings "-register-all".

Local Open Scope list_scope.
Local Open Scope string_scope.

(* ================================================================== *)
(** * JavaScript values and control *)
(* ================================================================== *)

Module Js.

(** ** Completions: normal return or a thrown exception *)

Inductive completion (A : Type) : Type :=
  | Normal (a : A)
  | Throw (e : string).

Arguments Normal {A} a.
Arguments Throw {A} e.

Definition bind {A B} (c : completion A) (k : A -> completion B)
  : completion B :=
  match c with
  | Normal a => k a
  | Throw e => Throw e
  end.

(** [try { c } catch { h }] *)
Definition try_catch {A} (c : completion A) (h : string -> completion A)
  : completion A :=
  match c with
  | Normal a => Normal a
  | Throw e => h e
  end.

Definition returns {A} (c : completion A) : bool :=
  match c with Normal _ => true | Throw _ => false end.

(** ** Parsed JSON values *)

(** Numbers are kept as integers: the sources only test them for
    truthiness and pass them through. *)
Inductive json : Type :=
  | JNull
  | JBool (b : bool)
  | JNum (n : Z)
  | JStr (s : string)
  | JArr (items : list json)
  | JObj (fields : list (string * json)).

(** [undefined] is [None]. *)
Definition value := option json.

(** ToBoolean *)
Definition truthy (v : value) : bool :=
  match v with
  | None => false
  | Some JNull => false
  | Some (JBool b) => b
  | Some (JNum n) => negb (n =? 0)%Z
  | Some (JStr s) => negb (s =? "")
  | Some (JArr _) => true
  | Some (JObj _) => true
  end.

(** [a || b] *)
Definition or (a b : value) : value := if truthy a then a else b.

Fixpoint lookup (k : string) (fields : list (string * json)) : value :=
  match fields with
  | [] => None
  | (k', v) :: rest => if (k =? k') then Some v else lookup k rest
  end.

(** Own-property read on a non-nullish value.  The sources read only
    fixed, non-numeric property names; [length] is the one name that
    arrays and strings answer. *)
Definition own (v : json) (k : string) : value :=
  match v with
  | JObj fields => lookup k fields
  | JArr items => if k =? "length" then Some (JNum (Z.of_nat (List.length items))) else None
  | JStr s => if k =? "length" then Some (JNum (Z.of_nat (String.length s))) else None
  | _ => None
  end.

(** [v.k]: a TypeError on [null] and [undefined]. *)
Definition get (v : value) (k : string) : completion value :=
  match v with
  | None => Throw "TypeError: cannot read properties of undefined"
  | Some JNull => Throw "TypeError: cannot read properties of null"
  | Some j => Normal (own j k)
  end.

(** [v?.k]: [undefined] on [null] and [undefined]. *)
Definition get_opt (v : value) (k : string) : value :=
  match v with
  | None => None
  | Some JNull => None
  | Some j => own j k
  end.

(** [a === b] where [b] is a string. *)
Definition strict_eq_str (a : value) (b : string) : bool :=
  match a with
  | Some (JStr s) => (s =? b)
  | _ => false
  end.

(** ** Strings *)

Fixpoint drop (n : nat) (s : string) : string :=
  match n, s with
  | O, _ => s
  | S n', String _ s' => drop n' s'
  | S _, EmptyString => EmptyString
  end.

(** [s.startsWith(p)] *)
Definition startsWith (s p : string) : bool := String.prefix p s.

(** [s.replace(pat, rep)] with a string pattern and a replacement
    without [$] patterns: the first occurrence of [pat] is replaced. *)
Fixpoint replace (s pat rep : string) : string :=
  if String.prefix pat s then rep ++ drop (String.length pat) s
  else match s with
       | EmptyString => EmptyString
       | String c s' => String c (replace s' pat rep)
       end.

(** [v.replace(pat, rep)] on an arbitrary value: only strings have the
    method; on any other JSON value the call is a TypeError. *)
Definition call_replace (v : value) (pat rep : string) : completion string :=
  match v with
  | Some (JStr s) => Normal (replace s pat rep)
  | Some JNull | None => Throw "TypeError: cannot read properties of null"
  | Some _ => Throw "TypeError: ref.replace is not a function"
  end.

(** [s.includes(pat)] *)
Fixpoint includes (s pat : string) : bool :=
  if String.prefix pat s then true
  else match s with
       | EmptyString => false
       | String _ s' => includes s' pat
       end.

(** [s.slice(n)] for [0 <= n] *)
Definition slice (s : string) (n : nat) : string := drop n s.

(** Truthiness of an optional string ([null]/[undefined] is [None]). *)
Definition truthy_str (o : option string) : bool :=
  match o with
  | None => false
  | Some s => negb (s =? "")
  end.

Definition str_or_empty (o : option string) : string :=
  match o with Some s => s | None => "" end.

(** ** Buffers *)

Definition byte_of_N (n : N) : byte :=
  match Byte.of_N n with Some b => b | None => x00 end.

(** UTF-8 encoding of one character with code point below 256. *)
Definition utf8_char (c : ascii) : list byte :=
  let n := N_of_ascii c in
  if (n <? 128)%N then [byte_of_ascii c]
  else [byte_of_N (192 + n / 64); byte_of_N (128 + n mod 64)].

(** [Buffer.from(s)] (UTF-8) *)
Fixpoint Buffer_from (s : string) : list byte :=
  match s with
  | EmptyString => []
  | String c s' => (utf8_char c ++ Buffer_from s')%list
  end.

Fixpoint bytes_eqb (a b : list byte) : bool :=
  match a, b with
  | [], [] => true
  | x :: a', y :: b' => Byte.eqb x y && bytes_eqb a' b'
  | _, _ => false
  end.

(** [crypto.timingSafeEqual(a, b)]: a RangeError when the byte lengths
    differ, byte-wise equality otherwise. *)
Definition timingSafeEqual (a b : list byte) : completion bool :=
  if (List.length a =? List.length b)%nat then Normal (bytes_eqb a b)
  else Throw "RangeError: Input buffers must have the same byte length".

(** [digest('hex')]: two lower-case hexadecimal digits per byte. *)
Definition hex_digit (n : N) : ascii :=
  ascii_of_N (if (n <? 10)%N then 48 + n else 87 + n).

Definition hex_byte (b : byte) : string :=
  String (hex_digit (Byte.to_N b / 16))
         (String (hex_digit (Byte.to_N b mod 16)) EmptyString).

Fixpoint hex (bs : list byte) : string :=
  match bs with
  | [] => EmptyString
  | b :: rest => hex_byte b ++ hex rest
  end.

End Js.

Import Js.

Declare Scope js_scope.
Delimit Scope js_scope with js.
Notation "x <- c ;; k" := (Js.bind c (fun x => k))
  (at level 61, c at next level, right associativity) : js_scope.
Local Open Scope js_scope.

(* ================================================================== *)
(** * Configuration (configLoader.js, pathUtils.js) *)
(* ================================================================== *)

Module Config.

Record TaskServerConfig := {
  ts_url : string;
  ts_apiKey : option string
}.

Record Dependencies := {
  dep_type : string;
  dep_venv : option string
}.

(** An entry of a build list: a string, an object (with optional
    [command] and [cwd]), [null], or a value that is none of these (a
    number, a boolean, a nested list). *)
Inductive BuildItem :=
  | ItemString (s : string)
  | ItemObject (command : option string) (cwd : option string)
  | ItemNull
  | ItemOther.

(** The shapes [repo.build] may take in config.yaml. *)
Inductive BuildConfig :=
  | BuildAbsent
  | BuildString (s : string)
  | BuildObject (command : option string) (cwd : option string)
                (commands : option (list BuildItem))
  | BuildArray (items : list BuildItem).

Record ScriptConfig := {
  sc_name : string;
  sc_path : option string;
  sc_command : option string;
  sc_type : option string
}.

Record RepoConfig := {
  name : string;
  path : string;
  repoUrl : option string;
  branch : string;
  dependencies : option Dependencies;
  build : BuildConfig;
  restartScripts : option (list string);
  registerScripts : option (list ScriptConfig);
  taskServer : option TaskServerConfig
}.

Record WebhookConfig := {
  port : nat;
  secret : option string
}.

Record config := {
  triggerMode : string;
  webhook : WebhookConfig;
  polling_interval : option nat;
  global_taskServer : TaskServerConfig;
  repos : list RepoConfig
}.

(** [repo.taskServer || config.taskServer] *)
Definition getTaskServerConfig (c : config) (repo : RepoConfig)
  : TaskServerConfig :=
  match taskServer repo with
  | Some ts => ts
  | None => global_taskServer c
  end.

Section PathUtils.
(** [os.homedir()] and [path.join] *)
Variable homedir : string.
Variable join : string -> string -> string.

Definition expandPath (p : string) : string :=
  if (p =? "") then p
  else if startsWith p "~/" then join homedir (slice p 2)
  else if (p =? "~") then homedir
  else p.
End PathUtils.

End Config.

(* ================================================================== *)
(** * Webhook handler (webhook.js) *)
(* ================================================================== *)

Module Webhook.

Import Config.

(** The object returned by the three push parsers. *)
Record PushInfo := {
  provider : string;
  event : string;
  pi_branch : string;
  repository : json;
  fullName : json;
  commits : json;
  pusher : json;
  headCommit : json
}.

(** [v || d] where the default [d] is a JSON literal ([null] or [0]). *)
Definition or_else (v : value) (d : json) : json :=
  match or v (Some d) with
  | Some j => j
  | None => d
  end.

(** [h === s] for a header value [h] ([null] when absent). *)
Definition str_is (h : option string) (s : string) : bool :=
  match h with
  | Some x => (x =? s)
  | None => false
  end.

Inductive ResponseBody :=
  | HealthOk
  | ErrorBody (error : string)
  | MessageBody (message : string)
  | TriggeredBody (message repo branch : string).

Record Response := {
  status : nat;
  rbody : ResponseBody
}.

Record Request := {
  method : string;
  pathname : string;
  headers : string -> option string;
  text : string
}.

Section Server.

(** [createHmac('sha256', key).update(data).digest()] *)
Variable hmac_sha256 : string -> string -> list byte.
(** [JSON.parse]; [None] stands for the SyntaxError. *)
Variable JSON_parse : string -> option json.

Definition verifyGitHubSignature (payload : string)
    (signature secret : option string) : completion bool :=
  if negb (truthy_str signature) || negb (truthy_str secret)
  then Normal (negb (truthy_str secret))
  else
    let expected :=
      "sha256=" ++ hex (hmac_sha256 (str_or_empty secret) payload) in
    try_catch
      (timingSafeEqual (Buffer_from (str_or_empty signature))
                       (Buffer_from expected))
      (fun _ => Normal false).

Definition verifyGitLabToken (token secret : option string) : bool :=
  if negb (truthy_str secret) then true
  else match token, secret with
       | Some t, Some s => (t =? s)
       | _, _ => false
       end.

Definition verifyGiteaSignature := verifyGitHubSignature.

Definition parseGitHubPush (body : json) : completion PushInfo :=
  r <- get (Some body) "ref" ;;
  let ref := or r (Some (JStr "")) in
  branch <- call_replace ref "refs/heads/" "" ;;
  repo <- get (Some body) "repository" ;;
  cs <- get (Some body) "commits" ;;
  p <- get (Some body) "pusher" ;;
  hc <- get (Some body) "head_commit" ;;
  Normal {| provider := "github";
            event := "push";
            pi_branch := branch;
            repository := or_else (get_opt repo "name") JNull;
            fullName := or_else (get_opt repo "full_name") JNull;
            commits := or_else (get_opt cs "length") (JNum 0);
            pusher := or_else (get_opt p "name") JNull;
            headCommit := or_else (get_opt hc "id") JNull |}.

Definition parseGitLabPush (body : json) : completion PushInfo :=
  r <- get (Some body) "ref" ;;
  let ref := or r (Some (JStr "")) in
  branch <- call_replace ref "refs/heads/" "" ;;
  proj <- get (Some body) "project" ;;
  repo <- get (Some body) "repository" ;;
  total <- get (Some body) "total_commits_count" ;;
  cs <- get (Some body) "commits" ;;
  user <- get (Some body) "user_name" ;;
  sha <- get (Some body) "checkout_sha" ;;
  after <- get (Some body) "after" ;;
  Normal {| provider := "gitlab";
            event := "push";
            pi_branch := branch;
            repository :=
              or_else (or (get_opt proj "name") (get_opt repo "name")) JNull;
            fullName := or_else (get_opt proj "path_with_namespace") JNull;
            commits := or_else (or total (get_opt cs "length")) (JNum 0);
            pusher := or_else user JNull;
            headCommit := or_else (or sha after) JNull |}.

Definition parseGiteaPush (body : json) : completion PushInfo :=
  r <- get (Some body) "ref" ;;
  let ref := or r (Some (JStr "")) in
  branch <- call_replace ref "refs/heads/" "" ;;
  repo <- get (Some body) "repository" ;;
  cs <- get (Some body) "commits" ;;
  p <- get (Some body) "pusher" ;;
  after <- get (Some body) "after" ;;
  Normal {| provider := "gitea";
            event := "push";
            pi_branch := branch;
            repository := or_else (get_opt repo "name") JNull;
            fullName := or_else (get_opt repo "full_name") JNull;
            commits := or_else (get_opt cs "length") (JNum 0);
            pusher :=
              or_else (or (get_opt p "login") (get_opt p "username")) JNull;
            headCommit := or_else after JNull |}.

(** The predicate of [config.repos.find] in the handler. *)
Definition matches (p : PushInfo) (r : RepoConfig) : bool :=
  if negb (branch r =? pi_branch p) then false
  else if strict_eq_str (Some (repository p)) (name r) then true
  else if strict_eq_str (Some (fullName p)) (name r) then true
  else false.

(** [eventIsPush || body.ref], then the provider's parser. *)
Definition parse_when (eventIsPush : bool) (body : json)
    (parse : json -> completion PushInfo) : completion (option PushInfo) :=
  isPush <- (if eventIsPush then Normal true
             else r <- get (Some body) "ref" ;; Normal (truthy r)) ;;
  if isPush then p <- parse body ;; Normal (Some p)
  else Normal None.

(** The provider dispatch of the handler: the verification verdict
    and the parsed push, if any. *)
Definition detect (secret : option string) (req : Request) (body : json)
    : completion (bool * option PushInfo) :=
  let rawBody := text req in
  let githubEvent := headers req "X-GitHub-Event" in
  let gitlabToken := headers req "X-Gitlab-Token" in
  let giteaEvent := headers req "X-Gitea-Event" in
  if truthy_str githubEvent || (pathname req =? "/webhook/github") then
    let signature := headers req "X-Hub-Signature-256" in
    isValid <- verifyGitHubSignature rawBody signature secret ;;
    pushInfo <- parse_when (str_is githubEvent "push") body parseGitHubPush ;;
    Normal (isValid, pushInfo)
  else if truthy_str gitlabToken || (pathname req =? "/webhook/gitlab") then
    let isValid := verifyGitLabToken gitlabToken secret in
    kind <- get (Some body) "object_kind" ;;
    pushInfo <- parse_when (strict_eq_str kind "push") body parseGitLabPush ;;
    Normal (isValid, pushInfo)
  else if truthy_str giteaEvent || (pathname req =? "/webhook/gitea") then
    let signature := headers req "X-Gitea-Signature" in
    isValid <- verifyGiteaSignature rawBody signature secret ;;
    pushInfo <- parse_when (str_is giteaEvent "push") body parseGiteaPush ;;
    Normal (isValid, pushInfo)
  else
    pushInfo <- parse_when false body parseGitHubPush ;;
    Normal (true, pushInfo).

(** What the handler does once provider detection has run: the
    response, and the [onPush] call it makes, if any. *)
Definition respond (cfg : config) (isValid : bool)
    (pushInfo : option PushInfo)
    : Response * option (RepoConfig * PushInfo) :=
  if negb isValid then
    ({| status := 401; rbody := ErrorBody "Invalid signature" |}, None)
  else match pushInfo with
  | None =>
      ({| status := 200;
          rbody := MessageBody "Event ignored (not a push)" |}, None)
  | Some p =>
      match find (matches p) (repos cfg) with
      | None =>
          ({| status := 200;
              rbody := MessageBody "No matching repo configuration" |},
           None)
      | Some r =>
          ({| status := 200;
              rbody := TriggeredBody "Deployment triggered"
                                     (name r) (pi_branch p) |},
           Some (r, p))
      end
  end.

(** The [fetch] handler of [createWebhookServer]: the response sent
    and the fire-and-forget [onPush(matchingRepo, pushInfo)] call.  A
    [Throw] is an exception escaping the handler. *)
Definition fetch (cfg : config) (req : Request)
    : completion (Response * option (RepoConfig * PushInfo)) :=
  if (pathname req =? "/health") && (method req =? "GET") then
    Normal ({| status := 200; rbody := HealthOk |}, None)
  else if (method req =? "POST") && startsWith (pathname req) "/webhook" then
    match JSON_parse (text req) with
    | None =>
        Normal ({| status := 400; rbody := ErrorBody "Invalid JSON" |}, None)
    | Some body =>
        d <- detect (secret (webhook cfg)) req body ;;
        Normal (respond cfg (fst d) (snd d))
    end
  else Normal ({| status := 404; rbody := ErrorBody "Not found" |}, None).

End Server.

End Webhook.

(* ================================================================== *)
(** * Deployer (deployer.js) *)
(* ================================================================== *)

Module Deployer.

Import Config.

(** ** Results of the collaborators *)

(** [ensureRepo]: [{ success, cloned?, error? }] *)
Record EnsureResult := {
  e_success : bool;
  e_cloned : option bool;
  e_error : option string
}.

(** [gitPull]: [{ success, changed, message, files? }] *)
Record PullResult := {
  p_success : bool;
  p_changed : bool;
  p_message : string;
  p_files : list string
}.

(** [installDependencies]: [{ success, skipped?, error? }] *)
Record InstallResult := {
  i_success : bool;
  i_skipped : option bool;
  i_error : option string
}.

(** The process-manager client: [{ success, message?, error? }] *)
Record ApiResult := {
  a_success : bool;
  a_message : option string;
  a_error : option string
}.

(** [execAsync]: resolves with the output or rejects with an error. *)
Inductive ExecResult :=
  | ExecOk (stdout stderr : string)
  | ExecError (message : string).

(** ** The interactions of one deployment, with their outcomes *)

Inductive Event :=
  | EvEnsureRepo (path url branch : string) (r : EnsureResult)
  | EvGitPull (path branch : string) (r : completion PullResult)
  | EvInstall (path : string) (deps : Dependencies) (r : InstallResult)
  | EvStop (script : string) (ts : TaskServerConfig)
           (r : completion ApiResult)
  | EvExec (command cwd : string) (r : ExecResult)
  | EvAdd (script : ScriptConfig) (ts : TaskServerConfig)
          (r : completion ApiResult)
  | EvRestart (script : string) (ts : TaskServerConfig)
              (r : completion ApiResult).

Definition Trace := list Event.

(** The environment of a deployment.  Every collaborator answers from
    the interactions seen so far and its arguments.  [ensureRepo] and
    [installDependencies] catch whatever is thrown inside them and
    always return a result.  [gitPull] builds its [simpleGit] handle
    before its [try], [stopScript] and [restartScript] encode the
    script name before theirs, and [addScript] reads the name of its
    script before its own: these four return a result or throw, and
    [deploy] awaits them without a [catch]. *)
Record World := {
  ensureRepo : Trace -> string -> string -> string -> EnsureResult;
  gitPull : Trace -> string -> string -> completion PullResult;
  installDependencies : Trace -> string -> Dependencies -> InstallResult;
  stopScript : Trace -> string -> TaskServerConfig -> completion ApiResult;
  execAsync : Trace -> string -> string -> ExecResult;
  addScript : Trace -> ScriptConfig -> TaskServerConfig
              -> completion ApiResult;
  restartScript : Trace -> string -> TaskServerConfig
                  -> completion ApiResult;
  now : Trace -> Z;
  homedir : string;
  join : string -> string -> string
}.

(** ** Step results and the deployment result *)

Record BuildCommand := {
  command : string;
  cwd : option string
}.

Record BuildResult := {
  b_command : string;
  b_cwd : option string;
  b_success : bool;
  b_error : option string
}.

(** The objects pushed on [results.steps]. *)
Inductive StepResult :=
  | EnsureRepoStep (r : EnsureResult)
  | GitPullStep (r : PullResult)
  | InstallDepsStep (r : InstallResult)
  | InstallDepsSkipped
  | BuildStep (results : list BuildResult)
  | BuildSkipped
  | RegisterScriptsStep (results : list (string * ApiResult))
  | RestartScriptsStep (results : list (string * ApiResult))
  | RestartScriptsSkipped.

(** The [step] field. *)
Definition step (s : StepResult) : string :=
  match s with
  | EnsureRepoStep _ => "ensure-repo"
  | GitPullStep _ => "git-pull"
  | InstallDepsStep _ | InstallDepsSkipped => "install-deps"
  | BuildStep _ | BuildSkipped => "build"
  | RegisterScriptsStep _ => "register-scripts"
  | RestartScriptsStep _ | RestartScriptsSkipped => "restart-scripts"
  end.

(** The [cloned] field ([undefined] is [None]). *)
Definition cloned (s : StepResult) : option bool :=
  match s with
  | EnsureRepoStep r => e_cloned r
  | _ => None
  end.

Definition truthy_bool (o : option bool) : bool :=
  match o with Some b => b | None => false end.

(** Rendering of an optional string inside a template literal. *)
Definition show (o : option string) : string :=
  match o with Some s => s | None => "undefined" end.

Inductive TriggerInfo :=
  | PushTrigger (p : Webhook.PushInfo)
  | StartupTrigger.

Record Results := {
  repo : string;
  success : bool;
  steps : list StepResult;
  duration : Z;
  trigger : option TriggerInfo;
  error : option string;
  skipped : option bool
}.

(** ** The statement monad: mutable [results], the trace, early
    return, and an exception that leaves [deploy] (the promise
    rejects) *)

Record State := {
  results : Results;
  trace : Trace
}.

Inductive flow (A : Type) : Type :=
  | Continue (a : A)
  | Return
  | Raise (e : string).

Arguments Continue {A} a.
Arguments Return {A}.
Arguments Raise {A} e.

Definition M (A : Type) : Type := State -> flow A * State.

Definition pure {A} (a : A) : M A := fun s => (Continue a, s).

Definition mbind {A B} (c : M A) (k : A -> M B) : M B :=
  fun s =>
    match c s with
    | (Continue a, s') => k a s'
    | (Return, s') => (Return, s')
    | (Raise e, s') => (Raise e, s')
    end.

(** [return results;] *)
Definition return_results {A} : M A := fun s => (Return, s).

Definition when (b : bool) (c : M unit) : M unit :=
  if b then c else pure tt.

Definition get_results : M Results := fun s => (Continue (results s), s).

(** An awaited call of a collaborator: its answer is recorded. *)
Definition call {A} (answer : Trace -> A) (ev : A -> Event) : M A :=
  fun s =>
    let a := answer (trace s) in
    (Continue a, {| results := results s; trace := (trace s ++ [ev a])%list |}).

(** An awaited call of a collaborator that may throw: the outcome is
    recorded, and an exception is not caught. *)
Definition await {A} (answer : Trace -> completion A)
    (ev : completion A -> Event) : M A :=
  fun s =>
    let r := answer (trace s) in
    let s' := {| results := results s; trace := (trace s ++ [ev r])%list |} in
    match r with
    | Normal a => (Continue a, s')
    | Throw e => (Raise e, s')
    end.

(** A computation without interaction that may throw. *)
Definition eval {A} (c : completion A) : M A :=
  fun s =>
    match c with
    | Normal a => (Continue a, s)
    | Throw e => (Raise e, s)
    end.

Definition modify (f : Results -> Results) : M unit :=
  fun s => (Continue tt, {| results := f (results s); trace := trace s |}).

Definition push (st : StepResult) (r : Results) : Results :=
  {| repo := repo r; success := success r; steps := (steps r ++ [st])%list;
     duration := duration r; trigger := trigger r; error := error r;
     skipped := skipped r |}.

Definition set_success (b : bool) (r : Results) : Results :=
  {| repo := repo r; success := b; steps := steps r;
     duration := duration r; trigger := trigger r; error := error r;
     skipped := skipped r |}.

Definition set_error (e : string) (r : Results) : Results :=
  {| repo := repo r; success := success r; steps := steps r;
     duration := duration r; trigger := trigger r; error := Some e;
     skipped := skipped r |}.

Definition set_skipped (b : bool) (r : Results) : Results :=
  {| repo := repo r; success := success r; steps := steps r;
     duration := duration r; trigger := trigger r; error := error r;
     skipped := Some b |}.

Definition set_duration (d : Z) (r : Results) : Results :=
  {| repo := repo r; success := success r; steps := steps r;
     duration := d; trigger := trigger r; error := error r;
     skipped := skipped r |}.

(** [for (const x of l) { acc = body(x, acc) }] *)
Fixpoint for_of {A S} (l : list A) (acc : S) (body : A -> S -> M S) : M S :=
  match l with
  | [] => pure acc
  | x :: rest => mbind (body x acc) (fun acc' => for_of rest acc' body)
  end.

Declare Scope deploy_scope.
Delimit Scope deploy_scope with deploy.
Notation "x <- c ;; k" := (mbind c (fun x => k))
  (at level 61, c at next level, right associativity) : deploy_scope.
Notation "c ;; k" := (mbind c (fun _ => k))
  (at level 61, right associativity) : deploy_scope.

(** ** getBuildCommands *)

(** [typeof null === 'object'], so on a [null] entry [item.command]
    is read and throws. *)
Definition normalize (item : BuildItem) : completion (option BuildCommand) :=
  match item with
  | ItemString s => Normal (Some {| command := s; cwd := None |})
  | ItemObject (Some c) d =>
      if truthy_str (Some c)
      then Normal (Some {| command := c;
                           cwd := if truthy_str d then d else None |})
      else Normal None
  | ItemObject None _ => Normal None
  | ItemNull => Throw "TypeError: cannot read properties of null"
  | ItemOther => Normal None
  end.

(** [items.map(normalize).filter(Boolean)]: [map] stops at the first
    entry on which [normalize] throws. *)
Fixpoint map_filter (items : list BuildItem)
  : completion (list BuildCommand) :=
  match items with
  | [] => Normal []
  | item :: rest =>
      (c <- normalize item ;;
       cs <- map_filter rest ;;
       Normal (match c with
               | Some c => c :: cs
               | None => cs
               end))%js
  end.

Definition getBuildCommands (repoConfig : RepoConfig)
  : completion (list BuildCommand) :=
  match build repoConfig with
  | BuildAbsent => Normal []
  | BuildString s =>
      if negb (truthy_str (Some s)) then Normal []
      else Normal [{| command := s; cwd := None |}]
  | BuildObject c d commands =>
      if truthy_str c
      then Normal [{| command := str_or_empty c;
                      cwd := if truthy_str d then d else None |}]
      else match commands with
           | Some items => map_filter items
           | None => Normal []
           end
  | BuildArray items => map_filter items
  end.

(** [x && x.length > 0] for an optional array. *)
Definition nonempty {A} (o : option (list A)) : bool :=
  match o with
  | Some (_ :: _) => true
  | _ => false
  end.

Definition elements {A} (o : option (list A)) : list A :=
  match o with Some l => l | None => [] end.

(** ** deploy *)

Section Deploy.

Variable w : World.

Local Open Scope deploy_scope.

(** [Date.now()] *)
Definition clock : M Z := fun s => (Continue (now w (trace s)), s).

(** The working directory of a build command: the repository path,
    or [cwd] itself when absolute, or [cwd] joined to the path. *)
Definition workDirOf (repoConfig : RepoConfig) (buildCmd : BuildCommand)
    : string :=
  let workDir := expandPath (homedir w) (join w) (path repoConfig) in
  if truthy_str (cwd buildCmd) then
    if startsWith (str_or_empty (cwd buildCmd)) "/"
    then expandPath (homedir w) (join w) (str_or_empty (cwd buildCmd))
    else join w workDir (str_or_empty (cwd buildCmd))
  else workDir.

(** The body of the build loop: [try { await execAsync } catch]. *)
Definition runBuildCommand (repoConfig : RepoConfig)
    (buildCmd : BuildCommand) (buildResults : list BuildResult)
    : M (list BuildResult) :=
  let workDir := workDirOf repoConfig buildCmd in
  r <- call (fun t => execAsync w t (command buildCmd) workDir)
            (EvExec (command buildCmd) workDir) ;;
  match r with
  | ExecOk _ _ =>
      pure (buildResults ++
            [{| b_command := command buildCmd; b_cwd := cwd buildCmd;
                b_success := true; b_error := None |}])%list
  | ExecError message =>
      modify (set_success false) ;;
      modify (set_error ("Build failed: " ++ command buildCmd
                         ++ " - " ++ message)) ;;
      modify (push (BuildStep
        (buildResults ++
         [{| b_command := command buildCmd; b_cwd := cwd buildCmd;
             b_success := false; b_error := Some message |}])%list)) ;;
      return_results
  end.

Definition wasClonedOf (r : Results) : option bool :=
  match find (fun s => step s =? "ensure-repo") (steps r) with
  | Some s => cloned s
  | None => None
  end.

Definition wantsInstall (repoConfig : RepoConfig) : bool :=
  match dependencies repoConfig with
  | Some d => negb (dep_type d =? "none")
  | None => false
  end.

Definition dependenciesOf (repoConfig : RepoConfig) : Dependencies :=
  match dependencies repoConfig with
  | Some d => d
  | None => {| dep_type := "none"; dep_venv := None |}
  end.

(** Step 0: ensure the repository exists (clone if needed). *)
Definition ensureStep (repoConfig : RepoConfig) : M unit :=
  when (truthy_str (repoUrl repoConfig)) (
    ensureResult <-
      call (fun t => ensureRepo w t (path repoConfig)
                       (str_or_empty (repoUrl repoConfig))
                       (branch repoConfig))
           (EvEnsureRepo (path repoConfig)
                         (str_or_empty (repoUrl repoConfig))
                         (branch repoConfig)) ;;
    modify (push (EnsureRepoStep ensureResult)) ;;
    when (negb (e_success ensureResult)) (
      modify (set_success false) ;;
      modify (set_error ("Failed to ensure repo: "
                         ++ show (e_error ensureResult))) ;;
      return_results)).

(** Step 1: git pull.  An exception of [gitPull] leaves [deploy]. *)
Definition pullStep (repoConfig : RepoConfig) : M PullResult :=
  pullResult <-
    await (fun t => gitPull w t (path repoConfig) (branch repoConfig))
          (EvGitPull (path repoConfig) (branch repoConfig)) ;;
  modify (push (GitPullStep pullResult)) ;;
  when (negb (p_success pullResult)) (
    modify (set_success false) ;;
    modify (set_error ("Git pull failed: " ++ p_message pullResult)) ;;
    return_results) ;;
  pure pullResult.

(** No changes and not a fresh clone: skip the rest. *)
Definition skipCheck (startTime : Z) (pullResult : PullResult)
    : M (option bool) :=
  res <- get_results ;;
  let wasCloned := wasClonedOf res in
  when (negb (p_changed pullResult) && negb (truthy_bool wasCloned)) (
    modify (set_skipped true) ;;
    t <- clock ;;
    modify (set_duration (t - startTime)) ;;
    return_results) ;;
  pure wasCloned.

(** Step 2: install dependencies. *)
Definition installStep (repoConfig : RepoConfig) : M unit :=
  if wantsInstall repoConfig then
    installResult <-
      call (fun t => installDependencies w t (path repoConfig)
                       (dependenciesOf repoConfig))
           (EvInstall (path repoConfig) (dependenciesOf repoConfig)) ;;
    modify (push (InstallDepsStep installResult)) ;;
    when (negb (i_success installResult)
          && negb (truthy_bool (i_skipped installResult))) (
      modify (set_success false) ;;
      modify (set_error ("Dependency installation failed: "
                         ++ show (i_error installResult))) ;;
      return_results)
  else modify (push InstallDepsSkipped).

(** Step 2.5: stop the scripts before the build; the outcome of
    [stopScript] is dropped. *)
Definition stopStep (repoConfig : RepoConfig)
    (taskServerConfig : TaskServerConfig)
    (buildCommands : list BuildCommand) : M unit :=
  when (nonempty (restartScripts repoConfig)
        && (0 <? List.length buildCommands)%nat) (
    for_of (elements (restartScripts repoConfig)) tt
      (fun scriptName _ =>
         _ <- await (fun t => stopScript w t scriptName taskServerConfig)
                    (EvStop scriptName taskServerConfig) ;;
         pure tt)).

(** Step 3: run the build commands. *)
Definition buildStep (repoConfig : RepoConfig)
    (buildCommands : list BuildCommand) : M unit :=
  if (0 <? List.length buildCommands)%nat then
    buildResults <- for_of buildCommands [] (runBuildCommand repoConfig) ;;
    modify (push (BuildStep buildResults))
  else modify (push BuildSkipped).

(** Step 4: register scripts after a fresh clone. *)
Definition registerStep (repoConfig : RepoConfig)
    (taskServerConfig : TaskServerConfig) (wasCloned : option bool)
    : M unit :=
  when (truthy_bool wasCloned && nonempty (registerScripts repoConfig)) (
    registerResults <-
      for_of (elements (registerScripts repoConfig)) []
        (fun scriptConfig acc =>
           addResult <-
             await (fun t => addScript w t scriptConfig taskServerConfig)
                   (EvAdd scriptConfig taskServerConfig) ;;
           pure (acc ++ [(sc_name scriptConfig, addResult)])%list) ;;
    modify (push (RegisterScriptsStep registerResults))).

(** Step 5: restart scripts. *)
Definition restartStep (repoConfig : RepoConfig)
    (taskServerConfig : TaskServerConfig) : M unit :=
  if nonempty (restartScripts repoConfig) then
    restartResults <-
      for_of (elements (restartScripts repoConfig)) []
        (fun scriptName acc =>
           restartResult <-
             await (fun t => restartScript w t scriptName taskServerConfig)
                   (EvRestart scriptName taskServerConfig) ;;
           pure (acc ++ [(scriptName, restartResult)])%list) ;;
    modify (push (RestartScriptsStep restartResults))
  else modify (push RestartScriptsSkipped).

(** The body of [deploy], step by step as in the source. *)
Definition deploy (config : config) (repoConfig : RepoConfig) : M unit :=
  startTime <- clock ;;
  ensureStep repoConfig ;;
  pullResult <- pullStep repoConfig ;;
  wasCloned <- skipCheck startTime pullResult ;;
  installStep repoConfig ;;
  let taskServerConfig := getTaskServerConfig config repoConfig in
  buildCommands <- eval (getBuildCommands repoConfig) ;;
  stopStep repoConfig taskServerConfig buildCommands ;;
  buildStep repoConfig buildCommands ;;
  registerStep repoConfig taskServerConfig wasCloned ;;
  restartStep repoConfig taskServerConfig ;;
  t <- clock ;;
  modify (set_duration (t - startTime)).

(** The [results] object at the start of [deploy]. *)
Definition initial (repoConfig : RepoConfig)
    (triggerInfo : option TriggerInfo) : Results :=
  {| repo := name repoConfig; success := true; steps := [];
     duration := 0; trigger := triggerInfo; error := None;
     skipped := None |}.

(** One call of [deploy(config, repoConfig, triggerInfo)] started
    after the interactions [t0]: the returned object, or the exception
    the promise rejects with, and the trace. *)
Definition run (config : config) (repoConfig : RepoConfig)
    (triggerInfo : option TriggerInfo) (t0 : Trace)
    : completion Results * Trace :=
  let (f, s) := deploy config repoConfig
                  {| results := initial repoConfig triggerInfo;
                     trace := t0 |} in
  (match f with
   | Raise e => Throw e
   | _ => Normal (results s)
   end,
   trace s).

End Deploy.

End Deployer.

(* ================================================================== *)
(** * Poll loop (polling.js) *)
(* ================================================================== *)

Module Polling.

Import Config.

(** [checkForUpdates]: [{ success, hasUpdates, behind?, error? }] *)
Record Status := {
  st_success : bool;
  st_hasUpdates : bool;
  st_behind : Z;
  st_error : option string
}.

(** What one tick does, in order. *)
Inductive Event :=
  | Checked (repo : RepoConfig) (status : completion Status)
  | Updated (repo : RepoConfig)
  | Scheduled (interval : nat).

Definition Trace := list Event.

(** [checkForUpdates] answers (or throws) from the interactions so
    far; [running] is the flag that [stop()] clears, read at the point
    the tick has reached. *)
Record World := {
  checkForUpdates : Trace -> string -> string -> completion Status;
  running : Trace -> bool
}.

(** [(config.polling?.interval || 60) * 1000] *)
Definition interval (c : config) : nat :=
  match polling_interval c with
  | Some (S n) => S n * 1000
  | _ => 60 * 1000
  end.

Section Poll.

Variable w : World.

(** The body of [try { ... } catch { ... }] for one repository. *)
Definition check (repo : RepoConfig) (t : Trace) : Trace :=
  let status := checkForUpdates w t (path repo) (branch repo) in
  let t1 := (t ++ [Checked repo status])%list in
  match status with
  | Normal st =>
      if st_success st && st_hasUpdates st
      then (t1 ++ [Updated repo])%list
      else t1
  | Throw _ => t1
  end.

(** [for (const repo of repos) { if (!running) break; ... }] *)
Fixpoint scan (repos : list RepoConfig) (t : Trace) : Trace :=
  match repos with
  | [] => t
  | repo :: rest =>
      if negb (running w t) then t
      else scan rest (check repo t)
  end.

(** One call of [poll()]. *)
Definition poll (c : config) (t : Trace) : Trace :=
  if negb (running w t) then t
  else
    let t' := scan (repos c) t in
    if running w t' then (t' ++ [Scheduled (interval c)])%list else t'.

End Poll.

(** The repositories whose update check was awaited, in order. *)
Fixpoint visited (t : Trace) : list RepoConfig :=
  match t with
  | [] => []
  | Checked repo _ :: rest => repo :: visited rest
  | _ :: rest => visited rest
  end.

End Polling.

(* ================================================================== *)
(** * Entry point (index.js): triggers and deployments in flight *)
(* ================================================================== *)

Module Index.

Import Config.

(** A call [deploy(config, repoConfig, triggerInfo)] whose promise is
    pending.  [deploy] awaits [gitPull] before it can return, so every
    call stays pending until the event loop lets it finish. *)
Record Pending := {
  p_repo : RepoConfig;
  p_trigger : option Deployer.TriggerInfo
}.

(** What the event loop runs next. *)
Inductive SysEvent :=
  | Http (req : Webhook.Request)
  | PollUpdate (repo : RepoConfig)
  | Settled (repoName : string).

(** [handleDeploy(repoConfig, triggerInfo)]: start [deploy] at once. *)
Definition handleDeploy (pending : list Pending) (repoConfig : RepoConfig)
    (triggerInfo : option Deployer.TriggerInfo) : list Pending :=
  (pending ++ [{| p_repo := repoConfig; p_trigger := triggerInfo |}])%list.

Fixpoint settle (n : string) (pending : list Pending) : list Pending :=
  match pending with
  | [] => []
  | d :: rest => if (name (p_repo d) =? n) then rest else d :: settle n rest
  end.

(** The number of deployments in flight for a repository name. *)
Definition inflight (n : string) (pending : list Pending) : nat :=
  List.length (filter (fun d => name (p_repo d) =? n) pending).

Section System.

Variable hmac_sha256 : string -> string -> list byte.
Variable JSON_parse : string -> option json.
Variable cfg : config.

(** The trigger an event submits: [onPush(matchingRepo, pushInfo)]
    from the webhook handler, [onUpdate(repo)] from the poll loop. *)
Definition submits (ev : SysEvent)
    : option (RepoConfig * option Deployer.TriggerInfo) :=
  match ev with
  | Http req =>
      match Webhook.fetch hmac_sha256 JSON_parse cfg req with
      | Normal (_, Some (r, p)) => Some (r, Some (Deployer.PushTrigger p))
      | _ => None
      end
  | PollUpdate repo => Some (repo, None)
  | Settled _ => None
  end.

Definition sys_step (pending : list Pending) (ev : SysEvent)
    : list Pending :=
  match ev with
  | Settled n => settle n pending
  | _ =>
      match submits ev with
      | Some (r, trig) => handleDeploy pending r trig
      | None => pending
      end
  end.

Definition sys_run (evs : list SysEvent) : list Pending :=
  fold_left sys_step evs [].

(** No trigger for repository [n] arrives while a deployment of [n]
    is in flight. *)
Fixpoint spaced (n : string) (pending : list Pending)
    (evs : list SysEvent) : bool :=
  match evs with
  | [] => true
  | ev :: rest =>
      match submits ev with
      | Some (r, _) => negb (name r =? n) || (inflight n pending =? 0)%nat
      | None => true
      end
      && spaced n (sys_step pending ev) rest
  end.

End System.

End Index.

(* ================================================================== *)
(** * Auxiliary definitions used by the statements *)
(* ================================================================== *)

Module Aux.

(** Flipping bit [k] of a byte, and bit [i] of a byte sequence. *)
Definition flip_byte (k : nat) (b : byte) : byte :=
  byte_of_N (N.lxor (Byte.to_N b) (N.shiftl 1 (N.of_nat k))).

Fixpoint flip_bit (i : nat) (bs : list byte) : list byte :=
  match bs with
  | [] => []
  | b :: rest =>
      if (i <? 8)%nat then flip_byte i b :: rest
      else b :: flip_bit (i - 8) rest
  end.

(** Decoders, inverse to [hex_byte] and [utf8_char]. *)
Definition unhex_digit (c : ascii) : N :=
  let n := N_of_ascii c in
  if (n <? 58)%N then n - 48 else n - 87.

Definition unhex_byte (hi lo : ascii) : byte :=
  byte_of_N (16 * unhex_digit hi + unhex_digit lo).

Definition utf8_head (bs : list byte) : option (ascii * list byte) :=
  match bs with
  | [] => None
  | b :: rest =>
      if (Byte.to_N b <? 128)%N then Some (ascii_of_byte b, rest)
      else match rest with
           | [] => None
           | b2 :: rest2 =>
               Some (ascii_of_N ((Byte.to_N b - 192) * 64
                                 + (Byte.to_N b2 - 128)), rest2)
           end
  end.

(** The header value a provider computes for a payload. *)
Definition signed (hmac_sha256 : string -> string -> list byte)
    (s p : string) : string :=
  "sha256=" ++ hex (hmac_sha256 s p).

(** A toy keyed digest for concrete runs. *)
Definition toy_hmac (key data : string) : list byte :=
  (Buffer_from key ++ Buffer_from data)%list.

(** The branch the specification derives from a ref: the ref without
    its [refs/heads/] prefix, or the ref itself. *)
Definition spec_branch (ref : string) : string :=
  if startsWith ref "refs/heads/" then drop 11 ref else ref.

(** The bodies on which the push parsers return: not [null], and a
    [ref] that is absent, falsy or a string. *)
Definition ref_usable (body : json) : bool :=
  match own body "ref" with
  | Some (JStr _) => true
  | v => negb (truthy v)
  end.

Definition normalizable (body : json) : bool :=
  match body with
  | JNull => false
  | _ => ref_usable body
  end.

(** The provider branch the handler takes for a request. *)
Inductive Provider := GitHub | GitLab | Gitea | Generic.

Definition provider_of (req : Webhook.Request) : Provider :=
  if truthy_str (Webhook.headers req "X-GitHub-Event")
     || (Webhook.pathname req =? "/webhook/github") then GitHub
  else if truthy_str (Webhook.headers req "X-Gitlab-Token")
          || (Webhook.pathname req =? "/webhook/gitlab") then GitLab
  else if truthy_str (Webhook.headers req "X-Gitea-Event")
          || (Webhook.pathname req =? "/webhook/gitea") then Gitea
  else Generic.

(** Whether the handler treats the payload as a push. *)
Definition push_type (req : Webhook.Request) (body : json) : bool :=
  match provider_of req with
  | GitHub =>
      Webhook.str_is (Webhook.headers req "X-GitHub-Event") "push"
      || truthy (own body "ref")
  | GitLab =>
      strict_eq_str (own body "object_kind") "push"
      || truthy (own body "ref")
  | Gitea =>
      Webhook.str_is (Webhook.headers req "X-Gitea-Event") "push"
      || truthy (own body "ref")
  | Generic => truthy (own body "ref")
  end.

Definition is_webhook_post (req : Webhook.Request) : bool :=
  (Webhook.method req =? "POST")
  && startsWith (Webhook.pathname req) "/webhook".

Definition ignored : Webhook.Response :=
  {| Webhook.status := 200;
     Webhook.rbody := Webhook.MessageBody "Event ignored (not a push)" |}.

Definition invalid_signature : Webhook.Response :=
  {| Webhook.status := 401;
     Webhook.rbody := Webhook.ErrorBody "Invalid signature" |}.

(** ** The credential of a delivery

    Written from the providers' conventions: GitHub and Gitea send
    ["sha256="] and the hex HMAC-SHA256 of the raw body under the
    secret in their signature header, GitLab sends the secret itself
    in its token header; a generic delivery carries nothing to check.
    Without a configured secret every delivery passes. *)

Definition credential (hmac_sha256 : string -> string -> list byte)
    (s : string) (req : Webhook.Request) : bool :=
  match provider_of req with
  | GitHub =>
      Webhook.str_is (Webhook.headers req "X-Hub-Signature-256")
        (signed hmac_sha256 s (Webhook.text req))
  | GitLab => Webhook.str_is (Webhook.headers req "X-Gitlab-Token") s
  | Gitea =>
      Webhook.str_is (Webhook.headers req "X-Gitea-Signature")
        (signed hmac_sha256 s (Webhook.text req))
  | Generic => true
  end.

Definition passes (hmac_sha256 : string -> string -> list byte)
    (secret : option string) (req : Webhook.Request) : bool :=
  negb (truthy_str secret)
  || credential hmac_sha256 (str_or_empty secret) req.

(** ** The payload entries behind the fields of a trigger *)

Inductive Field := Repository | FullName | Commits | Pusher | HeadCommit.

Definition field (f : Field) (p : Webhook.PushInfo) : json :=
  match f with
  | Repository => Webhook.repository p
  | FullName => Webhook.fullName p
  | Commits => Webhook.commits p
  | Pusher => Webhook.pusher p
  | HeadCommit => Webhook.headCommit p
  end.

(** What a field is when the payload has nothing for it. *)
Definition fallback (f : Field) : json :=
  match f with
  | Commits => JNum 0
  | _ => JNull
  end.

(** A place in the payload: [body.a] or [body.a?.b]. *)
Inductive Place :=
  | Key (a : string)
  | Sub (a b : string).

Definition entry (body : json) (q : Place) : value :=
  match q with
  | Key a => own body a
  | Sub a b => get_opt (own body a) b
  end.

(** The places a provider's payload may hold a field in, in order of
    preference. *)
Definition places (prov : Provider) (f : Field) : list Place :=
  match prov, f with
  | GitLab, Repository => [Sub "project" "name"; Sub "repository" "name"]
  | GitLab, FullName => [Sub "project" "path_with_namespace"]
  | GitLab, Commits => [Key "total_commits_count"; Sub "commits" "length"]
  | GitLab, Pusher => [Key "user_name"]
  | GitLab, HeadCommit => [Key "checkout_sha"; Key "after"]
  | Gitea, Pusher => [Sub "pusher" "login"; Sub "pusher" "username"]
  | Gitea, HeadCommit => [Key "after"]
  | _, Repository => [Sub "repository" "name"]
  | _, FullName => [Sub "repository" "full_name"]
  | _, Commits => [Sub "commits" "length"]
  | _, Pusher => [Sub "pusher" "name"]
  | _, HeadCommit => [Sub "head_commit" "id"]
  end.

(** The first truthy value, or the fallback. *)
Fixpoint first_truthy (vs : list value) (d : json) : json :=
  match vs with
  | [] => d
  | v :: rest =>
      match v with
      | Some j => if truthy v then j else first_truthy rest d
      | None => first_truthy rest d
      end
  end.

(** The parser the handler applies for a provider; a generic delivery
    is read as a GitHub one. *)
Definition parser_of (prov : Provider)
    : json -> completion Webhook.PushInfo :=
  match prov with
  | GitLab => Webhook.parseGitLabPush
  | Gitea => Webhook.parseGiteaPush
  | _ => Webhook.parseGitHubPush
  end.

End Aux.

(* ================================================================== *)
(** * Vocabulary for statements about a deployment *)
(* ================================================================== *)

Module DeploySpec.

Import Config Deployer.

(** An interaction whose failure is fatal: ensure-repo, git-pull, a
    dependency installation that failed and was not skipped, a build
    command that failed.  The failure is the one reported in the
    result of the interaction; an interaction that threw reported
    none. *)
Definition fatal_event (ev : Event) : bool :=
  match ev with
  | EvEnsureRepo _ _ _ r => negb (e_success r)
  | EvGitPull _ _ (Normal r) => negb (p_success r)
  | EvInstall _ _ r => negb (i_success r) && negb (truthy_bool (i_skipped r))
  | EvExec _ _ (ExecError _) => true
  | _ => false
  end.

(** The same, read off a recorded step. *)
Definition fatal_step (s : StepResult) : bool :=
  match s with
  | EnsureRepoStep r => negb (e_success r)
  | GitPullStep r => negb (p_success r)
  | InstallDepsStep r =>
      negb (i_success r) && negb (truthy_bool (i_skipped r))
  | BuildStep rs => existsb (fun b => negb (b_success b)) rs
  | _ => false
  end.


(** The per-script outcomes held by the recorded steps. *)
Fixpoint recorded (steps : list StepResult) : list (string * ApiResult) :=
  match steps with
  | [] => []
  | RegisterScriptsStep rs :: rest => (rs ++ recorded rest)%list
  | RestartScriptsStep rs :: rest => (rs ++ recorded rest)%list
  | _ :: rest => recorded rest
  end.

(** The outcomes of the add-script and restart-script calls that
    returned. *)
Fixpoint lifecycle (evs : Trace) : list (string * ApiResult) :=
  match evs with
  | [] => []
  | EvAdd sc _ (Normal r) :: rest => (sc_name sc, r) :: lifecycle rest
  | EvRestart n _ (Normal r) :: rest => (n, r) :: lifecycle rest
  | _ :: rest => lifecycle rest
  end.

(** The exception an interaction threw, if it did. *)
Definition raised (ev : Event) : option string :=
  match ev with
  | EvGitPull _ _ (Throw e) | EvStop _ _ (Throw e)
  | EvAdd _ _ (Throw e) | EvRestart _ _ (Throw e) => Some e
  | _ => None
  end.

Definition threw (ev : Event) : bool :=
  match raised ev with Some _ => true | None => false end.

Definition is_lifecycle (ev : Event) : bool :=
  match ev with
  | EvAdd _ _ _ | EvRestart _ _ _ => true
  | _ => false
  end.

(** The build commands run, as [(command, cwd)] with their outcome. *)
Fixpoint exec_events (evs : Trace) : list ((string * string) * ExecResult) :=
  match evs with
  | [] => []
  | EvExec c d r :: rest => ((c, d), r) :: exec_events rest
  | _ :: rest => exec_events rest
  end.

Definition exec_ok (r : ExecResult) : bool :=
  match r with ExecOk _ _ => true | ExecError _ => false end.

(** Events rebuilt from recorded outcomes. *)
Definition ev_stop (ts : TaskServerConfig) (x : string * ApiResult)
    : Event := EvStop (fst x) ts (Normal (snd x)).

Definition ev_add (ts : TaskServerConfig) (x : ScriptConfig * ApiResult)
    : Event := EvAdd (fst x) ts (Normal (snd x)).

Definition ev_restart (ts : TaskServerConfig) (x : string * ApiResult)
    : Event := EvRestart (fst x) ts (Normal (snd x)).

Definition ev_exec (x : (string * string) * ExecResult) : Event :=
  EvExec (fst (fst x)) (snd (fst x)) (snd x).

(** The command line and working directory a build command runs with. *)
Definition plan (w : World) (repoConfig : RepoConfig) (c : BuildCommand)
    : string * string :=
  (command c, workDirOf w repoConfig c).

Definition failed_build (b : BuildResult) : bool := negb (b_success b).

(** The entries the build loop records for a command. *)
Definition build_ok (c : BuildCommand) : BuildResult :=
  {| b_command := command c; b_cwd := cwd c;
     b_success := true; b_error := None |}.

Definition build_failed (c : BuildCommand) (message : string) : BuildResult :=
  {| b_command := command c; b_cwd := cwd c;
     b_success := false; b_error := Some message |}.

Definition failed_exec (x : (string * string) * ExecResult) : bool :=
  negb (exec_ok (snd x)).

(** ** The build commands a configuration declares

    Written from the configuration format, not from
    [getBuildCommands]: [build] is a command line, or an object with a
    [command] (and an optional [cwd]), or a list of entries, given
    directly or under [commands]; an entry is a command line or such
    an object.  An empty [cwd] is no [cwd]; entries of another kind
    declare nothing. *)

Definition a_cwd (d : option string) : option string :=
  match d with
  | Some (String _ _) => d
  | _ => None
  end.

Definition declared_by (item : BuildItem) : list BuildCommand :=
  match item with
  | ItemString s => [{| command := s; cwd := None |}]
  | ItemObject (Some (String a c)) d =>
      [{| command := String a c; cwd := a_cwd d |}]
  | _ => []
  end.

Definition declared (b : BuildConfig) : list BuildCommand :=
  match b with
  | BuildAbsent => []
  | BuildString EmptyString => []
  | BuildString s => [{| command := s; cwd := None |}]
  | BuildObject (Some (String a c)) d _ =>
      [{| command := String a c; cwd := a_cwd d |}]
  | BuildObject _ _ (Some items) => flat_map declared_by items
  | BuildObject _ _ None => []
  | BuildArray items => flat_map declared_by items
  end.

(** The deployment got past dependency installation. *)
Definition past_install (steps : list StepResult) : bool :=
  existsb (fun s => (step s =? "install-deps") && negb (fatal_step s)) steps.

(** The success flag and the recorded outcomes agree with what
    happened since the start of the deployment. *)
Definition accounted (evs : Trace) (r : Results) : Prop :=
  success r = negb (existsb fatal_event evs)
  /\ success r = negb (existsb fatal_step (steps r))
  /\ recorded (steps r) = lifecycle evs.

(** Stages of the pipeline with respect to the build.  [quiet]: the
    run ended or stands before dependency installation; [ready]: no
    build command and no add/restart call yet; [built]: every build
    command ran, in order, and succeeded; [broken]: the commands ran in
    order up to the first failing one, which ended the deployment. *)
Definition quiet (evs : Trace) (r : Results) : Prop :=
  exec_events evs = []
  /\ existsb is_lifecycle evs = false
  /\ past_install (steps r) = false.

Definition ready (evs : Trace) (r : Results) : Prop :=
  exec_events evs = [] /\ existsb is_lifecycle evs = false.

Definition built (w : World) (rc : RepoConfig) (evs : Trace) (r : Results)
    : Prop :=
  map fst (exec_events evs) = map (plan w rc) (declared (build rc))
  /\ existsb failed_exec (exec_events evs) = false.

Definition broken (w : World) (rc : RepoConfig) (evs : Trace) (r : Results)
    : Prop :=
  exists (pre : list BuildCommand) (c : BuildCommand)
         (post : list BuildCommand) (msg : string)
         (xs : list ((string * string) * ExecResult)) (before : Trace),
    declared (build rc) = (pre ++ c :: post)%list
    /\ exec_events evs = (xs ++ [(plan w rc c, ExecError msg)])%list
    /\ map fst xs = map (plan w rc) pre
    /\ existsb failed_exec xs = false
    /\ evs = (before ++ [EvExec (command c) (workDirOf w rc c)
                                (ExecError msg)])%list
    /\ existsb is_lifecycle evs = false
    /\ success r = false
    /\ error r = Some ("Build failed: " ++ command c ++ " - " ++ msg).

Definition stalled (w : World) (rc : RepoConfig) (evs : Trace) (r : Results)
    : Prop :=
  quiet evs r \/ broken w rc evs r.

(** [triple_x P c Q R X]: from a state in [P], [c] continues with a
    value and state in [Q], or returns early in a state in [R], or
    throws [e] in a state in [X e]. *)
Definition triple_x {A} (P : State -> Prop) (c : M A)
    (Q : A -> State -> Prop) (R : State -> Prop)
    (X : string -> State -> Prop) : Prop :=
  forall s, P s ->
    match c s with
    | (Continue a, s') => Q a s'
    | (Return, s') => R s'
    | (Raise e, s') => X e s'
    end.

(** [triple P c Q R]: the same, saying nothing of the state in which
    an exception leaves [c]. *)
Definition triple {A} (P : State -> Prop) (c : M A)
    (Q : A -> State -> Prop) (R : State -> Prop) : Prop :=
  triple_x P c Q R (fun _ _ => True).

(** A property of the events since [t0] and of [results]. *)
Definition since (t0 : Trace) (P : Trace -> Results -> Prop) (s : State)
    : Prop :=
  exists evs, trace s = (t0 ++ evs)%list /\ P evs (results s).

End DeploySpec.

(* ================================================================== *)
(** * Concrete configurations and requests *)
(* ================================================================== *)

Module Examples.

Import Config.

Definition ts_local : TaskServerConfig :=
  {| ts_url := "http://localhost:3000"; ts_apiKey := None |}.

(** A repository [x] tracking [main], without build or scripts. *)
Definition repo_x : RepoConfig :=
  {| name := "x"; path := "/srv/x"; repoUrl := None; branch := "main";
     dependencies := None; build := BuildAbsent;
     restartScripts := None; registerScripts := None;
     taskServer := None |}.

(** A configuration with a webhook secret. *)
Definition cfg_secret : config :=
  {| triggerMode := "both";
     webhook := {| port := 4000; secret := Some "s3cret" |};
     polling_interval := Some 60;
     global_taskServer := ts_local;
     repos := [repo_x] |}.

(** The same configuration without a secret. *)
Definition cfg_open : config :=
  {| triggerMode := "both";
     webhook := {| port := 4000; secret := None |};
     polling_interval := Some 60;
     global_taskServer := ts_local;
     repos := [repo_x] |}.

Definition no_headers : string -> option string := fun _ => None.

(** [POST /webhook] without any provider header. *)
Definition generic_req : Webhook.Request :=
  {| Webhook.method := "POST"; Webhook.pathname := "/webhook";
     Webhook.headers := no_headers; Webhook.text := "<body>" |}.

(** [POST /webhook/gitlab] *)
Definition gitlab_req : Webhook.Request :=
  {| Webhook.method := "POST"; Webhook.pathname := "/webhook/gitlab";
     Webhook.headers := no_headers; Webhook.text := "<body>" |}.

(** Three repositories to poll. *)
Definition repo_named (n : string) : RepoConfig :=
  {| name := n; path := "/srv/" ++ n; repoUrl := None; branch := "main";
     dependencies := None; build := BuildAbsent;
     restartScripts := None; registerScripts := None;
     taskServer := None |}.

(** The check of [a] throws, the check of [b] reports a failure, the
    check of [c] finds updates. *)
Definition world_flaky : Polling.World :=
  {| Polling.checkForUpdates := fun _ p _ =>
       if p =? "/srv/a" then Throw "Error: spawn git ENOENT"
       else if p =? "/srv/b"
       then Normal {| Polling.st_success := false;
                      Polling.st_hasUpdates := false;
                      Polling.st_behind := 0;
                      Polling.st_error := Some "network unreachable" |}
       else Normal {| Polling.st_success := true;
                      Polling.st_hasUpdates := true;
                      Polling.st_behind := 2;
                      Polling.st_error := None |};
     Polling.running := fun _ => true |}.

Definition cfg_poll : config :=
  {| triggerMode := "polling";
     webhook := {| port := 4000; secret := None |};
     polling_interval := None;
     global_taskServer := ts_local;
     repos := [repo_named "a"; repo_named "b"; repo_named "c"] |}.

(** A [JSON.parse] that yields the given value. *)
Definition parses_to (j : json) : string -> option json :=
  fun _ => Some j.

(** [{"ref": "refs/heads/main", "repository": {"name": "x"},
    "pusher": {"name": "a"}}] *)
Definition push_main_x : json :=
  JObj [("ref", JStr "refs/heads/main");
        ("repository", JObj [("name", JStr "x")]);
        ("pusher", JObj [("name", JStr "a")])].

(** A repository with one build command and one managed script. *)
Definition repo_app : RepoConfig :=
  {| name := "app"; path := "/srv/app"; repoUrl := None; branch := "main";
     dependencies := None; build := BuildString "make";
     restartScripts := Some ["api"]; registerScripts := None;
     taskServer := None |}.

(** A repository with two build commands, the second in [client]. *)
Definition repo_two : RepoConfig :=
  {| name := "two"; path := "/srv/two"; repoUrl := None; branch := "main";
     dependencies := None;
     build := BuildArray [ItemString "make";
                          ItemObject (Some "test") (Some "client")];
     restartScripts := Some ["api"]; registerScripts := None;
     taskServer := None |}.

Definition api_ok : Deployer.ApiResult :=
  {| Deployer.a_success := true; Deployer.a_message := Some "ok";
     Deployer.a_error := None |}.

Definition api_failed : Deployer.ApiResult :=
  {| Deployer.a_success := false; Deployer.a_message := None;
     Deployer.a_error := Some "Script not running" |}.

(** A world where everything succeeds, the pull brings changes, and
    [stopScript] answers [stop]. *)
Definition world_with_stop (stop : Deployer.ApiResult) : Deployer.World :=
  {| Deployer.ensureRepo := fun _ _ _ _ =>
       {| Deployer.e_success := true; Deployer.e_cloned := Some false;
          Deployer.e_error := None |};
     Deployer.gitPull := fun _ _ _ =>
       Normal {| Deployer.p_success := true; Deployer.p_changed := true;
                 Deployer.p_message := "Pulled 1 changes";
                 Deployer.p_files := ["a.js"] |};
     Deployer.installDependencies := fun _ _ _ =>
       {| Deployer.i_success := true; Deployer.i_skipped := None;
          Deployer.i_error := None |};
     Deployer.stopScript := fun _ _ _ => Normal stop;
     Deployer.execAsync := fun _ c _ =>
       if c =? "test" then Deployer.ExecError "exit code 1"
       else Deployer.ExecOk "" "";
     Deployer.addScript := fun _ _ _ => Normal api_ok;
     Deployer.restartScript := fun _ _ _ => Normal api_ok;
     Deployer.now := fun t => Z.of_nat (List.length t);
     Deployer.homedir := "/home/deploy";
     Deployer.join := fun a b => a ++ "/" ++ b |}.

(** The same world with a pull that reports no change. *)
Definition world_unchanged : Deployer.World :=
  {| Deployer.ensureRepo := Deployer.ensureRepo (world_with_stop api_ok);
     Deployer.gitPull := fun _ _ _ =>
       Normal {| Deployer.p_success := true; Deployer.p_changed := false;
                 Deployer.p_message := "Already up to date";
                 Deployer.p_files := [] |};
     Deployer.installDependencies :=
       Deployer.installDependencies (world_with_stop api_ok);
     Deployer.stopScript := Deployer.stopScript (world_with_stop api_ok);
     Deployer.execAsync := Deployer.execAsync (world_with_stop api_ok);
     Deployer.addScript := Deployer.addScript (world_with_stop api_ok);
     Deployer.restartScript :=
       Deployer.restartScript (world_with_stop api_ok);
     Deployer.now := Deployer.now (world_with_stop api_ok);
     Deployer.homedir := "/home/deploy";
     Deployer.join := fun a b => a ++ "/" ++ b |}.

(** The same world on a machine where the checkout is missing: the
    [simpleGit] constructor throws, and so does [gitPull]. *)
Definition world_no_checkout : Deployer.World :=
  {| Deployer.ensureRepo := Deployer.ensureRepo (world_with_stop api_ok);
     Deployer.gitPull := fun _ _ _ =>
       Throw "Cannot use simple-git on a directory that does not exist";
     Deployer.installDependencies :=
       Deployer.installDependencies (world_with_stop api_ok);
     Deployer.stopScript := Deployer.stopScript (world_with_stop api_ok);
     Deployer.execAsync := Deployer.execAsync (world_with_stop api_ok);
     Deployer.addScript := Deployer.addScript (world_with_stop api_ok);
     Deployer.restartScript :=
       Deployer.restartScript (world_with_stop api_ok);
     Deployer.now := Deployer.now (world_with_stop api_ok);
     Deployer.homedir := "/home/deploy";
     Deployer.join := fun a b => a ++ "/" ++ b |}.

(** The same world with a process-manager client that cannot encode
    the script name: [stopScript] throws a URIError. *)
Definition world_bad_name : Deployer.World :=
  {| Deployer.ensureRepo := Deployer.ensureRepo (world_with_stop api_ok);
     Deployer.gitPull := Deployer.gitPull (world_with_stop api_ok);
     Deployer.installDependencies :=
       Deployer.installDependencies (world_with_stop api_ok);
     Deployer.stopScript := fun _ _ _ => Throw "URIError: URI malformed";
     Deployer.execAsync := Deployer.execAsync (world_with_stop api_ok);
     Deployer.addScript := Deployer.addScript (world_with_stop api_ok);
     Deployer.restartScript :=
       Deployer.restartScript (world_with_stop api_ok);
     Deployer.now := Deployer.now (world_with_stop api_ok);
     Deployer.homedir := "/home/deploy";
     Deployer.join := fun a b => a ++ "/" ++ b |}.

(** A repository whose build list has an empty entry after [make]. *)
Definition repo_gap : RepoConfig :=
  {| name := "gap"; path := "/srv/gap"; repoUrl := None; branch := "main";
     dependencies := None;
     build := BuildArray [ItemString "make"; ItemNull];
     restartScripts := Some ["api"]; registerScripts := None;
     taskServer := None |}.

(** A GitHub push delivery signed with the secret of [cfg_secret]. *)
Definition signed_req : Webhook.Request :=
  {| Webhook.method := "POST"; Webhook.pathname := "/webhook/github";
     Webhook.headers := fun h =>
       if h =? "X-GitHub-Event" then Some "push"
       else if h =? "X-Hub-Signature-256"
       then Some (Aux.signed Aux.toy_hmac "s3cret" "<body>")
       else None;
     Webhook.text := "<body>" |}.

End Examples.

(* ================================================================== *)
(** * Vocabulary for statements about a poll tick *)
(* ================================================================== *)

Module PollSpec.

Import Config Polling.

(** Whether a check reported updates: it returned, with
    [success && hasUpdates]. *)
Definition reports_updates (status : completion Status) : bool :=
  match status with
  | Normal st => st_success st && st_hasUpdates st
  | Throw _ => false
  end.

(** The repositories handed to [onUpdate], in order. *)
Fixpoint updated (t : Trace) : list RepoConfig :=
  match t with
  | [] => []
  | Updated repo :: rest => repo :: updated rest
  | _ :: rest => updated rest
  end.

(** The repositories whose check reported updates, in order. *)
Fixpoint found (t : Trace) : list RepoConfig :=
  match t with
  | [] => []
  | Checked repo status :: rest =>
      if reports_updates status then repo :: found rest else found rest
  | _ :: rest => found rest
  end.

(** The timers set. *)
Fixpoint scheduled (t : Trace) : list nat :=
  match t with
  | [] => []
  | Scheduled ms :: rest => ms :: scheduled rest
  | _ :: rest => scheduled rest
  end.

End PollSpec.

(* ================================================================== *)
(** * Outcome and calls of a deployment *)
(* ================================================================== *)

Module DeployShape.

Import Config Deployer DeploySpec.

(** The message [deploy] stores in [results.error] for a fatal
    interaction. *)
Definition fatal_message (ev : Event) : string :=
  match ev with
  | EvEnsureRepo _ _ _ r => "Failed to ensure repo: " ++ show (e_error r)
  | EvGitPull _ _ (Normal r) => "Git pull failed: " ++ p_message r
  | EvInstall _ _ r =>
      "Dependency installation failed: " ++ show (i_error r)
  | EvExec c _ (ExecError msg) => "Build failed: " ++ c ++ " - " ++ msg
  | _ => ""
  end.

(** The deployment is under way and nothing fatal has happened. *)
Definition going (evs : Trace) (r : Results) : Prop :=
  existsb fatal_event evs = false
  /\ success r = true /\ error r = None /\ skipped r = None
  /\ duration r = 0%Z.

(** The deployment ended on a fatal interaction, its last one. *)
Definition failed (evs : Trace) (r : Results) : Prop :=
  exists (before : Trace) (ev : Event),
    evs = (before ++ [ev])%list
    /\ fatal_event ev = true
    /\ existsb fatal_event before = false
    /\ success r = false
    /\ error r = Some (fatal_message ev)
    /\ skipped r = None
    /\ duration r = 0%Z.

(** The deployment ended on the fast path. *)
Definition skipped_early (w : World) (t0 evs : Trace) (r : Results) : Prop :=
  existsb fatal_event evs = false
  /\ success r = true /\ error r = None /\ skipped r = Some true
  /\ duration r = (now w (t0 ++ evs)%list - now w t0)%Z.

(** The deployment ran to its end. *)
Definition finished (w : World) (t0 evs : Trace) (r : Results) : Prop :=
  existsb fatal_event evs = false
  /\ success r = true /\ error r = None /\ skipped r = None
  /\ duration r = (now w (t0 ++ evs)%list - now w t0)%Z.

Definition halted (w : World) (t0 evs : Trace) (r : Results) : Prop :=
  failed evs r \/ skipped_early w t0 evs r.

(** The names of the scripts stopped, registered and restarted. *)
Fixpoint stop_calls (evs : Trace) : list string :=
  match evs with
  | [] => []
  | EvStop n _ _ :: rest => n :: stop_calls rest
  | _ :: rest => stop_calls rest
  end.

Fixpoint add_calls (evs : Trace) : list ScriptConfig :=
  match evs with
  | [] => []
  | EvAdd sc _ _ :: rest => sc :: add_calls rest
  | _ :: rest => add_calls rest
  end.

Fixpoint restart_calls (evs : Trace) : list string :=
  match evs with
  | [] => []
  | EvRestart n _ _ :: rest => n :: restart_calls rest
  | _ :: rest => restart_calls rest
  end.

(** The [step] names of the recorded steps. *)
Definition names (r : Results) : list string := map step (steps r).

(** The step names of a deployment that runs to its end. *)
Definition ensure_names (rc : RepoConfig) : list string :=
  if truthy_str (repoUrl rc) then ["ensure-repo"] else [].

Definition register_names (rc : RepoConfig) (wasCloned : option bool)
    : list string :=
  if truthy_bool wasCloned && nonempty (registerScripts rc)
  then ["register-scripts"] else [].

Definition full_names (rc : RepoConfig) (wasCloned : option bool)
    : list string :=
  (ensure_names rc ++ ["git-pull"; "install-deps"; "build"]
   ++ register_names rc wasCloned ++ ["restart-scripts"])%list.

(** The scripts the pre-build step stops. *)
Definition expected_stops (rc : RepoConfig) : list string :=
  if nonempty (restartScripts rc)
     && (0 <? List.length (declared (build rc)))%nat
  then elements (restartScripts rc) else [].

Definition expected_adds (rc : RepoConfig) (wasCloned : option bool)
    : list ScriptConfig :=
  if truthy_bool wasCloned && nonempty (registerScripts rc)
  then elements (registerScripts rc) else [].

(** No build command ran before a script was stopped. *)
Definition stops_first (evs : Trace) : Prop :=
  exists a b : Trace,
    evs = (a ++ b)%list /\ exec_events a = [] /\ stop_calls b = [].

(** The calls made so far and the steps recorded so far, while the
    deployment is under way. *)
Definition calls (ns stops : list string) (adds : list ScriptConfig)
    (restarts : list string) (evs : Trace) (r : Results) : Prop :=
  names r = ns
  /\ stop_calls evs = stops
  /\ add_calls evs = adds
  /\ restart_calls evs = restarts
  /\ stops_first evs
  /\ success r = true /\ skipped r = None.

(** The same with no build command run yet. *)
Definition calls_before_build (ns stops : list string) (evs : Trace)
    (r : Results) : Prop :=
  calls ns stops [] [] evs r /\ exec_events evs = [].

(** What holds of the calls when the deployment returns early. *)
Definition cut_short (rc : RepoConfig) (evs : Trace) (r : Results) : Prop :=
  (success r = false \/ skipped r = Some true)
  /\ add_calls evs = []
  /\ restart_calls evs = []
  /\ (stop_calls evs = [] \/ stop_calls evs = expected_stops rc)
  /\ stops_first evs.

(** [l] is an initial segment of [full]. *)
Definition begins {A} (l full : list A) : Prop :=
  exists rest, full = (l ++ rest)%list.

(** What holds of the calls when the deployment throws [e]: the
    scripts stopped, registered and restarted so far are initial
    segments of the declared ones; a script was registered only if the
    call that threw is a registration or a restart, and a script was
    restarted only if it is a restart. *)
Definition interrupted (rc : RepoConfig) (e : string) (evs : Trace)
    : Prop :=
  begins (stop_calls evs) (expected_stops rc)
  /\ begins (add_calls evs) (elements (registerScripts rc))
  /\ begins (restart_calls evs) (elements (restartScripts rc))
  /\ ((restart_calls evs = [] /\ add_calls evs = [])
      \/ (restart_calls evs = []
          /\ exists before sc ts,
               evs = (before ++ [EvAdd sc ts (Throw e)])%list)
      \/ exists before n ts,
           evs = (before ++ [EvRestart n ts (Throw e)])%list)
  /\ stops_first evs.

(** ** Deployments that are rejected *)

(** Nothing has thrown, and no script was stopped, registered or
    restarted and no command run. *)
Definition untouched (evs : Trace) : Prop :=
  existsb threw evs = false
  /\ exec_events evs = [] /\ stop_calls evs = []
  /\ add_calls evs = [] /\ restart_calls evs = [].

(** Nothing has thrown. *)
Definition calm (evs : Trace) : Prop :=
  existsb threw evs = false.

(** [ev] is a call of [gitPull] for the repository, or of
    [stopScript], [addScript] or [restartScript] for one of its
    scripts, made after the interactions [t] with the outcome the
    collaborator gave. *)
Definition call_of (w : World) (cfg : config) (rc : RepoConfig)
    (t : Trace) (ev : Event) : Prop :=
  ev = EvGitPull (path rc) (branch rc)
         (gitPull w t (path rc) (branch rc))
  \/ (exists n,
        In n (elements (restartScripts rc))
        /\ ev = EvStop n (getTaskServerConfig cfg rc)
                  (stopScript w t n (getTaskServerConfig cfg rc)))
  \/ (exists sc,
        In sc (elements (registerScripts rc))
        /\ ev = EvAdd sc (getTaskServerConfig cfg rc)
                  (addScript w t sc (getTaskServerConfig cfg rc)))
  \/ (exists n,
        In n (elements (restartScripts rc))
        /\ ev = EvRestart n (getTaskServerConfig cfg rc)
                  (restartScript w t n (getTaskServerConfig cfg rc))).

(** How [deploy] throws [e]: its last interaction is a call of
    [gitPull], [stopScript], [addScript] or [restartScript] that threw
    [e], the first to throw; or [getBuildCommands] threw [e], before any script
    was stopped, registered or restarted and any command run. *)
Definition rejected (w : World) (cfg : config) (rc : RepoConfig)
    (t0 evs : Trace) (e : string) : Prop :=
  (exists (before : Trace) (ev : Event),
      evs = (before ++ [ev])%list
      /\ raised ev = Some e
      /\ existsb threw before = false
      /\ call_of w cfg rc (t0 ++ before)%list ev)
  \/ (getBuildCommands rc = Throw e /\ untouched evs).

(** [repoConfig] with another [build] entry. *)
Definition with_build (rc : RepoConfig) (b : BuildConfig) : RepoConfig :=
  {| name := name rc; path := path rc; repoUrl := repoUrl rc;
     branch := branch rc; dependencies := dependencies rc; build := b;
     restartScripts := restartScripts rc;
     registerScripts := registerScripts rc; taskServer := taskServer rc |}.

End DeployShape.

(* ================================================================== *)
(** * Effects: computations that interact and may throw *)
(* ================================================================== *)

Module Eff.

Section IO.

(** The interactions performed, each with its outcome. *)
Context {E : Type}.

(** An [async] function body: it reads the interactions performed so
    far, appends its own, and returns or throws. *)
Definition IO (A : Type) : Type := list E -> completion A * list E.

Definition ret {A} (a : A) : IO A := fun t => (Normal a, t).

Definition lift {A} (c : completion A) : IO A := fun t => (c, t).

Definition bind {A B} (c : IO A) (k : A -> IO B) : IO B :=
  fun t =>
    match c t with
    | (Normal a, t') => k a t'
    | (Throw e, t') => (Throw e, t')
    end.

(** [try { c } catch (error) { h error.message }] *)
Definition try_catch {A} (c : IO A) (h : string -> IO A) : IO A :=
  fun t =>
    match c t with
    | (Normal a, t') => (Normal a, t')
    | (Throw e, t') => h e t'
    end.

(** A call that cannot throw. *)
Definition ask {A} (answer : list E -> A) (ev : A -> E) : IO A :=
  fun t => let a := answer t in (Normal a, (t ++ [ev a])%list).

(** A call that returns or throws; the outcome is recorded. *)
Definition perform {A} (answer : list E -> completion A)
    (ev : completion A -> E) : IO A :=
  fun t => let r := answer t in (r, (t ++ [ev r])%list).

End IO.

End Eff.

Declare Scope io_scope.
Delimit Scope io_scope with io.
Notation "x <- c ;; k" := (Eff.bind c (fun x => k))
  (at level 61, c at next level, right associativity) : io_scope.

(* ================================================================== *)
(** * Git operations (gitPull.js) *)
(* ================================================================== *)

Module Git.

Import Config Eff.

Local Open Scope io_scope.

(** ** Strings *)

Fixpoint lastIndexOf_from (s : string) (c : ascii) (i acc : Z) : Z :=
  match s with
  | EmptyString => acc
  | String x s' =>
      lastIndexOf_from s' c (i + 1) (if Ascii.eqb x c then i else acc)
  end.

(** [s.lastIndexOf(c)] for a one-character [c]: [-1] when absent. *)
Definition lastIndexOf (s : string) (c : ascii) : Z :=
  lastIndexOf_from s c 0 (-1).

(** [s.substring(0, e)]: a negative [e] counts as [0]. *)
Definition substring0 (s : string) (e : Z) : string :=
  String.substring 0 (Z.to_nat e) s.

(** [p.substring(0, p.lastIndexOf('/'))] *)
Definition parentDir (p : string) : string :=
  substring0 p (lastIndexOf p "/").

(** A number inside a template literal. *)
Definition show_num (n : Z) : string := NilZero.string_of_int (Z.to_int n).

(** ** The library and the file system *)

(** [git.status()] *)
Record StatusSummary := {
  current : string;
  behind : Z;
  ahead : Z
}.

Record PullSummary := {
  changes : Z;
  insertions : Z;
  deletions : Z
}.

(** [git.pull()] *)
Record PullOutput := {
  files : list string;
  summary : PullSummary
}.

Inductive Event :=
  | ExistsSync (p : string) (r : bool)
  | MkdirSync (p : string) (r : completion unit)
  | SimpleGit (baseDir : option string) (r : completion unit)
  | Clone (url p branch : string) (r : completion unit)
  | Fetch (baseDir remote branch : string) (r : completion unit)
  | Status (baseDir : string) (r : completion StatusSummary)
  | Checkout (baseDir branch : string) (r : completion unit)
  | Pull (baseDir remote branch : string) (r : completion PullOutput)
  | Log (baseDir : string) (r : completion (option string)).

Definition Trace := list Event.

(** [fs.existsSync] never throws; every other call may.  [simpleGit]
    is the constructor of a handle on a base directory; [log] answers
    [log.latest?.hash]. *)
Record World := {
  existsSync : Trace -> string -> bool;
  mkdirSync : Trace -> string -> completion unit;
  simpleGit : Trace -> option string -> completion unit;
  clone : Trace -> string -> string -> string -> completion unit;
  fetch : Trace -> string -> string -> string -> completion unit;
  status : Trace -> string -> completion StatusSummary;
  checkout : Trace -> string -> string -> completion unit;
  pull : Trace -> string -> string -> string -> completion PullOutput;
  log : Trace -> string -> completion (option string);
  homedir : string;
  join : string -> string -> string
}.

(** ** Results *)

(** The [error] field: a string, or the caught [Error] object. *)
Inductive ErrorValue :=
  | ErrorString (s : string)
  | ErrorObject (message : string).

(** [ensureRepo] and [gitClone]:
    [{ success, cloned?, existed?, message?, path?, error? }] *)
Record EnsureResult := {
  en_success : bool;
  en_cloned : option bool;
  en_existed : option bool;
  en_message : option string;
  en_path : option string;
  en_error : option ErrorValue
}.

(** [gitPull]: [{ success, changed, message, files?, summary?, error? }] *)
Record PullResult := {
  pl_success : bool;
  pl_changed : bool;
  pl_message : string;
  pl_files : option (list string);
  pl_summary : option PullSummary;
  pl_error : option ErrorValue
}.

(** [checkForUpdates]:
    [{ success, behind?, ahead?, hasUpdates, currentBranch?, error? }] *)
Record UpdateStatus := {
  up_success : bool;
  up_behind : option Z;
  up_ahead : option Z;
  up_hasUpdates : bool;
  up_currentBranch : option string;
  up_error : option string
}.

Section Ops.

Variable w : World.

Definition expand (p : string) : string := expandPath (homedir w) (join w) p.

Definition exists_ (p : string) : IO bool :=
  ask (fun t => existsSync w t p) (ExistsSync p).

(** [existsSync(p) && existsSync(`${p}/.git`)] *)
Definition isGitRepo (repoPath : string) : IO bool :=
  let p := expand repoPath in
  e <- exists_ p;;
  if e then exists_ (p ++ "/.git") else ret false.

Definition gitClone (repoUrl repoPath branch : string) : IO EnsureResult :=
  let p := expand repoPath in
  try_catch
    (let parentDir := parentDir p in
     _ <- (if negb (parentDir =? "")
           then e <- exists_ parentDir;;
                if negb e
                then perform (fun t => mkdirSync w t parentDir)
                             (MkdirSync parentDir)
                else ret tt
           else ret tt);;
     _ <- perform (fun t => simpleGit w t None) (SimpleGit None);;
     _ <- perform (fun t => clone w t repoUrl p branch)
                  (Clone repoUrl p branch);;
     ret {| en_success := true; en_cloned := Some true; en_existed := None;
            en_message := Some ("Cloned " ++ repoUrl ++ " to " ++ repoPath);
            en_path := Some repoPath; en_error := None |})
    (fun error =>
       ret {| en_success := false; en_cloned := Some false;
              en_existed := None; en_message := Some error;
              en_path := None; en_error := Some (ErrorObject error) |}).

Definition ensureRepo (repoPath : string) (repoUrl : option string)
    (branch : string) : IO EnsureResult :=
  g <- isGitRepo repoPath;;
  if g then
    ret {| en_success := true; en_cloned := Some false;
           en_existed := Some true; en_message := None; en_path := None;
           en_error := None |}
  else if negb (truthy_str repoUrl) then
    ret {| en_success := false; en_cloned := None; en_existed := None;
           en_message := None; en_path := None;
           en_error := Some (ErrorString
             "Repository not found and no repoUrl provided for cloning") |}
  else gitClone (str_or_empty repoUrl) repoPath branch.

Definition gitPull (repoPath branch : string) : IO PullResult :=
  let p := expand repoPath in
  _ <- perform (fun t => simpleGit w t (Some p)) (SimpleGit (Some p));;
  try_catch
    (_ <- perform (fun t => fetch w t p "origin" branch)
                  (Fetch p "origin" branch);;
     st <- perform (fun t => status w t p) (Status p);;
     _ <- (if negb (current st =? branch)
           then perform (fun t => checkout w t p branch) (Checkout p branch)
           else ret tt);;
     pullResult <- perform (fun t => pull w t p "origin" branch)
                           (Pull p "origin" branch);;
     if (changes (summary pullResult) =? 0)%Z
        && (insertions (summary pullResult) =? 0)%Z
        && (deletions (summary pullResult) =? 0)%Z
     then
       ret {| pl_success := true; pl_changed := false;
              pl_message := "Already up to date"; pl_files := Some [];
              pl_summary := None; pl_error := None |}
     else
       ret {| pl_success := true; pl_changed := true;
              pl_message :=
                "Pulled " ++ show_num (changes (summary pullResult))
                          ++ " changes";
              pl_files := Some (files pullResult);
              pl_summary := Some (summary pullResult); pl_error := None |})
    (fun error =>
       ret {| pl_success := false; pl_changed := false; pl_message := error;
              pl_files := None; pl_summary := None;
              pl_error := Some (ErrorObject error) |}).

Definition checkForUpdates (repoPath branch : string) : IO UpdateStatus :=
  let p := expand repoPath in
  _ <- perform (fun t => simpleGit w t (Some p)) (SimpleGit (Some p));;
  try_catch
    (_ <- perform (fun t => fetch w t p "origin" branch)
                  (Fetch p "origin" branch);;
     st <- perform (fun t => status w t p) (Status p);;
     ret {| up_success := true; up_behind := Some (behind st);
            up_ahead := Some (ahead st);
            up_hasUpdates := (0 <? behind st)%Z;
            up_currentBranch := Some (current st); up_error := None |})
    (fun error =>
       ret {| up_success := false; up_behind := None; up_ahead := None;
              up_hasUpdates := false; up_currentBranch := None;
              up_error := Some error |}).

(** [log.latest?.hash || null] *)
Definition getCurrentCommit (repoPath : string) : IO (option string) :=
  let p := expand repoPath in
  _ <- perform (fun t => simpleGit w t (Some p)) (SimpleGit (Some p));;
  hash <- perform (fun t => log w t p) (Log p);;
  ret (if truthy_str hash then hash else None).

End Ops.

End Git.

(* ================================================================== *)
(** * What the git operations do to the repository *)
(* ================================================================== *)

Module GitSpec.

Import Git.

(** The interaction returned normally. *)
Definition returned (ev : Event) : bool :=
  match ev with
  | ExistsSync _ _ => true
  | MkdirSync _ r | SimpleGit _ r | Clone _ _ _ r | Fetch _ _ _ r
  | Checkout _ _ r => Js.returns r
  | Status _ r => Js.returns r
  | Pull _ _ _ r => Js.returns r
  | Log _ r => Js.returns r
  end.

(** The message of the exception the interaction threw. *)
Definition thrown {A} (r : completion A) : option string :=
  match r with Normal _ => None | Throw e => Some e end.

Definition threw (ev : Event) : option string :=
  match ev with
  | ExistsSync _ _ => None
  | MkdirSync _ r | SimpleGit _ r | Clone _ _ _ r | Fetch _ _ _ r
  | Checkout _ _ r => thrown r
  | Status _ r => thrown r
  | Pull _ _ _ r => thrown r
  | Log _ r => thrown r
  end.

(** Interactions that only look: existence checks, opening a handle,
    [fetch], [status] and [log] leave the working tree and the current
    branch as they are. *)
Definition read_only (ev : Event) : bool :=
  match ev with
  | ExistsSync _ _ | SimpleGit _ _ | Fetch _ _ _ _ | Status _ _ | Log _ _ =>
      true
  | MkdirSync _ _ | Clone _ _ _ _ | Checkout _ _ _ | Pull _ _ _ _ => false
  end.

Definition is_probe (ev : Event) : bool :=
  match ev with ExistsSync _ _ => true | _ => false end.

Definition is_clone (ev : Event) : bool :=
  match ev with Clone _ _ _ _ => true | _ => false end.

Definition clone_ok (ev : Event) : bool :=
  match ev with Clone _ _ _ (Normal _) => true | _ => false end.

Definition is_checkout (ev : Event) : bool :=
  match ev with Checkout _ _ _ => true | _ => false end.

(** The interaction is an operation of the handle on [p] that names
    no remote but [origin] and no branch but [branch]. *)
Definition targets (p branch : string) (ev : Event) : bool :=
  match ev with
  | Fetch d r b _ | Pull d r b _ => (d =? p) && (r =? "origin") && (b =? branch)
  | Checkout d b _ => (d =? p) && (b =? branch)
  | Status d _ | Log d _ => (d =? p)
  | _ => false
  end.

(** The three counters of a pull summary are all zero. *)
Definition no_change (s : PullSummary) : bool :=
  (changes s =? 0)%Z && (insertions s =? 0)%Z && (deletions s =? 0)%Z.

(** The operations of a handle, without their outcomes. *)
Inductive Op := OpFetch | OpStatus | OpCheckout | OpPull | OpOther.

Definition op (ev : Event) : Op :=
  match ev with
  | Fetch _ _ _ _ => OpFetch
  | Status _ _ => OpStatus
  | Checkout _ _ _ => OpCheckout
  | Pull _ _ _ _ => OpPull
  | _ => OpOther
  end.

(** [a] is an initial segment of [b]. *)
Fixpoint prefix_of {A} (eqb : A -> A -> bool) (a b : list A) : bool :=
  match a, b with
  | [], _ => true
  | x :: a', y :: b' => eqb x y && prefix_of eqb a' b'
  | _ :: _, [] => false
  end.

Definition op_eqb (a b : Op) : bool :=
  match a, b with
  | OpFetch, OpFetch | OpStatus, OpStatus | OpCheckout, OpCheckout
  | OpPull, OpPull | OpOther, OpOther => true
  | _, _ => false
  end.

End GitSpec.

(* ================================================================== *)
(** * Dependency installation (dependencyInstaller.js) *)
(* ================================================================== *)

Module Installer.

Import Config Eff.

Local Open Scope io_scope.

(** What [execAsync] resolves with. *)
Record ExecOutput := {
  stdout : string;
  stderr : string
}.

Inductive Event :=
  | ExistsSync (p : string) (r : bool)
  | Exec (command cwd : string) (r : completion ExecOutput).

Definition Trace := list Event.

(** [path.join] takes any number of segments. *)
Record World := {
  existsSync : Trace -> string -> bool;
  execAsync : Trace -> string -> string -> completion ExecOutput;
  homedir : string;
  join : list string -> string
}.

(** [{ success, skipped?, stdout?, stderr?, venvPath?, error? }];
    a [venvPath] of [null] reads as [None]. *)
Record InstallResult := {
  in_success : bool;
  in_skipped : option bool;
  in_stdout : option string;
  in_stderr : option string;
  in_venvPath : option string;
  in_error : option string
}.

(** [{ success: true, skipped: true }] *)
Definition skip : InstallResult :=
  {| in_success := true; in_skipped := Some true; in_stdout := None;
     in_stderr := None; in_venvPath := None; in_error := None |}.

(** [{ success: true, stdout, stderr, venvPath? }] *)
Definition installed (out : ExecOutput) (venvPath : option string)
  : InstallResult :=
  {| in_success := true; in_skipped := None; in_stdout := Some (stdout out);
     in_stderr := Some (stderr out); in_venvPath := venvPath;
     in_error := None |}.

(** [{ success: false, error }] *)
Definition failure (error : string) : InstallResult :=
  {| in_success := false; in_skipped := None; in_stdout := None;
     in_stderr := None; in_venvPath := None; in_error := Some error |}.

Section Install.

Variable w : World.

Definition exists_ (p : string) : IO bool :=
  ask (fun t => existsSync w t p) (ExistsSync p).

(** [await execAsync(command, { cwd })] *)
Definition exec (command cwd : string) : IO ExecOutput :=
  perform (fun t => execAsync w t command cwd) (Exec command cwd).

Definition installNpm (repoPath : string) : IO InstallResult :=
  let packageJson := join w [repoPath; "package.json"] in
  e <- exists_ packageJson;;
  if negb e then ret skip
  else
    out <- exec "npm install" repoPath;;
    ret (installed out None).

Definition installBun (repoPath : string) : IO InstallResult :=
  let packageJson := join w [repoPath; "package.json"] in
  e <- exists_ packageJson;;
  if negb e then ret skip
  else
    out <- exec "bun install" repoPath;;
    ret (installed out None).

Definition installYarn (repoPath : string) : IO InstallResult :=
  let packageJson := join w [repoPath; "package.json"] in
  e <- exists_ packageJson;;
  if negb e then ret skip
  else
    out <- exec "yarn install" repoPath;;
    ret (installed out None).

Definition installPip (repoPath : string) (venvConfig : option string)
  : IO InstallResult :=
  let requirementsFile := join w [repoPath; "requirements.txt"] in
  e <- exists_ requirementsFile;;
  if negb e then ret skip
  else
    (* [(pipPath, venvPath)] after the venv handling *)
    paths <-
      (if truthy_str venvConfig then
         venvPath <-
           (if str_or_empty venvConfig =? "auto" then
              let venvPath := join w [repoPath; ".venv"] in
              e <- exists_ venvPath;;
              _ <- (if negb e
                    then _ <- exec "python3 -m venv .venv" repoPath;; ret tt
                    else ret tt);;
              ret venvPath
            else ret (str_or_empty venvConfig));;
         let pipPath := join w [venvPath; "bin"; "pip"] in
         e <- exists_ pipPath;;
         ret (if negb e then join w [venvPath; "Scripts"; "pip"]
              else pipPath,
              Some venvPath)
       else ret ("pip", None));;
    out <- exec (fst paths ++ " install -r requirements.txt") repoPath;;
    ret (installed out (snd paths)).

Definition installDependencies (repoPath : string)
    (depConfig : option Dependencies) : IO InstallResult :=
  let expandedPath :=
    expandPath (homedir w) (fun a b => join w [a; b]) repoPath in
  match depConfig with
  | None => ret skip
  | Some depConfig =>
      if dep_type depConfig =? "none" then ret skip
      else
        let type := dep_type depConfig in
        let venv := dep_venv depConfig in
        try_catch
          (if type =? "npm" then installNpm expandedPath
           else if type =? "bun" then installBun expandedPath
           else if type =? "yarn" then installYarn expandedPath
           else if type =? "pip" then installPip expandedPath venv
           else ret (failure ("Unknown dependency type: " ++ type)))
          (fun error => ret (failure error))
  end.

End Install.

End Installer.

(* ================================================================== *)
(** * What an installation runs *)
(* ================================================================== *)

Module InstallerSpec.

Import Config Installer.

Definition returned (ev : Event) : bool :=
  match ev with
  | ExistsSync _ _ => true
  | Exec _ _ r => Js.returns r
  end.

(** The commands run, in order. *)
Fixpoint commands (evs : Trace) : list string :=
  match evs with
  | [] => []
  | Exec c _ _ :: rest => c :: commands rest
  | ExistsSync _ _ :: rest => commands rest
  end.

(** The working directories of the commands run. *)
Fixpoint cwds (evs : Trace) : list string :=
  match evs with
  | [] => []
  | Exec _ d _ :: rest => d :: cwds rest
  | ExistsSync _ _ :: rest => cwds rest
  end.

(** The repository directory the installer works in. *)
Definition workdir (w : World) (repoPath : string) : string :=
  expandPath (homedir w) (fun a b => join w [a; b]) repoPath.

(** The virtual environment a [venv] setting designates. *)
Definition venv_dir (w : World) (repoPath : string) (venv : option string)
  : option string :=
  if truthy_str venv then
    if str_or_empty venv =? "auto"
    then Some (join w [workdir w repoPath; ".venv"])
    else venv
  else None.

(** The [pip] executables an installation may use. *)
Definition pip_candidates (w : World) (repoPath : string)
    (venv : option string) : list string :=
  match venv_dir w repoPath venv with
  | Some v => [join w [v; "bin"; "pip"]; join w [v; "Scripts"; "pip"]]
  | None => ["pip"]
  end.

(** The file whose absence makes an installation a no-op. *)
Definition manifest (type : string) : string :=
  if type =? "pip" then "requirements.txt" else "package.json".

Definition exec_threw (ev : Event) : bool :=
  match ev with Exec _ _ (Throw _) => true | _ => false end.

Definition known_type (type : string) : bool :=
  (type =? "npm") || (type =? "bun") || (type =? "yarn") || (type =? "pip").

End InstallerSpec.

(* ================================================================== *)
(** * The process-manager client (taskServerClient.js) *)
(* ================================================================== *)

Module TaskServer.

Import Config Eff.

Local Open Scope io_scope.

(** The arguments of [fetch]. *)
Record HttpRequest := {
  endpoint : string;
  method : string;
  headers : list (string * string);
  body : option string
}.

(** [response.ok] and the outcome of [await response.json()]. *)
Record HttpResponse := {
  res_ok : bool;
  res_json : completion json
}.

Inductive Event :=
  | Fetched (req : HttpRequest) (res : completion HttpResponse).

Definition Trace := list Event.

(** [encodeURIComponent] throws a URIError on a lone surrogate. *)
Record World := {
  fetch : Trace -> HttpRequest -> completion HttpResponse;
  encodeURIComponent : string -> completion string;
  JSON_stringify : ScriptConfig -> string
}.

(** [{ success, message?, logFile?, scripts?, error? }] *)
Record Result := {
  r_success : bool;
  r_message : value;
  r_logFile : value;
  r_scripts : value;
  r_error : value
}.

(** [{ 'Content-Type': 'application/json' }] *)
Definition json_headers : list (string * string) :=
  [("Content-Type", "application/json")].

(** [if (apiKey) headers['X-API-Key'] = apiKey;] *)
Definition with_api_key (apiKey : option string)
    (headers : list (string * string)) : list (string * string) :=
  if truthy_str apiKey
  then (headers ++ [("X-API-Key", str_or_empty apiKey)])%list
  else headers.

(** [{ success: false, error }] *)
Definition failed (error : value) : Result :=
  {| r_success := false; r_message := None; r_logFile := None;
     r_scripts := None; r_error := error |}.

Section Client.

Variable w : World.

Definition send (req : HttpRequest) : IO HttpResponse :=
  perform (fun t => fetch w t req) (Fetched req).

(** [response.ok && data.success] *)
Definition accepted (response : HttpResponse) (data : json)
  : @IO Event bool :=
  if res_ok response
  then s <- lift (get (Some data) "success");; ret (truthy s)
  else ret false.

Definition restartScript (scriptName : string)
    (taskServerConfig : TaskServerConfig) : IO Result :=
  let url := ts_url taskServerConfig in
  let apiKey := ts_apiKey taskServerConfig in
  (* the endpoint is built before the [try] *)
  encoded <- lift (encodeURIComponent w scriptName);;
  let endpoint := url ++ "/api/restart-script/" ++ encoded in
  try_catch
    (let headers := with_api_key apiKey json_headers in
     response <- send {| endpoint := endpoint; method := "POST";
                         headers := headers; body := None |};;
     data <- lift (res_json response);;
     good <- accepted response data;;
     if good then
       message <- lift (get (Some data) "message");;
       logFile <- lift (get (Some data) "logFile");;
       ret {| r_success := true; r_message := message;
              r_logFile := logFile; r_scripts := None; r_error := None |}
     else
       error <- lift (get (Some data) "error");;
       ret (failed (or error (Some (JStr "Unknown error")))))
    (fun error => ret (failed (Some (JStr error)))).

Definition stopScript (scriptName : string)
    (taskServerConfig : TaskServerConfig) : IO Result :=
  let url := ts_url taskServerConfig in
  let apiKey := ts_apiKey taskServerConfig in
  (* the endpoint is built before the [try] *)
  encoded <- lift (encodeURIComponent w scriptName);;
  let endpoint := url ++ "/api/stop-script/" ++ encoded in
  try_catch
    (let headers := with_api_key apiKey json_headers in
     response <- send {| endpoint := endpoint; method := "POST";
                         headers := headers; body := None |};;
     data <- lift (res_json response);;
     good <- accepted response data;;
     if good then
       message <- lift (get (Some data) "message");;
       ret {| r_success := true; r_message := message;
              r_logFile := None; r_scripts := None; r_error := None |}
     else
       error <- lift (get (Some data) "error");;
       ret (failed error))
    (fun error => ret (failed (Some (JStr error)))).

Definition startScript (scriptName : string)
    (taskServerConfig : TaskServerConfig) : IO Result :=
  let url := ts_url taskServerConfig in
  let apiKey := ts_apiKey taskServerConfig in
  (* the endpoint is built before the [try] *)
  encoded <- lift (encodeURIComponent w scriptName);;
  let endpoint := url ++ "/api/start-script/" ++ encoded in
  try_catch
    (let headers := with_api_key apiKey json_headers in
     response <- send {| endpoint := endpoint; method := "POST";
                         headers := headers; body := None |};;
     data <- lift (res_json response);;
     good <- accepted response data;;
     if good then
       message <- lift (get (Some data) "message");;
       ret {| r_success := true; r_message := message;
              r_logFile := None; r_scripts := None; r_error := None |}
     else
       error <- lift (get (Some data) "error");;
       ret (failed error))
    (fun error => ret (failed (Some (JStr error)))).

Definition listScripts (taskServerConfig : TaskServerConfig) : IO Result :=
  let url := ts_url taskServerConfig in
  let apiKey := ts_apiKey taskServerConfig in
  let endpoint := url ++ "/api/scripts" in
  try_catch
    (let headers := with_api_key apiKey json_headers in
     response <- send {| endpoint := endpoint; method := "GET";
                         headers := headers; body := None |};;
     data <- lift (res_json response);;
     good <- accepted response data;;
     if good then
       scripts <- lift (get (Some data) "scripts");;
       ret {| r_success := true; r_message := None; r_logFile := None;
              r_scripts := scripts; r_error := None |}
     else
       error <- lift (get (Some data) "error");;
       ret (failed error))
    (fun error => ret (failed (Some (JStr error)))).

Definition pingTaskServer (taskServerConfig : TaskServerConfig) : IO bool :=
  try_catch
    (result <- listScripts taskServerConfig;;
     ret (r_success result))
    (fun _ => ret false).

Definition addScript (scriptConfig : ScriptConfig)
    (taskServerConfig : TaskServerConfig) : IO Result :=
  let url := ts_url taskServerConfig in
  let apiKey := ts_apiKey taskServerConfig in
  let endpoint := url ++ "/api/add-script" in
  try_catch
    (let headers := with_api_key apiKey json_headers in
     response <- send {| endpoint := endpoint; method := "POST";
                         headers := headers;
                         body := Some (JSON_stringify w scriptConfig) |};;
     data <- lift (res_json response);;
     good <- accepted response data;;
     if good then
       message <- lift (get (Some data) "message");;
       ret {| r_success := true; r_message := message;
              r_logFile := None; r_scripts := None; r_error := None |}
     else
       error <- lift (get (Some data) "error");;
       ret (failed (or error (Some (JStr "Unknown error")))))
    (fun error => ret (failed (Some (JStr error)))).

End Client.

End TaskServer.

(* ================================================================== *)
(** * What the client asks of the process manager *)
(* ================================================================== *)

Module TaskServerSpec.

Import Config TaskServer.

(** The operations of the client. *)
Inductive Call :=
  | Restart (scriptName : string)
  | Stop (scriptName : string)
  | Start (scriptName : string)
  | List
  | Add (scriptConfig : ScriptConfig).

Definition invoke (w : World) (c : Call) (ts : TaskServerConfig)
  : @Eff.IO Event Result :=
  match c with
  | Restart n => restartScript w n ts
  | Stop n => stopScript w n ts
  | Start n => startScript w n ts
  | List => listScripts w ts
  | Add sc => addScript w sc ts
  end.

(** The server answered, with an OK status and a body whose [success]
    is truthy. *)
Definition affirmed (res : completion HttpResponse) : bool :=
  match res with
  | Normal response =>
      res_ok response
      && match res_json response with
         | Normal data => truthy (get_opt (Some data) "success")
         | Throw _ => false
         end
  | Throw _ => false
  end.

(** The path under [/api] that an operation addresses, when the
    script name can be encoded. *)
Definition route (w : World) (c : Call) : completion string :=
  match c with
  | Restart n =>
      Js.bind (encodeURIComponent w n)
        (fun x => Normal ("/restart-script/" ++ x))
  | Stop n =>
      Js.bind (encodeURIComponent w n)
        (fun x => Normal ("/stop-script/" ++ x))
  | Start n =>
      Js.bind (encodeURIComponent w n)
        (fun x => Normal ("/start-script/" ++ x))
  | List => Normal "/scripts"
  | Add _ => Normal "/add-script"
  end.

(** The HTTP method of an operation. *)
Definition verb (c : Call) : string :=
  match c with
  | List => "GET"
  | _ => "POST"
  end.

(** The request body of an operation. *)
Definition payload (w : World) (c : Call) : option string :=
  match c with
  | Add sc => Some (JSON_stringify w sc)
  | _ => None
  end.

(** [headers[k]] *)
Fixpoint header (k : string) (hs : list (string * string)) : option string :=
  match hs with
  | [] => None
  | (k', v) :: rest =>
      match header k rest with
      | Some v' => Some v'
      | None => if k =? k' then Some v else None
      end
  end.

(** Operations that fill in a missing error text. *)
Definition explains (c : Call) : bool :=
  match c with
  | Restart _ | Add _ => true
  | _ => false
  end.

End TaskServerSpec.

(* ================================================================== *)
(** * Loading the configuration (configLoader.js) *)
(* ================================================================== *)

Module ConfigLoader.

Import Eff.

Local Open Scope io_scope.

Inductive Event :=
  | ExistsSync (p : string) (r : bool)
  | ReadFileSync (p : string) (r : completion string).

Definition Trace := list Event.

(** The file system, the YAML parser and the two module constants. *)
Record World := {
  existsSync : Trace -> string -> bool;
  readFileSync : Trace -> string -> completion string;
  parse : string -> completion json;
  CONFIG_PATH : string;
  EXAMPLE_CONFIG_PATH : string
}.

Definition dquote : ascii := ascii_of_nat 34.

Definition no_file : string :=
  "No configuration file found. Please create config.yaml".

(** ['Configuration must include a "repos" array'] *)
Definition no_repos : string :=
  "Configuration must include a " ++ String dquote "repos"
  ++ String dquote " array".

(** [Array.isArray(v)] *)
Definition isArray (v : value) : bool :=
  match v with
  | Some (JArr _) => true
  | _ => false
  end.

(** Property assignment on a list of fields. *)
Fixpoint set (k : string) (v : json) (fields : list (string * json))
  : list (string * json) :=
  match fields with
  | [] => [(k, v)]
  | (k', v') :: rest =>
      if k =? k' then (k, v) :: rest else (k', v') :: set k v rest
  end.

(** [config.k = v] in a module (strict mode): a TypeError on a
    primitive.  Arrays never get here: validation has read a truthy own
    [repos], which only an object has. *)
Definition assign (config : json) (k : string) (v : json)
  : completion json :=
  match config with
  | JObj fields => Normal (JObj (set k v fields))
  | _ => Throw "TypeError: cannot create property"
  end.

(** [cur || d] for a default [d] that is an object or a non-empty
    string. *)
Definition or_default (cur : value) (d : json) : json :=
  match cur with
  | Some v => if truthy cur then v else d
  | None => d
  end.

(** [config.k = config.k || d] *)
Definition default (config : json) (k : string) (d : json)
  : completion json :=
  (cur <- get (Some config) k;;
   assign config k (or_default cur d))%js.

Section Loader.

Variable w : World.

Definition exists_ (p : string) : IO bool :=
  ask (fun t => existsSync w t p) (ExistsSync p).

Definition loadConfig : IO json :=
  found <- exists_ (CONFIG_PATH w);;
  configPath <-
    (if negb found then
       example <- exists_ (EXAMPLE_CONFIG_PATH w);;
       if example then ret (EXAMPLE_CONFIG_PATH w)
       else lift (Throw no_file)
     else ret (CONFIG_PATH w));;
  configContent <- perform (fun t => readFileSync w t configPath)
                           (ReadFileSync configPath);;
  config <- lift (parse w configContent);;
  repos <- lift (get (Some config) "repos");;
  if negb (truthy repos) || negb (isArray repos)
  then lift (Throw no_repos)
  else
    config <- lift (default config "triggerMode" (JStr "webhook"));;
    config <- lift (default config "webhook"
                      (JObj [("port", JNum 4000); ("secret", JStr "")]));;
    config <- lift (default config "polling"
                      (JObj [("interval", JNum 60)]));;
    config <- lift (default config "taskServer"
                      (JObj [("url", JStr "http://localhost:3000");
                             ("apiKey", JStr "")]));;
    ret config.

End Loader.

End ConfigLoader.

(* ================================================================== *)
(** * What a loaded configuration contains *)
(* ================================================================== *)

Module ConfigLoaderSpec.

Import ConfigLoader.

(** The sections that [loadConfig] fills in. *)
Definition defaults : list (string * json) :=
  [("triggerMode", JStr "webhook");
   ("webhook", JObj [("port", JNum 4000); ("secret", JStr "")]);
   ("polling", JObj [("interval", JNum 60)]);
   ("taskServer", JObj [("url", JStr "http://localhost:3000");
                        ("apiKey", JStr "")])].

(** The file that [loadConfig] reads when one exists. *)
Definition chosen (w : World) (t : Trace) : string :=
  if existsSync w t (CONFIG_PATH w) then CONFIG_PATH w
  else EXAMPLE_CONFIG_PATH w.

(** The value of a field after loading, given the parsed fields. *)
Definition loaded (orig : list (string * json)) (k : string) : value :=
  if truthy (lookup k orig) then lookup k orig
  else match lookup k defaults with
       | Some d => Some d
       | None => lookup k orig
       end.

Definition is_read (ev : Event) : bool :=
  match ev with ReadFileSync _ _ => true | _ => false end.

End ConfigLoaderSpec.

(* ================================================================== *)
(** * Sample machines for the collaborators *)
(* ================================================================== *)

Module Fixtures.

Import Config.

(** [path.join] on segments that need no normalisation. *)
Definition join_slash (segs : list string) : string :=
  String.concat "/" segs.

(** A checkout with both manifests and no virtual environment, on a
    machine where every command succeeds. *)
Definition installer_ready : Installer.World :=
  {| Installer.existsSync := fun _ p =>
       (p =? "/srv/app/package.json") || (p =? "/srv/app/requirements.txt");
     Installer.execAsync := fun _ _ _ =>
       Normal {| Installer.stdout := "done"; Installer.stderr := "" |};
     Installer.homedir := "/home/deploy";
     Installer.join := join_slash |}.

Definition deps_yarn : Dependencies :=
  {| dep_type := "yarn"; dep_venv := None |}.

Definition deps_pip_auto : Dependencies :=
  {| dep_type := "pip"; dep_venv := Some "auto" |}.

(** A machine without the checkout, where every git operation
    succeeds; the status finds the branch [dev] two commits behind. *)
Definition git_fresh : Git.World :=
  {| Git.existsSync := fun _ _ => false;
     Git.mkdirSync := fun _ _ => Normal tt;
     Git.simpleGit := fun _ _ => Normal tt;
     Git.clone := fun _ _ _ _ => Normal tt;
     Git.fetch := fun _ _ _ _ => Normal tt;
     Git.status := fun _ _ =>
       Normal {| Git.current := "dev"; Git.behind := 2; Git.ahead := 0 |};
     Git.checkout := fun _ _ _ => Normal tt;
     Git.pull := fun _ _ _ _ =>
       Normal {| Git.files := ["README.md"];
                 Git.summary := {| Git.changes := 1; Git.insertions := 3;
                                   Git.deletions := 0 |} |};
     Git.log := fun _ _ => Normal (Some "4f2a9c1");
     Git.homedir := "/home/deploy";
     Git.join := fun a b => a ++ "/" ++ b |}.

(** An installation with only the example configuration in place. *)
Definition loader_world : ConfigLoader.World :=
  {| ConfigLoader.existsSync := fun _ p =>
       (p =? "/opt/gitsync/config.example.yaml");
     ConfigLoader.readFileSync := fun _ _ => Normal "repos: []";
     ConfigLoader.parse := fun _ =>
       Normal (JObj [("repos", JArr []); ("triggerMode", JStr "polling")]);
     ConfigLoader.CONFIG_PATH := "/opt/gitsync/config.yaml";
     ConfigLoader.EXAMPLE_CONFIG_PATH := "/opt/gitsync/config.example.yaml" |}.

(** What [loadConfig] returns there. *)
Definition loader_config : json :=
  JObj [("repos", JArr []);
        ("triggerMode", JStr "polling");
        ("webhook", JObj [("port", JNum 4000); ("secret", JStr "")]);
        ("polling", JObj [("interval", JNum 60)]);
        ("taskServer", JObj [("url", JStr "http://localhost:3000");
                             ("apiKey", JStr "")])].

Definition loader_trace : ConfigLoader.Trace :=
  [ConfigLoader.ExistsSync "/opt/gitsync/config.yaml" false;
   ConfigLoader.ExistsSync "/opt/gitsync/config.example.yaml" true;
   ConfigLoader.ReadFileSync "/opt/gitsync/config.example.yaml"
     (Normal "repos: []")].

End Fixtures.

(* ================================================================== *)
(** * Properties of strings and buffers *)
(* ================================================================== *)

Module JsFacts.

Import Aux.

Lemma bytes_eqb_eq (a b : list byte) : bytes_eqb a b = true <-> a = b.
Proof.
  revert b; induction a as [|x a IH]; intros [|y b]; simpl;
    try (split; [discriminate | discriminate]); try tauto.
  rewrite andb_true_iff, IH. split.
  - intros [Hxy ->]. now rewrite (Byte.byte_dec_bl _ _ Hxy).
  - intros H; injection H as -> ->. split; [now apply Byte.byte_dec_lb | reflexivity].
Qed.

Lemma bytes_eqb_neq (a b : list byte) : a <> b -> bytes_eqb a b = false.
Proof.
  intros H. destruct (bytes_eqb a b) eqn:E; [|reflexivity].
  now apply bytes_eqb_eq in E.
Qed.

(** [utf8_head] undoes [utf8_char]. *)
Lemma utf8_head_char (c : ascii) (rest : list byte) :
  utf8_head (utf8_char c ++ rest) = Some (c, rest).
Proof.
  destruct c as [[] [] [] [] [] [] [] []]; reflexivity.
Qed.

Lemma Buffer_from_inj (s1 s2 : string) :
  Buffer_from s1 = Buffer_from s2 -> s1 = s2.
Proof.
  revert s2; induction s1 as [|c1 s1 IH]; intros [|c2 s2]; simpl; intros H.
  - reflexivity.
  - apply (f_equal utf8_head) in H. rewrite utf8_head_char in H. discriminate.
  - apply (f_equal utf8_head) in H. rewrite utf8_head_char in H. discriminate.
  - apply (f_equal utf8_head) in H. rewrite !utf8_head_char in H.
    injection H as -> H. now rewrite (IH _ H).
Qed.

(** [unhex_byte] undoes [hex_byte]. *)
Lemma unhex_hex_byte (b : byte) :
  unhex_byte (hex_digit (Byte.to_N b / 16)) (hex_digit (Byte.to_N b mod 16)) = b.
Proof. destruct b; reflexivity. Qed.

Lemma hex_inj (a b : list byte) : hex a = hex b -> a = b.
Proof.
  revert b; induction a as [|x a IH]; intros [|y b]; simpl; intros H;
    try reflexivity; try discriminate.
  injection H as H1 H2 H3.
  rewrite <- (unhex_hex_byte x), <- (unhex_hex_byte y), H1, H2.
  now rewrite (IH _ H3).
Qed.

Lemma flip_byte_neq (k : nat) (b : byte) : k < 8 -> flip_byte k b <> b.
Proof.
  intros Hk.
  do 8 (destruct k as [|k]; [destruct b; vm_compute; discriminate|]).
  lia.
Qed.

Lemma flip_bit_neq (i : nat) (bs : list byte) :
  i < 8 * List.length bs -> flip_bit i bs <> bs.
Proof.
  revert i; induction bs as [|b bs IH]; simpl; intros i Hi.
  - lia.
  - destruct (i <? 8)%nat eqn:E.
    + apply Nat.ltb_lt in E. intros H; injection H as H.
      now apply (flip_byte_neq i b).
    + apply Nat.ltb_ge in E. intros H; injection H as H.
      apply (IH (i - 8)); [lia | assumption].
Qed.

Lemma append_inj_l (p s1 s2 : string) : p ++ s1 = p ++ s2 -> s1 = s2.
Proof.
  induction p as [|c p IH]; simpl; intros H; [assumption|].
  injection H as H. now apply IH.
Qed.

End JsFacts.

(* ================================================================== *)
(** * Signature verification *)
(* ================================================================== *)

Module VerifyFacts.

Import Aux JsFacts Webhook.

Section Verify.

Variable hmac_sha256 : string -> string -> list byte.

Abbreviation verify := (verifyGitHubSignature hmac_sha256).
Abbreviation signed := (Aux.signed hmac_sha256).

Lemma timingSafeEqual_refl (a : list byte) :
  timingSafeEqual a a = Normal true.
Proof.
  unfold timingSafeEqual. rewrite Nat.eqb_refl.
  f_equal. now apply bytes_eqb_eq.
Qed.

Lemma compare_neq (a b : list byte) :
  a <> b ->
  try_catch (timingSafeEqual a b) (fun _ => Normal false) = Normal false.
Proof.
  intros H. unfold timingSafeEqual.
  destruct (List.length a =? List.length b)%nat; simpl; [|reflexivity].
  now rewrite bytes_eqb_neq.
Qed.

Lemma verify_no_secret (p : string) (h secret : option string) :
  truthy_str secret = false -> verify p h secret = Normal true.
Proof.
  intros H. unfold verifyGitHubSignature.
  rewrite H, orb_true_r. reflexivity.
Qed.

Lemma verify_total (p : string) (h secret : option string) :
  exists b : bool, verify p h secret = Normal b.
Proof.
  unfold verifyGitHubSignature.
  destruct (negb (truthy_str h) || negb (truthy_str secret));
    [eexists; reflexivity|].
  destruct (timingSafeEqual _ _); simpl; eexists; reflexivity.
Qed.

Lemma verify_accepts (s p : string) :
  verify p (Some (signed s p)) (Some s) = Normal true.
Proof.
  destruct (truthy_str (Some s)) eqn:Hs.
  - unfold verifyGitHubSignature. rewrite Hs. simpl.
    now rewrite timingSafeEqual_refl.
  - now apply verify_no_secret.
Qed.

(** With a secret configured, every header value other than the
    expected one is rejected. *)
Lemma verify_rejects (s p : string) (h : option string) :
  s <> "" -> h <> Some (signed s p) -> verify p h (Some s) = Normal false.
Proof.
  intros Hs Hh. unfold verifyGitHubSignature.
  assert (Ht : truthy_str (Some s) = true).
  { simpl. destruct (String.eqb_spec s ""); [contradiction|reflexivity]. }
  rewrite Ht. destruct (truthy_str h) eqn:E; simpl; [|reflexivity].
  destruct h as [x|]; [|discriminate]. simpl.
  apply compare_neq. intros H.
  apply (Buffer_from_inj x (signed s p)) in H. now subst.
Qed.

Lemma signed_flip_neq (s p : string) (i : nat) :
  i < 8 * List.length (hmac_sha256 s p) ->
  "sha256=" ++ hex (flip_bit i (hmac_sha256 s p)) <> signed s p.
Proof.
  intros Hi H. apply append_inj_l, hex_inj in H.
  now apply (flip_bit_neq i (hmac_sha256 s p)).
Qed.

(** C2. For every secret [s] and payload [p], the header
    ["sha256=" ++ hex (HMAC-SHA256 s p)] verifies; with a configured
    (non-empty) secret, the header built from the digest with any
    single bit flipped is rejected; and with no secret configured
    (absent or empty) every payload and header value verifies, for
    the HMAC check and for the GitLab token check alike. *)
Theorem signature_verification (s p : string) :
  verify p (Some ("sha256=" ++ hex (hmac_sha256 s p))) (Some s)
    = Normal true
  /\ (forall i : nat,
        s <> "" ->
        i < 8 * List.length (hmac_sha256 s p) ->
        verify p (Some ("sha256=" ++ hex (flip_bit i (hmac_sha256 s p))))
               (Some s) = Normal false)
  /\ (forall (secret h : option string) (payload : string),
        truthy_str secret = false ->
        verify payload h secret = Normal true
        /\ verifyGitLabToken h secret = true).
Proof.
  split; [apply verify_accepts|]. split.
  - intros i Hs Hi. apply verify_rejects; [assumption|].
    intros H. apply (signed_flip_neq s p i Hi).
    exact (f_equal str_or_empty H).
  - intros secret h payload H. split; [now apply verify_no_secret|].
    unfold verifyGitLabToken. now rewrite H.
Qed.

(** C8. Verification always returns a boolean; in particular when
    the constant-time comparison throws (the two buffers differ in
    length) the result is [false]. *)
Theorem verification_never_throws
    (payload : string) (signature secret : option string) :
  (exists b : bool, verify payload signature secret = Normal b)
  /\ (truthy_str signature = true ->
      truthy_str secret = true ->
      returns (timingSafeEqual
                 (Buffer_from (str_or_empty signature))
                 (Buffer_from (signed (str_or_empty secret) payload)))
        = false ->
      verify payload signature secret = Normal false).
Proof.
  split; [apply verify_total|].
  unfold verifyGitHubSignature, Aux.signed.
  intros -> -> H. simpl.
  destruct (timingSafeEqual _ _); simpl in *; [discriminate|reflexivity].
Qed.

End Verify.

Lemma signature_verification_witness :
  verifyGitHubSignature toy_hmac "{}"
    (Some ("sha256=" ++ hex (flip_bit 3 (toy_hmac "k" "{}")))) (Some "k")
    = Normal false
  /\ verifyGitHubSignature toy_hmac "{}" (Some "sha256=00") None
    = Normal true.
Proof.
  split.
  - apply (proj1 (proj2 (signature_verification toy_hmac "k" "{}")) 3).
    + discriminate.
    + simpl; lia.
  - apply (proj2 (proj2 (signature_verification toy_hmac "k" "{}"))
             None (Some "sha256=00") "{}").
    reflexivity.
Defined.

Lemma verification_never_throws_witness :
  verifyGitHubSignature toy_hmac "{}" (Some "sha256=00") (Some "k")
    = Normal false.
Proof.
  apply (proj2 (verification_never_throws toy_hmac "{}"
                  (Some "sha256=00") (Some "k")));
    reflexivity.
Defined.

End VerifyFacts.

(* ================================================================== *)
(** * Trigger normalisation *)
(* ================================================================== *)

Module ParseFacts.

Import Aux Webhook.

Lemma replace_eq (s pat rep : string) :
  replace s pat rep =
  if String.prefix pat s then rep ++ drop (String.length pat) s
  else match s with
       | EmptyString => EmptyString
       | String c s' => String c (replace s' pat rep)
       end.
Proof. destruct s; reflexivity. Qed.

Lemma includes_eq (s pat : string) :
  includes s pat =
  if String.prefix pat s then true
  else match s with
       | EmptyString => false
       | String _ s' => includes s' pat
       end.
Proof. destruct s; reflexivity. Qed.

Lemma prefix_append (p s : string) : String.prefix p (p ++ s) = true.
Proof.
  induction p as [|c p IH]; simpl; [now destruct s|].
  destruct (ascii_dec c c); [assumption|contradiction].
Qed.

Lemma drop_append (p s : string) : drop (String.length p) (p ++ s) = s.
Proof. induction p; simpl; auto. Qed.

(** A pattern at the front of the string is the occurrence removed. *)
Lemma replace_prefix (p s : string) : replace (p ++ s) p "" = s.
Proof. rewrite replace_eq, prefix_append, drop_append. reflexivity. Qed.

(** A string without the pattern is left as it is. *)
Lemma replace_absent (s pat rep : string) :
  includes s pat = false -> replace s pat rep = s.
Proof.
  induction s as [|c s IH]; intros H;
    rewrite replace_eq; rewrite includes_eq in H.
  - destruct (String.prefix pat ""); [discriminate|reflexivity].
  - destruct (String.prefix pat (String c s)); [discriminate|].
    now rewrite IH.
Qed.

Lemma get_nonnull (body : json) (k : string) :
  body <> JNull -> get (Some body) k = Normal (own body k).
Proof. destruct body; simpl; congruence. Qed.

Lemma call_replace_usable (body : json) :
  ref_usable body = true ->
  exists r : string,
    or (own body "ref") (Some (JStr "")) = Some (JStr r)
    /\ (forall s, own body "ref" = Some (JStr s) -> r = s)
    /\ (own body "ref" = None -> r = "").
Proof.
  unfold ref_usable, or. intros H.
  destruct (own body "ref") as [[| b | n | s | l | f]|] eqn:E; simpl in *;
    try discriminate.
  - exists ""; repeat split; congruence.
  - apply negb_true_iff in H. rewrite H. exists ""; repeat split; congruence.
  - apply negb_true_iff in H. rewrite H. exists ""; repeat split; congruence.
  - destruct (String.eqb_spec s "") as [->|Hs]; simpl.
    + exists ""; repeat split; congruence.
    + exists s; repeat split; congruence.
  - exists ""; repeat split; congruence.
Qed.

Lemma call_replace_unusable (body : json) :
  ref_usable body = false ->
  returns (call_replace (or (own body "ref") (Some (JStr "")))
                        "refs/heads/" "") = false.
Proof.
  unfold ref_usable, or. intros H.
  destruct (own body "ref") as [[| b | n | s | l | f]|] eqn:E; simpl in *;
    try discriminate; try reflexivity.
  - apply negb_false_iff in H. now rewrite H.
  - apply negb_false_iff in H. now rewrite H.
Qed.

Section Parsers.

Ltac gets body H := rewrite !(get_nonnull body) by exact H; cbn [bind].

(** The three parsers return exactly on the normalizable bodies. *)
Lemma parsers_return (body : json) :
  returns (parseGitHubPush body) = normalizable body
  /\ returns (parseGitLabPush body) = normalizable body
  /\ returns (parseGiteaPush body) = normalizable body.
Proof.
  destruct (normalizable body) eqn:N.
  - assert (Hn : body <> JNull) by (intros ->; discriminate).
    assert (Hu : ref_usable body = true) by (now destruct body).
    destruct (call_replace_usable body Hu) as (r & Hr & _).
    unfold parseGitHubPush, parseGitLabPush, parseGiteaPush.
    gets body Hn. rewrite Hr. repeat split; reflexivity.
  - destruct body; try (repeat split; reflexivity);
      unfold normalizable in N;
      pose proof (call_replace_unusable _ N) as Hc;
      unfold parseGitHubPush, parseGitLabPush, parseGiteaPush;
      cbn [get bind];
      repeat split;
      match goal with
      | |- context [call_replace ?a ?b ?c] =>
          destruct (call_replace a b c); [discriminate|reflexivity]
      end.
Qed.

End Parsers.

Section Branch.

(** C6 (as amended). For every provider and every body whose [ref]
    is a string, the parser returns a trigger (never [null]) whose
    branch is the ref with the first occurrence of [refs/heads/]
    removed: the ref without the prefix when it starts with it, and
    the ref itself when [refs/heads/] does not occur in it. *)
Theorem branch_of_ref (body : json) (r : string) :
  own body "ref" = Some (JStr r) ->
  (exists pg pl pt : PushInfo,
      parseGitHubPush body = Normal pg
      /\ parseGitLabPush body = Normal pl
      /\ parseGiteaPush body = Normal pt
      /\ pi_branch pg = replace r "refs/heads/" ""
      /\ pi_branch pl = replace r "refs/heads/" ""
      /\ pi_branch pt = replace r "refs/heads/" "")
  /\ (forall b : string,
        r = "refs/heads/" ++ b -> replace r "refs/heads/" "" = b)
  /\ (includes r "refs/heads/" = false ->
      replace r "refs/heads/" "" = r).
Proof.
  intros Href.
  assert (Hn : body <> JNull) by (intros ->; discriminate).
  assert (Hu : ref_usable body = true)
    by (unfold ref_usable; now rewrite Href).
  destruct (call_replace_usable body Hu) as (r' & Hr & Hs & _).
  rewrite (Hs r Href) in Hr. clear Hs.
  split; [|split].
  - unfold parseGitHubPush, parseGitLabPush, parseGiteaPush.
    rewrite !(get_nonnull body) by exact Hn. cbn [bind].
    rewrite Hr. cbn [call_replace bind].
    do 3 eexists. repeat split; reflexivity.
  - intros b ->. apply (replace_prefix "refs/heads/" b).
  - apply replace_absent.
Qed.

Lemma branch_of_ref_witness :
  exists pg : PushInfo,
    parseGitHubPush (JObj [("ref", JStr "refs/heads/main")]) = Normal pg
    /\ pi_branch pg = "main".
Proof.
  destruct (branch_of_ref (JObj [("ref", JStr "refs/heads/main")])
              "refs/heads/main" eq_refl)
    as ((pg & pl & pt & Hg & _ & _ & Hb & _) & Hp & _).
  exists pg. split; [exact Hg|].
  rewrite Hb. apply (Hp "main"). reflexivity.
Defined.

(** A tag whose name contains [refs/heads/]: the ref does not start
    with the prefix, yet the branch is not the unmodified ref. *)
Lemma branch_of_ref_counterexample :
  exists p : PushInfo,
    parseGitHubPush (JObj [("ref", JStr "refs/tags/refs/heads/v1")])
      = Normal p
    /\ startsWith "refs/tags/refs/heads/v1" "refs/heads/" = false
    /\ pi_branch p = "refs/tags/v1"
    /\ pi_branch p <> spec_branch "refs/tags/refs/heads/v1".
Proof.
  eexists. split; [reflexivity|]. split; [reflexivity|].
  split; [reflexivity|]. discriminate.
Qed.

End Branch.

End ParseFacts.

(* ================================================================== *)
(** * The webhook handler *)
(* ================================================================== *)

Module HandlerFacts.

Import Aux Webhook ParseFacts.

Lemma respond_valid_status (cfg : Config.config) (o : option PushInfo) :
  status (fst (respond cfg true o)) = 200.
Proof.
  unfold respond. simpl. destruct o as [p|]; [|reflexivity].
  destruct (find (matches p) (Config.repos cfg)); reflexivity.
Qed.

Section Handler.

Variable hmac_sha256 : string -> string -> list byte.
Variable JSON_parse : string -> option json.

Abbreviation detect := (Webhook.detect hmac_sha256).
Abbreviation fetch := (Webhook.fetch hmac_sha256 JSON_parse).

Lemma fetch_webhook_post (cfg : Config.config) (req : Request)
    (body : json) :
  is_webhook_post req = true ->
  JSON_parse (text req) = Some body ->
  fetch cfg req =
  (d <- detect (Config.secret (Config.webhook cfg)) req body ;;
   Normal (respond cfg (fst d) (snd d))).
Proof.
  unfold is_webhook_post, Webhook.fetch. intros Hp Hj.
  rewrite Hp, Hj.
  apply andb_true_iff in Hp as [Hm _]. apply String.eqb_eq in Hm.
  rewrite Hm. simpl. now rewrite andb_false_r.
Qed.

Lemma parse_when_not_push (b : bool) (body : json)
    (parse : json -> completion PushInfo) :
  body <> JNull -> b || truthy (own body "ref") = false ->
  parse_when b body parse = Normal None.
Proof.
  intros Hn H. apply orb_false_iff in H as [-> Hr].
  unfold parse_when. rewrite (get_nonnull body) by exact Hn.
  cbn [bind]. now rewrite Hr.
Qed.

(** The signature check passes exactly on the expected header value,
    and always without a secret. *)
Lemma verify_passes (p : string) (h secret : option string) :
  verifyGitHubSignature hmac_sha256 p h secret
  = Normal (negb (truthy_str secret)
            || str_is h (signed hmac_sha256 (str_or_empty secret) p)).
Proof.
  destruct (truthy_str secret) eqn:Hs; cbn [negb orb].
  - destruct secret as [s|]; [|discriminate]. cbn [str_or_empty].
    assert (Hne : s <> ""%string).
    { intros ->. discriminate. }
    destruct h as [x|]; cbn [str_is].
    + destruct (String.eqb_spec x (signed hmac_sha256 s p)) as [->|Hx].
      * apply VerifyFacts.verify_accepts.
      * apply VerifyFacts.verify_rejects; [exact Hne|congruence].
    + apply VerifyFacts.verify_rejects; [exact Hne|discriminate].
  - now apply VerifyFacts.verify_no_secret.
Qed.

Lemma token_passes (token secret : option string) :
  verifyGitLabToken token secret
  = negb (truthy_str secret) || str_is token (str_or_empty secret).
Proof.
  unfold verifyGitLabToken.
  destruct (truthy_str secret) eqn:Hs; cbn [negb orb]; [|reflexivity].
  destruct secret as [s|]; [|discriminate].
  now destruct token.
Qed.

(** A payload that is not a push yields no trigger; the verdict is
    whether the delivery carries the provider's credential. *)
Lemma detect_not_push (secret : option string) (req : Request)
    (body : json) :
  body <> JNull -> push_type req body = false ->
  detect secret req body = Normal (passes hmac_sha256 secret req, None).
Proof.
  intros Hn. unfold push_type, passes, credential, provider_of,
    Webhook.detect.
  destruct (truthy_str (headers req "X-GitHub-Event")
            || (pathname req =? "/webhook/github")).
  { intros Hp. rewrite verify_passes. cbn [bind].
    now rewrite (parse_when_not_push _ body _ Hn Hp). }
  destruct (truthy_str (headers req "X-Gitlab-Token")
            || (pathname req =? "/webhook/gitlab")).
  { intros Hp. rewrite (get_nonnull body) by exact Hn. cbn [bind].
    rewrite (parse_when_not_push _ body _ Hn Hp). cbn [bind].
    now rewrite token_passes. }
  destruct (truthy_str (headers req "X-Gitea-Event")
            || (pathname req =? "/webhook/gitea")).
  { intros Hp. unfold verifyGiteaSignature. rewrite verify_passes.
    cbn [bind]. now rewrite (parse_when_not_push _ body _ Hn Hp). }
  intros Hp. rewrite (parse_when_not_push false body _ Hn Hp).
  cbn [bind]. now rewrite orb_true_r.
Qed.

(** [a || d] and [a || b || d] pick the first truthy value. *)
Lemma or_else_first (a : value) (d : json) :
  or_else a d = first_truthy [a] d.
Proof.
  unfold or_else, or. cbn [first_truthy].
  destruct a as [j|]; [|reflexivity].
  now destruct (truthy (Some j)).
Qed.

Lemma or_else_second (a b : value) (d : json) :
  or_else (or a b) d = first_truthy [a; b] d.
Proof.
  unfold or_else, or. cbn [first_truthy].
  assert (Hb : match (if truthy b then b else Some d) with
               | Some j => j
               | None => d
               end
               = match b with
                 | Some j => if truthy b then j else d
                 | None => d
                 end).
  { destruct b as [k|]; [|reflexivity]. now destruct (truthy (Some k)). }
  destruct a as [j|].
  - destruct (truthy (Some j)) eqn:Ha; [now rewrite Ha|exact Hb].
  - change (truthy None) with false. cbv iota. exact Hb.
Qed.

Lemma forallb_mapped {A B} (f : A -> B) (g : B -> bool) (l : list A) :
  forallb g (map f l) = forallb (fun x => g (f x)) l.
Proof. induction l as [|x l IH]; cbn; [reflexivity|now rewrite IH]. Qed.

(** With nothing truthy to pick, the fallback is what is left. *)
Lemma first_truthy_none (vs : list value) (d : json) :
  forallb (fun v => negb (truthy v)) vs = true -> first_truthy vs d = d.
Proof.
  induction vs as [|v vs IH]; [reflexivity|].
  cbn [forallb first_truthy]. intros H.
  apply andb_true_iff in H as [Hv Hvs]. apply negb_true_iff in Hv.
  destruct v as [j|]; [rewrite Hv|]; now apply IH.
Qed.

(** C7 (as amended). The three parsers return a trigger exactly on
    the bodies that are not [null] and whose [ref] is absent, falsy
    or a string (they throw a TypeError on the others).  On such a
    body every field of the trigger is the first truthy one of the
    payload entries the provider may hold it in, and the fallback
    ([null], or [0] for the commit count) when none is: when the
    key is absent, when it is [null], or when it is an object without
    the inner key; the branch of a missing ref is the empty string.
    A request whose payload is not a push yields no trigger and is
    answered 200 "Event ignored" when the delivery carries the
    provider's credential or no secret is configured, and 401
    otherwise. *)
Theorem normalization_on_usable_bodies (body : json) :
  (returns (parseGitHubPush body) = normalizable body
   /\ returns (parseGitLabPush body) = normalizable body
   /\ returns (parseGiteaPush body) = normalizable body)
  /\ (normalizable body = true ->
      forall prov : Provider,
      exists p : PushInfo,
        parser_of prov body = Normal p
        /\ (own body "ref" = None -> pi_branch p = "")
        /\ (forall f : Field,
              field f p
              = first_truthy (map (entry body) (places prov f)) (fallback f)
              /\ (forallb (fun q => negb (truthy (entry body q)))
                          (places prov f) = true ->
                  field f p = fallback f)))
  /\ (forall (cfg : Config.config) (req : Request),
        is_webhook_post req = true ->
        JSON_parse (text req) = Some body ->
        body <> JNull ->
        push_type req body = false ->
        fetch cfg req
        = Normal (if passes hmac_sha256 (Config.secret (Config.webhook cfg))
                       req
                  then ignored else invalid_signature, None)
        /\ (truthy_str (Config.secret (Config.webhook cfg)) = false ->
            fetch cfg req = Normal (ignored, None))).
Proof.
  split; [apply parsers_return|]. split.
  - intros N prov.
    assert (Hn : body <> JNull) by (intros ->; discriminate).
    assert (Hu : ref_usable body = true) by (now destruct body).
    destruct (call_replace_usable body Hu) as (r & Hr & _ & Hnone).
    assert (Hall : forall p : PushInfo,
      (forall f, field f p
                 = first_truthy (map (entry body) (places prov f))
                     (fallback f)) ->
      forall f,
        field f p
        = first_truthy (map (entry body) (places prov f)) (fallback f)
        /\ (forallb (fun q => negb (truthy (entry body q)))
                    (places prov f) = true ->
            field f p = fallback f)).
    { intros p Hp f. split; [apply Hp|].
      intros Hm. rewrite Hp. apply first_truthy_none.
      now rewrite forallb_mapped. }
    destruct prov; cbn [parser_of];
      unfold parseGitHubPush, parseGitLabPush, parseGiteaPush;
      rewrite !(get_nonnull body) by exact Hn; cbn [bind];
      rewrite Hr; cbn [call_replace bind];
      (eexists; split; [reflexivity|]);
      (split; [intros H; cbn [pi_branch]; now rewrite (Hnone H)|]);
      apply Hall; intros f; destruct f;
      cbn [field places map entry fallback repository fullName commits
           pusher headCommit];
      first [apply or_else_first | apply or_else_second].
  - intros cfg req Hp Hj Hn Hnp.
    rewrite (fetch_webhook_post cfg req body Hp Hj).
    rewrite (detect_not_push (Config.secret (Config.webhook cfg))
               req body Hn Hnp).
    cbn [bind fst snd]. unfold respond, passes.
    split.
    + now destruct (negb _ || _).
    + intros Hs. now rewrite Hs.
Qed.

Lemma detect_generic (secret : option string) (req : Request)
    (body : json) :
  provider_of req = Generic ->
  detect secret req body =
  (pushInfo <- parse_when false body parseGitHubPush ;;
   Normal (true, pushInfo)).
Proof.
  unfold provider_of, Webhook.detect.
  destruct (truthy_str (headers req "X-GitHub-Event")
            || (pathname req =? "/webhook/github")); [discriminate|].
  destruct (truthy_str (headers req "X-Gitlab-Token")
            || (pathname req =? "/webhook/gitlab")); [discriminate|].
  destruct (truthy_str (headers req "X-Gitea-Event")
            || (pathname req =? "/webhook/gitea")); [discriminate|].
  reflexivity.
Qed.

Lemma provider_generic (req : Request) :
  pathname req <> "/webhook/github" ->
  pathname req <> "/webhook/gitlab" ->
  pathname req <> "/webhook/gitea" ->
  truthy_str (headers req "X-GitHub-Event") = false ->
  truthy_str (headers req "X-Gitlab-Token") = false ->
  truthy_str (headers req "X-Gitea-Event") = false ->
  provider_of req = Generic.
Proof.
  intros P1 P2 P3 H1 H2 H3. unfold provider_of.
  rewrite H1, H2, H3.
  apply String.eqb_neq in P1, P2, P3. now rewrite P1, P2, P3.
Qed.


End Handler.

Import Examples.

Lemma normalization_on_usable_bodies_witness :
  Webhook.fetch toy_hmac (parses_to (JObj [("repository", JNull)]))
    cfg_secret gitlab_req
    = Normal (invalid_signature, None)
  /\ Webhook.fetch toy_hmac (parses_to (JObj [("repository", JNull)]))
       cfg_open gitlab_req
     = Normal (ignored, None)
  /\ exists p : PushInfo,
       parseGitLabPush (JObj [("repository", JNull)]) = Normal p
       /\ repository p = JNull /\ commits p = JNum 0.
Proof.
  pose proof (normalization_on_usable_bodies toy_hmac
                (parses_to (JObj [("repository", JNull)]))
                (JObj [("repository", JNull)])) as (_ & Hparse & Hfetch).
  split; [|split].
  - apply (Hfetch cfg_secret gitlab_req); try reflexivity. discriminate.
  - apply (Hfetch cfg_open gitlab_req); try reflexivity. discriminate.
  - destruct (Hparse eq_refl GitLab) as (p & Hp & _ & Hf).
    exists p. split; [exact Hp|]. split.
    + exact (proj2 (Hf Repository) eq_refl).
    + exact (proj2 (Hf Commits) eq_refl).
Defined.

(** Bodies the handler can receive on which normalisation throws: a
    [ref] that is a number, and the body [null]. *)
Lemma normalization_counterexample :
  parseGitHubPush (JObj [("ref", JNum 1)])
    = Throw "TypeError: ref.replace is not a function"
  /\ parseGitLabPush JNull
    = Throw "TypeError: cannot read properties of null"
  /\ Webhook.fetch toy_hmac (parses_to (JObj [("ref", JNum 1)]))
       cfg_open generic_req
    = Throw "TypeError: ref.replace is not a function"
  /\ Webhook.fetch toy_hmac (parses_to JNull) cfg_open gitlab_req
    = Throw "TypeError: cannot read properties of null".
Proof. repeat split; reflexivity. Qed.


End HandlerFacts.

(* ================================================================== *)
(** * The deployment pipeline *)
(* ================================================================== *)

Module DeployFacts.

Import Config Deployer DeploySpec.

Local Open Scope list_scope.

(** ** Reasoning rules for the statement monad *)

Lemma triple_x_bind {A B} (P : State -> Prop) (c : M A) (k : A -> M B)
    (Q : A -> State -> Prop) (Q' : B -> State -> Prop) (R : State -> Prop)
    (X : string -> State -> Prop) :
  triple_x P c Q R X ->
  (forall a, triple_x (Q a) (k a) Q' R X) ->
  triple_x P (mbind c k) Q' R X.
Proof.
  intros Hc Hk s Hs. unfold mbind. specialize (Hc s Hs).
  destruct (c s) as [[a| |e] s']; [now apply Hk | assumption..].
Qed.

Lemma triple_bind {A B} (P : State -> Prop) (c : M A) (k : A -> M B)
    (Q : A -> State -> Prop) (Q' : B -> State -> Prop) (R : State -> Prop) :
  triple P c Q R ->
  (forall a, triple (Q a) (k a) Q' R) ->
  triple P (mbind c k) Q' R.
Proof. apply triple_x_bind. Qed.

Lemma mbind_eq {A B} (c : M A) (k : A -> M B) (s : State) :
  mbind c k s =
  match c s with
  | (Continue a, s') => k a s'
  | (Return, s') => (Return, s')
  | (Raise e, s') => (Raise e, s')
  end.
Proof. reflexivity. Qed.

Lemma await_eq {A} (answer : Trace -> completion A)
    (ev : completion A -> Event) (s : State) :
  await answer ev s =
  match answer (trace s) with
  | Normal a =>
      (Continue a,
       {| results := results s; trace := trace s ++ [ev (Normal a)] |})
  | Throw e =>
      (Raise e,
       {| results := results s; trace := trace s ++ [ev (Throw e)] |})
  end.
Proof. unfold await. now destruct (answer (trace s)). Qed.

(** A fact that does not depend on the state. *)
Lemma triple_x_fact {A} (fact : Prop) (P : State -> Prop) (c : M A)
    (Q : A -> State -> Prop) (R : State -> Prop)
    (X : string -> State -> Prop) :
  (fact -> triple_x P c Q R X) ->
  triple_x (fun s => fact /\ P s) c Q R X.
Proof. intros H s [Hf Hs]. now apply H. Qed.

Lemma triple_fact {A} (fact : Prop) (P : State -> Prop) (c : M A)
    (Q : A -> State -> Prop) (R : State -> Prop) :
  (fact -> triple P c Q R) -> triple (fun s => fact /\ P s) c Q R.
Proof. apply triple_x_fact. Qed.

(** [getBuildCommands] within [deploy]: its list, or its exception. *)
Lemma eval_commands (rc : RepoConfig) (P : State -> Prop)
    (R : State -> Prop) :
  triple P (eval (getBuildCommands rc))
         (fun cmds s => getBuildCommands rc = Normal cmds /\ P s) R.
Proof.
  intros s Hs. unfold eval.
  destruct (getBuildCommands rc); [now split|exact I].
Qed.

(** ** The declared commands are the ones [getBuildCommands] returns *)

Lemma map_filter_declared (items : list BuildItem)
    (cmds : list BuildCommand) :
  map_filter items = Normal cmds -> cmds = flat_map declared_by items.
Proof.
  revert cmds. induction items as [|item items IH]; intros cmds.
  - cbn. congruence.
  - cbn [map_filter flat_map].
    destruct (normalize item) as [c|e] eqn:En; cbn [Js.bind];
      [|discriminate].
    destruct (map_filter items) as [cs|e] eqn:Em; cbn [Js.bind];
      [|discriminate].
    intros H. injection H as <-. rewrite (IH cs eq_refl).
    destruct item as [x|[[|a x]|] d| |]; cbn in En |- *;
      try (injection En as <-; reflexivity); try discriminate En.
    destruct d as [[|b y]|]; injection En as <-; reflexivity.
Qed.

Lemma getBuildCommands_declared (rc : RepoConfig)
    (cmds : list BuildCommand) :
  getBuildCommands rc = Normal cmds -> cmds = declared (build rc).
Proof.
  unfold getBuildCommands, declared.
  destruct (build rc) as [|[|a x]|[[|a x]|] d commands|items];
    cbn [truthy_str negb String.eqb str_or_empty].
  - congruence.
  - congruence.
  - congruence.
  - destruct commands as [items|]; [apply map_filter_declared|congruence].
  - intros H. injection H as <-.
    destruct d as [[|b y]|]; reflexivity.
  - destruct commands as [items|]; [apply map_filter_declared|congruence].
  - apply map_filter_declared.
Qed.

(** ** Lists of events and steps *)

Lemma recorded_app (a b : list StepResult) :
  recorded (a ++ b) = (recorded a ++ recorded b)%list.
Proof.
  induction a as [|[] a IH]; simpl; rewrite ?IH, ?app_assoc; reflexivity.
Qed.

Lemma lifecycle_app (a b : Trace) :
  lifecycle (a ++ b) = (lifecycle a ++ lifecycle b)%list.
Proof.
  induction a as [|[] a IH]; simpl; rewrite ?IH; try reflexivity.
  all: now destruct r.
Qed.

Lemma exec_events_app (a b : Trace) :
  exec_events (a ++ b) = (exec_events a ++ exec_events b)%list.
Proof.
  induction a as [|[] a IH]; simpl; rewrite ?IH; reflexivity.
Qed.

Lemma past_install_app (a b : list StepResult) :
  past_install (a ++ b) = past_install a || past_install b.
Proof. apply existsb_app. Qed.

Lemma lifecycle_stops (ts : TaskServerConfig) (rs : list (string * ApiResult)) :
  lifecycle (map (ev_stop ts) rs) = []
  /\ exec_events (map (ev_stop ts) rs) = []
  /\ existsb is_lifecycle (map (ev_stop ts) rs) = false
  /\ existsb fatal_event (map (ev_stop ts) rs) = false.
Proof. induction rs as [|r rs IH]; simpl; auto. Qed.

Lemma lifecycle_adds (ts : TaskServerConfig)
    (rs : list (ScriptConfig * ApiResult)) :
  lifecycle (map (ev_add ts) rs)
    = map (fun x => (sc_name (fst x), snd x)) rs
  /\ exec_events (map (ev_add ts) rs) = []
  /\ existsb fatal_event (map (ev_add ts) rs) = false.
Proof.
  induction rs as [|r rs (IH1 & IH2 & IH3)]; simpl; auto.
  rewrite IH1. auto.
Qed.

Lemma lifecycle_restarts (ts : TaskServerConfig)
    (rs : list (string * ApiResult)) :
  lifecycle (map (ev_restart ts) rs) = rs
  /\ exec_events (map (ev_restart ts) rs) = []
  /\ existsb fatal_event (map (ev_restart ts) rs) = false.
Proof.
  induction rs as [|[n r] rs (IH1 & IH2 & IH3)]; simpl; auto.
  rewrite IH1. auto.
Qed.

Lemma lifecycle_execs (xs : list ((string * string) * ExecResult)) :
  lifecycle (map ev_exec xs) = []
  /\ exec_events (map ev_exec xs) = xs
  /\ existsb is_lifecycle (map ev_exec xs) = false
  /\ existsb fatal_event (map ev_exec xs) = existsb failed_exec xs.
Proof.
  induction xs as [|[[c d] r] xs (IH1 & IH2 & IH3 & IH4)]; simpl; auto.
  rewrite IH2, IH4. repeat split; auto. now destruct r.
Qed.

(** ** The loops *)

Section Loops.

Variable w : World.

Lemma for_of_cons {A S} (x : A) (rest : list A) (acc : S)
    (body : A -> S -> M S) (s : State) :
  for_of (x :: rest) acc body s =
  match body x acc s with
  | (Continue a, s1) => for_of rest a body s1
  | (Return, s1) => (Return, s1)
  | (Raise e, s1) => (Raise e, s1)
  end.
Proof. reflexivity. Qed.

(** The stop loop stops every script, or ends on the first call that
    throws. *)
Lemma stop_loop (ts : TaskServerConfig) (scripts : list string) (s : State) :
  (exists rs s',
      for_of scripts tt
        (fun scriptName _ =>
           mbind (await (fun t => stopScript w t scriptName ts)
                        (EvStop scriptName ts))
                 (fun _ => pure tt)) s = (Continue tt, s')
      /\ results s' = results s
      /\ trace s' = trace s ++ map (ev_stop ts) rs
      /\ map fst rs = scripts)
  \/ (exists rs s' pre n post e,
      scripts = pre ++ n :: post
      /\ for_of scripts tt
           (fun scriptName _ =>
              mbind (await (fun t => stopScript w t scriptName ts)
                           (EvStop scriptName ts))
                    (fun _ => pure tt)) s = (Raise e, s')
      /\ results s' = results s
      /\ trace s' = trace s ++ map (ev_stop ts) rs ++ [EvStop n ts (Throw e)]
      /\ map fst rs = pre
      /\ stopScript w (trace s ++ map (ev_stop ts) rs) n ts = Throw e).
Proof.
  revert s; induction scripts as [|n ns IH]; intros s.
  - left. exists [], s. simpl. now rewrite app_nil_r.
  - rewrite !for_of_cons, !mbind_eq, !await_eq.
    destruct (stopScript w (trace s) n ts) as [r|e] eqn:E; cbn [pure].
    + match goal with |- context [for_of ns tt ?f ?s1] =>
        destruct (IH s1)
          as [(rs & s' & -> & Hr & Ht & Hm)
             |(rs & s' & pre & n' & post & e & Hs & -> & Hr & Ht & Hm & Hx)]
      end; cbn [results trace] in *.
      * left. exists ((n, r) :: rs), s'.
        rewrite Hr, Ht, <- app_assoc, <- Hm. repeat split; reflexivity.
      * right. exists ((n, r) :: rs), s', (n :: pre), n', post, e.
        rewrite Hr, Ht, Hs, <- !app_assoc, <- Hm.
        repeat split; try reflexivity.
        rewrite <- Hx. cbn. now rewrite <- app_assoc.
    + right. eexists [], _, [], n, ns, e. cbn.
      rewrite app_nil_r. repeat split; try reflexivity. exact E.
Qed.

(** The registration loop registers every script, or ends on the
    first call that throws. *)
Lemma register_loop (ts : TaskServerConfig) (scripts : list ScriptConfig)
    (acc : list (string * ApiResult)) (s : State) :
  (exists rs s',
      for_of scripts acc
        (fun scriptConfig acc =>
           mbind (await (fun t => addScript w t scriptConfig ts)
                        (EvAdd scriptConfig ts))
                 (fun addResult =>
                    pure (acc ++ [(sc_name scriptConfig, addResult)]))) s
      = (Continue (acc ++ map (fun x => (sc_name (fst x), snd x)) rs), s')
      /\ results s' = results s
      /\ trace s' = trace s ++ map (ev_add ts) rs
      /\ map fst rs = scripts)
  \/ (exists rs s' pre sc post e,
      scripts = pre ++ sc :: post
      /\ for_of scripts acc
           (fun scriptConfig acc =>
              mbind (await (fun t => addScript w t scriptConfig ts)
                           (EvAdd scriptConfig ts))
                    (fun addResult =>
                       pure (acc ++ [(sc_name scriptConfig, addResult)]))) s
         = (Raise e, s')
      /\ results s' = results s
      /\ trace s' = trace s ++ map (ev_add ts) rs ++ [EvAdd sc ts (Throw e)]
      /\ map fst rs = pre
      /\ addScript w (trace s ++ map (ev_add ts) rs) sc ts = Throw e).
Proof.
  revert acc s; induction scripts as [|n ns IH]; intros acc s.
  - left. exists [], s. simpl. now rewrite !app_nil_r.
  - rewrite !for_of_cons, !mbind_eq, !await_eq.
    destruct (addScript w (trace s) n ts) as [r|e] eqn:E; cbn [pure].
    + match goal with |- context [for_of ns ?a ?f ?s1] =>
        destruct (IH a s1)
          as [(rs & s' & -> & Hr & Ht & Hm)
             |(rs & s' & pre & n' & post & e & Hs & -> & Hr & Ht & Hm & Hx)]
      end; cbn [results trace] in *.
      * left. exists ((n, r) :: rs), s'.
        rewrite Hr, Ht, <- !app_assoc, <- Hm. repeat split; reflexivity.
      * right. exists ((n, r) :: rs), s', (n :: pre), n', post, e.
        rewrite Hr, Ht, Hs, <- !app_assoc, <- Hm.
        repeat split; try reflexivity.
        rewrite <- Hx. cbn. now rewrite <- app_assoc.
    + right. eexists [], _, [], n, ns, e. cbn.
      rewrite app_nil_r. repeat split; try reflexivity. exact E.
Qed.

(** The restart loop restarts every script, or ends on the first
    call that throws. *)
Lemma restart_loop (ts : TaskServerConfig) (scripts : list string)
    (acc : list (string * ApiResult)) (s : State) :
  (exists rs s',
      for_of scripts acc
        (fun scriptName acc =>
           mbind (await (fun t => restartScript w t scriptName ts)
                        (EvRestart scriptName ts))
                 (fun restartResult =>
                    pure (acc ++ [(scriptName, restartResult)]))) s
      = (Continue (acc ++ rs), s')
      /\ results s' = results s
      /\ trace s' = trace s ++ map (ev_restart ts) rs
      /\ map fst rs = scripts)
  \/ (exists rs s' pre n post e,
      scripts = pre ++ n :: post
      /\ for_of scripts acc
           (fun scriptName acc =>
              mbind (await (fun t => restartScript w t scriptName ts)
                           (EvRestart scriptName ts))
                    (fun restartResult =>
                       pure (acc ++ [(scriptName, restartResult)]))) s
         = (Raise e, s')
      /\ results s' = results s
      /\ trace s'
         = trace s ++ map (ev_restart ts) rs ++ [EvRestart n ts (Throw e)]
      /\ map fst rs = pre
      /\ restartScript w (trace s ++ map (ev_restart ts) rs) n ts
         = Throw e).
Proof.
  revert acc s; induction scripts as [|n ns IH]; intros acc s.
  - left. exists [], s. simpl. now rewrite !app_nil_r.
  - rewrite !for_of_cons, !mbind_eq, !await_eq.
    destruct (restartScript w (trace s) n ts) as [r|e] eqn:E; cbn [pure].
    + match goal with |- context [for_of ns ?a ?f ?s1] =>
        destruct (IH a s1)
          as [(rs & s' & -> & Hr & Ht & Hm)
             |(rs & s' & pre & n' & post & e & Hs & -> & Hr & Ht & Hm & Hx)]
      end; cbn [results trace] in *.
      * left. exists ((n, r) :: rs), s'.
        rewrite Hr, Ht, <- !app_assoc, <- Hm. repeat split; reflexivity.
      * right. exists ((n, r) :: rs), s', (n :: pre), n', post, e.
        rewrite Hr, Ht, Hs, <- !app_assoc, <- Hm.
        repeat split; try reflexivity.
        rewrite <- Hx. cbn. now rewrite <- app_assoc.
    + right. eexists [], _, [], n, ns, e. cbn.
      rewrite app_nil_r. repeat split; try reflexivity. exact E.
Qed.

Lemma runBuildCommand_eq (rc : RepoConfig) (c : BuildCommand)
    (acc : list BuildResult) (s : State) :
  runBuildCommand w rc c acc s =
  match execAsync w (trace s) (command c) (workDirOf w rc c) with
  | ExecOk out err =>
      (Continue (acc ++ [build_ok c]),
       {| results := results s;
          trace := trace s ++ [EvExec (command c) (workDirOf w rc c)
                                      (ExecOk out err)] |})
  | ExecError msg =>
      (Return,
       {| results :=
            push (BuildStep (acc ++ [build_failed c msg]))
              (set_error ("Build failed: " ++ command c ++ " - " ++ msg)%string
                 (set_success false (results s)));
          trace := trace s ++ [EvExec (command c) (workDirOf w rc c)
                                      (ExecError msg)] |})
  end.
Proof.
  unfold runBuildCommand, mbind, call.
  destruct (execAsync w (trace s) (command c) (workDirOf w rc c));
    reflexivity.
Qed.

(** The build loop either runs every command successfully, or stops
    at the first command that fails and returns from [deploy]. *)
Lemma build_loop (rc : RepoConfig) (cmds : list BuildCommand)
    (acc : list BuildResult) (s : State) :
  (exists xs rs s',
      for_of cmds acc (runBuildCommand w rc) s = (Continue (acc ++ rs), s')
      /\ results s' = results s
      /\ trace s' = trace s ++ map ev_exec xs
      /\ map fst xs = map (plan w rc) cmds
      /\ existsb failed_exec xs = false
      /\ existsb failed_build rs = false)
  \/ (exists xs rs s' pre c post msg,
      cmds = pre ++ c :: post
      /\ for_of cmds acc (runBuildCommand w rc) s = (Return, s')
      /\ results s'
         = push (BuildStep (acc ++ rs))
             (set_error ("Build failed: " ++ command c ++ " - " ++ msg)%string
                (set_success false (results s)))
      /\ trace s' = trace s ++ map ev_exec (xs ++ [(plan w rc c, ExecError msg)])
      /\ map fst xs = map (plan w rc) pre
      /\ existsb failed_exec xs = false
      /\ existsb failed_build rs = true).
Proof.
  revert acc s; induction cmds as [|c cs IH]; intros acc s.
  - left. exists [], [], s. simpl. rewrite !app_nil_r. auto 7.
  - rewrite !for_of_cons, !runBuildCommand_eq.
    destruct (execAsync w (trace s) (command c) (workDirOf w rc c))
      as [out err|msg] eqn:E.
    + match goal with |- context [for_of cs ?a ?f ?s1] =>
        destruct (IH a s1)
          as [(xs & rs & s' & Hf & Hr & Ht & Hm & Hx & Hb)
             |(xs & rs & s' & pre & c' & post & msg & Hc & Hf & Hr & Ht
               & Hm & Hx & Hb)] end;
        rewrite Hf; cbn [results trace] in *.
      * left.
        exists ((plan w rc c, ExecOk out err) :: xs), (build_ok c :: rs), s'.
        rewrite Hr, Ht, <- !app_assoc. simpl. rewrite Hm, Hx, Hb.
        repeat split; reflexivity.
      * right.
        exists ((plan w rc c, ExecOk out err) :: xs), (build_ok c :: rs), s',
               (c :: pre), c', post, msg.
        rewrite Hr, Ht, Hc, <- !app_assoc. simpl. rewrite Hm, Hx, Hb.
        repeat split; reflexivity.
    + right. eexists [], [build_failed c msg], _, [], c, cs, msg.
      cbn. repeat split; reflexivity.
Qed.

End Loops.

End DeployFacts.

(** ** Deployments that throw *)

Module Rejection.

Import Config Deployer DeploySpec DeployFacts DeployShape.

Local Open Scope list_scope.

Lemma stop_calls_app (a b : Trace) :
  stop_calls (a ++ b) = stop_calls a ++ stop_calls b.
Proof. induction a as [|[] a IH]; simpl; rewrite ?IH; reflexivity. Qed.

Lemma threw_stops (ts : TaskServerConfig) (rs : list (string * ApiResult)) :
  existsb threw (map (ev_stop ts) rs) = false.
Proof. induction rs as [|r rs IH]; simpl; auto. Qed.

Lemma threw_adds (ts : TaskServerConfig)
    (rs : list (ScriptConfig * ApiResult)) :
  existsb threw (map (ev_add ts) rs) = false.
Proof. induction rs as [|r rs IH]; simpl; auto. Qed.

Lemma threw_restarts (ts : TaskServerConfig)
    (rs : list (string * ApiResult)) :
  existsb threw (map (ev_restart ts) rs) = false.
Proof. induction rs as [|r rs IH]; simpl; auto. Qed.

Lemma threw_execs (xs : list ((string * string) * ExecResult)) :
  existsb threw (map ev_exec xs) = false.
Proof. induction xs as [|x xs IH]; simpl; auto. Qed.

Lemma add_calls_app (a b : Trace) :
  add_calls (a ++ b) = add_calls a ++ add_calls b.
Proof. induction a as [|[] a IH]; simpl; rewrite ?IH; reflexivity. Qed.

Lemma restart_calls_app (a b : Trace) :
  restart_calls (a ++ b) = restart_calls a ++ restart_calls b.
Proof. induction a as [|[] a IH]; simpl; rewrite ?IH; reflexivity. Qed.

Lemma calls_of_stops (ts : TaskServerConfig) (rs : list (string * ApiResult)) :
  stop_calls (map (ev_stop ts) rs) = map fst rs
  /\ add_calls (map (ev_stop ts) rs) = []
  /\ restart_calls (map (ev_stop ts) rs) = [].
Proof.
  induction rs as [|r rs (IH1 & IH2 & IH3)]; simpl; auto.
  now rewrite IH1.
Qed.

Lemma calls_of_adds (ts : TaskServerConfig)
    (rs : list (ScriptConfig * ApiResult)) :
  stop_calls (map (ev_add ts) rs) = []
  /\ add_calls (map (ev_add ts) rs) = map fst rs
  /\ restart_calls (map (ev_add ts) rs) = [].
Proof.
  induction rs as [|r rs (IH1 & IH2 & IH3)]; simpl; auto.
  now rewrite IH2.
Qed.

Lemma calls_of_restarts (ts : TaskServerConfig)
    (rs : list (string * ApiResult)) :
  stop_calls (map (ev_restart ts) rs) = []
  /\ add_calls (map (ev_restart ts) rs) = []
  /\ restart_calls (map (ev_restart ts) rs) = map fst rs.
Proof.
  induction rs as [|r rs (IH1 & IH2 & IH3)]; simpl; auto.
  now rewrite IH3.
Qed.

Lemma calls_of_execs (xs : list ((string * string) * ExecResult)) :
  stop_calls (map ev_exec xs) = []
  /\ add_calls (map ev_exec xs) = []
  /\ restart_calls (map ev_exec xs) = [].
Proof. induction xs as [|x xs (IH1 & IH2 & IH3)]; simpl; auto. Qed.

Section Steps.

Variable w : World.
Variable cfg : config.
Variable rc : RepoConfig.
Variable t0 : Trace.

Abbreviation U := (since t0 (fun evs _ => untouched evs)).
Abbreviation K := (since t0 (fun evs _ => calm evs)).
Abbreviation X := (fun e => since t0 (fun evs _ => rejected w cfg rc t0 evs e)).

Ltac run := cbv [ensureStep pullStep skipCheck installStep when mbind call
                 modify pure return_results get_results clock];
            cbn [results trace].

Lemma untouched_calm (s : State) : U s -> K s.
Proof. intros (evs & Ht & Hu & _). now exists evs. Qed.

Lemma untouched_extend (evs' : Trace) (s s' : State) :
  U s ->
  trace s' = trace s ++ evs' ->
  existsb threw evs' = false ->
  exec_events evs' = [] ->
  stop_calls evs' = [] ->
  add_calls evs' = [] ->
  restart_calls evs' = [] ->
  U s'.
Proof.
  intros (evs & Ht & Hx & He & Hs & Ha & Hr) Ht' Hx' He' Hs' Ha' Hr'.
  exists (evs ++ evs'). split; [now rewrite Ht', Ht, app_assoc|].
  unfold untouched.
  now rewrite existsb_app, exec_events_app, stop_calls_app, add_calls_app,
    restart_calls_app, Hx, Hx', He, He', Hs, Hs', Ha, Ha', Hr, Hr'.
Qed.

Lemma calm_extend (evs' : Trace) (s s' : State) :
  K s ->
  trace s' = trace s ++ evs' ->
  existsb threw evs' = false ->
  K s'.
Proof.
  intros (evs & Ht & Hx) Ht' Hx'.
  exists (evs ++ evs'). split; [now rewrite Ht', Ht, app_assoc|].
  unfold calm. now rewrite existsb_app, Hx, Hx'.
Qed.

(** Ending on a call that threw. *)
Lemma calm_reject (before : Trace) (ev : Event) (e : string)
    (s s' : State) :
  K s ->
  trace s' = trace s ++ before ++ [ev] ->
  existsb threw before = false ->
  raised ev = Some e ->
  call_of w cfg rc (trace s ++ before) ev ->
  X e s'.
Proof.
  intros (evs & Ht & Hx) Ht' Hb He Hc.
  exists (evs ++ before ++ [ev]).
  split; [now rewrite Ht', Ht, <- !app_assoc|].
  left. exists (evs ++ before), ev.
  rewrite app_assoc, existsb_app, Hx, Hb.
  repeat split; auto. now rewrite app_assoc, <- Ht.
Qed.

Lemma ensure_calm :
  triple_x U (ensureStep w rc) (fun _ => U) K X.
Proof.
  intros s H. run.
  destruct (truthy_str (repoUrl rc)); [|assumption].
  destruct (e_success _); cbn [negb]; [|apply untouched_calm];
    (eapply (untouched_extend [_] s); [exact H|reflexivity..]).
Qed.

Lemma pull_calm :
  triple_x U (pullStep w rc) (fun _ => U) K X.
Proof.
  intros s H. unfold pullStep. rewrite mbind_eq, await_eq.
  destruct (gitPull w (trace s) (path rc) (branch rc)) as [p|e] eqn:Hp.
  - run. destruct (p_success p); cbn [negb]; [|apply untouched_calm];
      (eapply (untouched_extend [_] s); [exact H|reflexivity..]).
  - eapply (calm_reject [] _ e s); [now apply untouched_calm|reflexivity..|].
    left. now rewrite app_nil_r, Hp.
Qed.

Lemma skip_calm (startTime : Z) (p : PullResult) :
  triple_x U (skipCheck w startTime p) (fun _ => U) K X.
Proof.
  intros s H. run.
  destruct (negb (p_changed p) && _).
  - apply untouched_calm.
    apply (untouched_extend [] s); cbn [trace]; rewrite ?app_nil_r; auto.
  - destruct s; assumption.
Qed.

Lemma install_calm :
  triple_x U (installStep w rc) (fun _ => U) K X.
Proof.
  intros s H. run.
  destruct (wantsInstall rc).
  - destruct (negb (i_success _) && _); [apply untouched_calm|];
      (eapply (untouched_extend [_] s); [exact H|reflexivity..]).
  - apply (untouched_extend [] s); cbn [trace]; rewrite ?app_nil_r; auto.
Qed.

Lemma commands_calm :
  triple_x U (eval (getBuildCommands rc)) (fun _ => K) K X.
Proof.
  intros s H. unfold eval.
  destruct (getBuildCommands rc) as [cmds|e] eqn:E.
  - now apply untouched_calm.
  - destruct H as (evs & Ht & Hu). exists evs. split; [exact Ht|].
    right. now split.
Qed.

Lemma stop_calm (cmds : list BuildCommand) :
  triple_x K (stopStep w rc (getTaskServerConfig cfg rc) cmds)
           (fun _ => K) K X.
Proof.
  intros s H. unfold stopStep, when.
  destruct (nonempty (restartScripts rc) && _); [|exact H].
  destruct (stop_loop w (getTaskServerConfig cfg rc)
              (elements (restartScripts rc)) s)
    as [(rs & s' & -> & Hr & Ht & _)
       |(rs & s' & pre & n & post & e & Hs & -> & Hr & Ht & _ & Hx)].
  - apply (calm_extend (map (ev_stop (getTaskServerConfig cfg rc)) rs) s);
      auto using threw_stops.
  - eapply (calm_reject (map (ev_stop (getTaskServerConfig cfg rc)) rs)
              _ e s); eauto using threw_stops.
    right. left. exists n. split; [rewrite Hs; apply in_elt|].
    now rewrite Hx.
Qed.

Lemma build_calm (cmds : list BuildCommand) :
  triple_x K (buildStep w rc cmds) (fun _ => K) K X.
Proof.
  intros s H. unfold buildStep.
  destruct (0 <? List.length cmds)%nat.
  - rewrite mbind_eq.
    destruct (build_loop w rc cmds [] s)
      as [(xs & rs & s' & -> & Hr & Ht & _)
         |(xs & rs & s' & pre & c & post & msg & _ & -> & Hr & Ht & _)].
    + apply (calm_extend (map ev_exec xs) s); auto using threw_execs.
    + apply (calm_extend (map ev_exec (xs ++ [(plan w rc c, ExecError msg)]))
               s); auto using threw_execs.
  - apply (calm_extend [] s); cbn [modify trace]; rewrite ?app_nil_r; auto.
Qed.

Lemma register_calm (wasCloned : option bool) :
  triple_x K (registerStep w rc (getTaskServerConfig cfg rc) wasCloned)
           (fun _ => K) K X.
Proof.
  intros s H. unfold registerStep, when.
  destruct (truthy_bool wasCloned && _); [|exact H].
  rewrite mbind_eq.
  destruct (register_loop w (getTaskServerConfig cfg rc)
              (elements (registerScripts rc)) [] s)
    as [(rs & s' & -> & Hr & Ht & _)
       |(rs & s' & pre & sc & post & e & Hs & -> & Hr & Ht & _ & Hx)].
  - apply (calm_extend (map (ev_add (getTaskServerConfig cfg rc)) rs) s);
      auto using threw_adds.
  - eapply (calm_reject (map (ev_add (getTaskServerConfig cfg rc)) rs)
              _ e s); eauto using threw_adds.
    right. right. left. exists sc. split; [rewrite Hs; apply in_elt|].
    now rewrite Hx.
Qed.

Lemma restart_calm :
  triple_x K (restartStep w rc (getTaskServerConfig cfg rc))
           (fun _ => K) K X.
Proof.
  intros s H. unfold restartStep.
  destruct (nonempty (restartScripts rc)).
  - rewrite mbind_eq.
    destruct (restart_loop w (getTaskServerConfig cfg rc)
                (elements (restartScripts rc)) [] s)
      as [(rs & s' & -> & Hr & Ht & _)
         |(rs & s' & pre & n & post & e & Hs & -> & Hr & Ht & _ & Hx)].
    + apply (calm_extend (map (ev_restart (getTaskServerConfig cfg rc)) rs)
               s); auto using threw_restarts.
    + eapply (calm_reject (map (ev_restart (getTaskServerConfig cfg rc)) rs)
                _ e s); eauto using threw_restarts.
      right. right. right. exists n. split; [rewrite Hs; apply in_elt|].
      now rewrite Hx.
  - apply (calm_extend [] s); cbn [modify trace]; rewrite ?app_nil_r; auto.
Qed.

Lemma clock_x (P : State -> Prop) (R : State -> Prop)
    (Y : string -> State -> Prop) :
  triple_x P (clock w) (fun _ => P) R Y.
Proof. intros s H. exact H. Qed.

Lemma deploy_calm :
  triple_x U (deploy w cfg rc) (fun _ => K) K X.
Proof.
  unfold deploy.
  eapply triple_x_bind; [apply clock_x|intros startTime].
  eapply triple_x_bind; [apply ensure_calm|intros ?].
  eapply triple_x_bind; [apply pull_calm|intros p].
  eapply triple_x_bind; [apply skip_calm|intros wasCloned].
  eapply triple_x_bind; [apply install_calm|intros ?].
  eapply triple_x_bind; [apply commands_calm|intros cmds].
  eapply triple_x_bind; [apply stop_calm|intros ?].
  eapply triple_x_bind; [apply build_calm|intros ?].
  eapply triple_x_bind; [apply register_calm|intros ?].
  eapply triple_x_bind; [apply restart_calm|intros ?].
  eapply triple_x_bind; [apply clock_x|intros t].
  intros s H.
  apply (calm_extend [] s); cbn [modify trace]; rewrite ?app_nil_r; auto.
Qed.

End Steps.

(** A deployment returns a result when nothing threw, and throws in
    one of the ways of [rejected] otherwise. *)
Lemma run_rejection (w : World) (cfg : config) (rc : RepoConfig)
    (trig : option TriggerInfo) (t0 : Trace) :
  exists evs : Trace,
    snd (run w cfg rc trig t0) = t0 ++ evs
    /\ match fst (run w cfg rc trig t0) with
       | Normal _ => existsb threw evs = false
       | Throw e => rejected w cfg rc t0 evs e
       end.
Proof.
  pose proof (deploy_calm w cfg rc t0
                {| results := initial rc trig; trace := t0 |}) as Hd.
  unfold run.
  destruct (deploy w cfg rc {| results := initial rc trig; trace := t0 |})
    as [f s].
  cbn [fst snd].
  assert (H0 : since t0 (fun evs _ => untouched evs)
                 {| results := initial rc trig; trace := t0 |}).
  { exists []. split; [now rewrite app_nil_r|]. repeat split. }
  specialize (Hd H0).
  destruct f; destruct Hd as (evs & Ht & H); exists evs; auto.
Qed.

(** The trace of a run determines the events since its start. *)
Lemma same_events (t0 evs evs' t : Trace) :
  t = t0 ++ evs -> t = t0 ++ evs' -> evs = evs'.
Proof. intros -> H. now apply app_inv_head in H. Qed.

End Rejection.

(** ** What happened and what is recorded (C4) *)

Module Accounting.

Import Config Deployer DeploySpec DeployFacts DeployShape.

Local Open Scope list_scope.

(** Extending the run by events [evs'] and steps [sts] that agree on
    whether something fatal happened. *)
Lemma accounted_extend (evs evs' : Trace) (sts : list StepResult)
    (b : bool) (r r' : Results) :
  accounted evs r ->
  existsb fatal_event evs' = b ->
  existsb fatal_step sts = b ->
  recorded sts = lifecycle evs' ->
  steps r' = steps r ++ sts ->
  success r' = success r && negb b ->
  accounted (evs ++ evs') r'.
Proof.
  intros (H1 & H2 & H3) He Hs Hr Hst Hsu. unfold accounted.
  rewrite Hst, !existsb_app, recorded_app, lifecycle_app, He, Hs, Hr, H3.
  rewrite !negb_orb, <- H2, <- H1. auto.
Qed.

Lemma since_extend (t0 evs' : Trace) (sts : list StepResult) (b : bool)
    (s s' : State) :
  since t0 accounted s ->
  trace s' = trace s ++ evs' ->
  existsb fatal_event evs' = b ->
  existsb fatal_step sts = b ->
  recorded sts = lifecycle evs' ->
  steps (results s') = steps (results s) ++ sts ->
  success (results s') = success (results s) && negb b ->
  since t0 accounted s'.
Proof.
  intros (evs & Ht & H) Ht' He Hs Hr Hst Hsu.
  exists (evs ++ evs'). split; [now rewrite Ht', Ht, app_assoc|].
  now apply (accounted_extend evs evs' sts b (results s)).
Qed.

Section Steps.

Variable w : World.
Variable t0 : Trace.

Abbreviation inv := (since t0 accounted).

Ltac run := cbv [ensureStep pullStep skipCheck installStep stopStep buildStep
                 registerStep restartStep when mbind call modify pure
                 return_results get_results clock];
            cbn [results trace].

Ltac extend s evs' sts b :=
  apply (since_extend t0 evs' sts b s); [assumption | ..];
  cbn [results trace steps success push set_error set_success set_skipped
       set_duration existsb fatal_event fatal_step recorded lifecycle
       negb orb andb app];
  rewrite ?app_nil_r, ?andb_true_r, ?andb_false_r, ?orb_false_r;
  try reflexivity.

Lemma ensure_accounted (rc : RepoConfig) :
  triple inv (ensureStep w rc) (fun _ => inv) inv.
Proof.
  intros s H. run.
  destruct (truthy_str (repoUrl rc)); [|assumption].
  destruct (e_success _) eqn:E; cbn [negb].
  - extend s [EvEnsureRepo (path rc) (str_or_empty (repoUrl rc)) (branch rc)
                (ensureRepo w (trace s) (path rc)
                   (str_or_empty (repoUrl rc)) (branch rc))]
             [EnsureRepoStep (ensureRepo w (trace s) (path rc)
                   (str_or_empty (repoUrl rc)) (branch rc))] false;
      now rewrite E.
  - extend s [EvEnsureRepo (path rc) (str_or_empty (repoUrl rc)) (branch rc)
                (ensureRepo w (trace s) (path rc)
                   (str_or_empty (repoUrl rc)) (branch rc))]
             [EnsureRepoStep (ensureRepo w (trace s) (path rc)
                   (str_or_empty (repoUrl rc)) (branch rc))] true;
      now rewrite E.
Qed.

Lemma pull_accounted (rc : RepoConfig) :
  triple inv (pullStep w rc) (fun _ => inv) inv.
Proof.
  intros s H. unfold pullStep. rewrite mbind_eq, await_eq.
  destruct (gitPull w (trace s) (path rc) (branch rc)) as [p|e];
    [|exact I].
  run. destruct (p_success p) eqn:E; cbn [negb].
  - extend s [EvGitPull (path rc) (branch rc) (Normal p)]
             [GitPullStep p] false;
      now rewrite E.
  - extend s [EvGitPull (path rc) (branch rc) (Normal p)]
             [GitPullStep p] true;
      now rewrite E.
Qed.

Lemma skip_accounted (startTime : Z) (p : PullResult) :
  triple inv (skipCheck w startTime p) (fun _ => inv) inv.
Proof.
  intros s H. run.
  destruct (negb (p_changed p) && _).
  - extend s (@nil Event) (@nil StepResult) false.
  - destruct s; assumption.
Qed.

Lemma install_accounted (rc : RepoConfig) :
  triple inv (installStep w rc) (fun _ => inv) inv.
Proof.
  intros s H. run.
  destruct (wantsInstall rc).
  - destruct (negb (i_success _) && _) eqn:E.
    + extend s [EvInstall (path rc) (dependenciesOf rc)
                  (installDependencies w (trace s) (path rc)
                     (dependenciesOf rc))]
               [InstallDepsStep (installDependencies w (trace s) (path rc)
                     (dependenciesOf rc))] true;
        now rewrite E.
    + extend s [EvInstall (path rc) (dependenciesOf rc)
                  (installDependencies w (trace s) (path rc)
                     (dependenciesOf rc))]
               [InstallDepsStep (installDependencies w (trace s) (path rc)
                     (dependenciesOf rc))] false;
        now rewrite E.
  - extend s (@nil Event) [InstallDepsSkipped] false.
Qed.

Lemma stop_accounted (rc : RepoConfig) (ts : TaskServerConfig)
    (cmds : list BuildCommand) :
  triple inv (stopStep w rc ts cmds) (fun _ => inv) inv.
Proof.
  intros s H. unfold stopStep, when.
  destruct (nonempty (restartScripts rc) && _); [|exact H].
  destruct (stop_loop w ts (elements (restartScripts rc)) s)
    as [(rs & s' & -> & Hr & Ht & _)
       |(rs & s' & pre & n & post & e & _ & -> & _)]; [|exact I].
  destruct (lifecycle_stops ts rs) as (Hl & _ & _ & Hf).
  apply (since_extend t0 (map (ev_stop ts) rs) [] false s);
    rewrite ?Hr, ?app_nil_r, ?andb_true_r; auto.
Qed.

Lemma build_accounted (rc : RepoConfig) (cmds : list BuildCommand) :
  triple inv (buildStep w rc cmds) (fun _ => inv) inv.
Proof.
  intros s H. unfold buildStep.
  destruct (0 <? List.length cmds)%nat.
  - rewrite mbind_eq.
    destruct (build_loop w rc cmds [] s)
      as [(xs & rs & s' & -> & Hr & Ht & _ & Hx & Hb)
         |(xs & rs & s' & pre & c & post & msg & _ & -> & Hr & Ht
           & _ & Hx & Hb)].
    + destruct (lifecycle_execs xs) as (Hl & _ & _ & Hf).
      apply (since_extend t0 (map ev_exec xs) [BuildStep ([] ++ rs)] false s);
        cbn [modify results trace steps success push existsb fatal_step
             recorded app];
        rewrite ?Hr, ?andb_true_r, ?orb_false_r; auto.
      now rewrite Hf.
    + destruct (lifecycle_execs (xs ++ [(plan w rc c, ExecError msg)]))
        as (Hl & _ & _ & Hf).
      apply (since_extend t0
               (map ev_exec (xs ++ [(plan w rc c, ExecError msg)]))
               [BuildStep ([] ++ rs)] true s);
        rewrite ?Hr;
        cbn [results trace steps success push set_error set_success existsb
             fatal_step recorded app];
        rewrite ?andb_false_r, ?orb_false_r; auto.
      rewrite Hf, existsb_app. simpl. now rewrite orb_true_r.
  - apply (since_extend t0 [] [BuildSkipped] false s);
      cbn [modify results trace steps success push]; 
      rewrite ?app_nil_r, ?andb_true_r; auto.
Qed.

Lemma register_accounted (rc : RepoConfig) (ts : TaskServerConfig)
    (wasCloned : option bool) :
  triple inv (registerStep w rc ts wasCloned) (fun _ => inv) inv.
Proof.
  intros s H. unfold registerStep, when.
  destruct (truthy_bool wasCloned && _); [|exact H].
  rewrite mbind_eq.
  destruct (register_loop w ts (elements (registerScripts rc)) [] s)
    as [(rs & s' & -> & Hr & Ht & Hm)
       |(rs & s' & pre & sc & post & e & _ & -> & _)]; [|exact I].
  destruct (lifecycle_adds ts rs) as (Hl & _ & Hf).
  apply (since_extend t0 (map (ev_add ts) rs)
           [RegisterScriptsStep
              ([] ++ map (fun x => (sc_name (fst x), snd x)) rs)] false s);
    cbn [modify results trace steps success push existsb fatal_step
         recorded app];
    rewrite ?Hr, ?app_nil_r, ?andb_true_r; auto.
Qed.

Lemma restart_accounted (rc : RepoConfig) (ts : TaskServerConfig) :
  triple inv (restartStep w rc ts) (fun _ => inv) inv.
Proof.
  intros s H. unfold restartStep.
  destruct (nonempty (restartScripts rc)).
  - rewrite mbind_eq.
    destruct (restart_loop w ts (elements (restartScripts rc)) [] s)
      as [(rs & s' & -> & Hr & Ht & _)
         |(rs & s' & pre & n & post & e & _ & -> & _)]; [|exact I].
    destruct (lifecycle_restarts ts rs) as (Hl & _ & Hf).
    apply (since_extend t0 (map (ev_restart ts) rs)
             [RestartScriptsStep ([] ++ rs)] false s);
      cbn [modify results trace steps success push existsb fatal_step
           recorded app];
      rewrite ?Hr, ?app_nil_r, ?andb_true_r; auto.
  - apply (since_extend t0 [] [RestartScriptsSkipped] false s);
      cbn [modify results trace steps success push];
      rewrite ?app_nil_r, ?andb_true_r; auto.
Qed.

Lemma clock_frame (P : State -> Prop) (R : State -> Prop) :
  triple P (clock w) (fun _ => P) R.
Proof. intros s H. exact H. Qed.

Lemma deploy_accounted (cfg : config) (rc : RepoConfig) :
  triple inv (deploy w cfg rc) (fun _ => inv) inv.
Proof.
  unfold deploy.
  eapply triple_bind; [apply clock_frame|intros startTime].
  eapply triple_bind; [apply ensure_accounted|intros ?].
  eapply triple_bind; [apply pull_accounted|intros p].
  eapply triple_bind; [apply skip_accounted|intros wasCloned].
  eapply triple_bind; [apply install_accounted|intros ?].
  eapply triple_bind; [apply eval_commands|intros cmds].
  apply triple_fact. intros _.
  eapply triple_bind; [apply stop_accounted|intros ?].
  eapply triple_bind; [apply build_accounted|intros ?].
  eapply triple_bind; [apply register_accounted|intros ?].
  eapply triple_bind; [apply restart_accounted|intros ?].
  eapply triple_bind; [apply clock_frame|intros t].
  intros s H.
  apply (since_extend t0 [] [] false s);
    cbn [modify results trace steps success set_duration];
    rewrite ?app_nil_r, ?andb_true_r; auto.
Qed.

End Steps.

(** What a returned result accounts for. *)
Lemma run_accounted (w : World) (cfg : config) (rc : RepoConfig)
    (trig : option TriggerInfo) (t0 : Trace) :
  exists evs : Trace,
    snd (run w cfg rc trig t0) = t0 ++ evs
    /\ match fst (run w cfg rc trig t0) with
       | Normal r => accounted evs r
       | Throw _ => True
       end.
Proof.
  pose proof (deploy_accounted w t0 cfg rc
                {| results := initial rc trig; trace := t0 |}) as H.
  destruct (Rejection.run_rejection w cfg rc trig t0) as (evs0 & Ht0 & _).
  revert Ht0. unfold run.
  destruct (deploy w cfg rc {| results := initial rc trig; trace := t0 |})
    as [f s].
  cbn [fst snd]. intros Ht0.
  assert (H0 : since t0 accounted
                 {| results := initial rc trig; trace := t0 |}).
  { exists []. split; [now rewrite app_nil_r|].
    repeat split; reflexivity. }
  specialize (H H0).
  destruct f.
  - destruct H as (evs & Ht & Ha). now exists evs.
  - destruct H as (evs & Ht & Ha). now exists evs.
  - exists evs0. split; [exact Ht0|exact I].
Qed.


Import Examples.



End Accounting.

(** ** The build step within the pipeline (C5) *)

Module Building.

Import Config Deployer DeploySpec DeployFacts.

Local Open Scope list_scope.

(** An absolute [cwd] is used as it is. *)
Lemma expandPath_absolute (h : string) (j : string -> string -> string)
    (d : string) :
  startsWith d "/" = true -> expandPath h j d = d.
Proof.
  destruct d as [|c d]; [discriminate|].
  unfold startsWith. cbn [String.prefix].
  destruct (ascii_dec "/" c) as [<-|]; [|discriminate].
  intros _. reflexivity.
Qed.

Section Steps.

Variable w : World.
Variable t0 : Trace.
Variable rc : RepoConfig.

Abbreviation R := (since t0 (stalled w rc)).

Ltac run := cbv [ensureStep pullStep skipCheck installStep when mbind call
                 modify pure return_results get_results clock];
            cbn [results trace].

(** A step that adds events without build or lifecycle calls and steps
    that are not a passed installation keeps the run [quiet]. *)
Lemma quiet_extend (evs' : Trace) (sts : list StepResult) (s s' : State) :
  since t0 quiet s ->
  trace s' = trace s ++ evs' ->
  exec_events evs' = [] ->
  existsb is_lifecycle evs' = false ->
  steps (results s') = steps (results s) ++ sts ->
  past_install sts = false ->
  since t0 quiet s'.
Proof.
  intros (evs & Ht & He & Hl & Hp) Ht' He' Hl' Hs Hp'.
  exists (evs ++ evs'). split; [now rewrite Ht', Ht, app_assoc|].
  unfold quiet.
  now rewrite exec_events_app, existsb_app, Hs, past_install_app,
    He, He', Hl, Hl', Hp, Hp'.
Qed.

Lemma ready_extend (evs' : Trace) (s s' : State) :
  since t0 ready s ->
  trace s' = trace s ++ evs' ->
  exec_events evs' = [] ->
  existsb is_lifecycle evs' = false ->
  since t0 ready s'.
Proof.
  intros (evs & Ht & He & Hl) Ht' He' Hl'.
  exists (evs ++ evs'). split; [now rewrite Ht', Ht, app_assoc|].
  unfold ready.
  now rewrite exec_events_app, existsb_app, He, He', Hl, Hl'.
Qed.

Lemma quiet_stalled (s : State) : since t0 quiet s -> R s.
Proof. intros (evs & Ht & H). exists evs. split; [exact Ht|now left]. Qed.

Lemma ensure_quiet :
  triple (since t0 quiet) (ensureStep w rc) (fun _ => since t0 quiet) R.
Proof.
  intros s H. run.
  destruct (truthy_str (repoUrl rc)); [|assumption].
  destruct (e_success _); cbn [negb]; [|apply quiet_stalled];
    (eapply (quiet_extend [_] [EnsureRepoStep _] s); [exact H|..];
     reflexivity).
Qed.

Lemma pull_quiet :
  triple (since t0 quiet) (pullStep w rc) (fun _ => since t0 quiet) R.
Proof.
  intros s H. unfold pullStep. rewrite mbind_eq, await_eq.
  destruct (gitPull w (trace s) (path rc) (branch rc)) as [p|e];
    [|exact I].
  run. destruct (p_success p); cbn [negb]; [|apply quiet_stalled];
    (eapply (quiet_extend [_] [GitPullStep _] s); [exact H|..];
     reflexivity).
Qed.

Lemma skip_quiet (startTime : Z) (p : PullResult) :
  triple (since t0 quiet) (skipCheck w startTime p)
         (fun _ => since t0 quiet) R.
Proof.
  intros s H. run.
  destruct (negb (p_changed p) && _).
  - apply quiet_stalled.
    apply (quiet_extend [] [] s); cbn [results trace steps set_duration
      set_skipped]; rewrite ?app_nil_r; auto.
  - destruct s; assumption.
Qed.

Lemma install_ready :
  triple (since t0 quiet) (installStep w rc) (fun _ => since t0 ready) R.
Proof.
  intros s H. run.
  destruct (wantsInstall rc).
  - destruct (negb (i_success _) && _) eqn:E.
    + apply quiet_stalled.
      eapply (quiet_extend [_] [InstallDepsStep _] s); [exact H|..];
        try reflexivity.
      unfold past_install. cbn [existsb step fatal_step]. now rewrite E.
    + destruct H as (evs & Ht & He & Hl & _).
      eapply (ready_extend [_] s); [exists evs; now repeat split|..];
        reflexivity.
  - destruct H as (evs & Ht & He & Hl & _).
    apply (ready_extend [] s); [exists evs; now repeat split|..];
      cbn [trace]; rewrite ?app_nil_r; reflexivity.
Qed.

Lemma stop_ready (ts : TaskServerConfig) (cmds : list BuildCommand) :
  triple (since t0 ready) (stopStep w rc ts cmds) (fun _ => since t0 ready) R.
Proof.
  intros s H. unfold stopStep, when.
  destruct (nonempty (restartScripts rc) && _); [|exact H].
  destruct (stop_loop w ts (elements (restartScripts rc)) s)
    as [(rs & s' & -> & Hr & Ht & _)
       |(rs & s' & pre & n & post & e & _ & -> & _)]; [|exact I].
  destruct (lifecycle_stops ts rs) as (_ & He & Hl & _).
  now apply (ready_extend (map (ev_stop ts) rs) s).
Qed.

Lemma build_built :
  triple (since t0 ready) (buildStep w rc (declared (build rc)))
         (fun _ => since t0 (built w rc)) R.
Proof.
  intros s (evs & Ht0 & He & Hl). unfold buildStep.
  destruct (0 <? List.length (declared (build rc)))%nat eqn:Hn.
  - rewrite mbind_eq.
    destruct (build_loop w rc (declared (build rc)) [] s)
      as [(xs & rs & s' & -> & Hr & Ht & Hm & Hx & Hb)
         |(xs & rs & s' & pre & c & post & msg & Hc & -> & Hr & Ht
           & Hm & Hx & Hb)].
    + exists (evs ++ map ev_exec xs). cbn [modify results trace].
      split; [now rewrite Ht, Ht0, app_assoc|].
      destruct (lifecycle_execs xs) as (_ & Hxs & _).
      unfold built. now rewrite exec_events_app, He, Hxs.
    + exists (evs ++ map ev_exec (xs ++ [(plan w rc c, ExecError msg)])).
      split; [now rewrite Ht, Ht0, app_assoc|].
      right. exists pre, c, post, msg, xs, (evs ++ map ev_exec xs).
      destruct (lifecycle_execs (xs ++ [(plan w rc c, ExecError msg)]))
        as (_ & Hxs & Hls & _).
      rewrite exec_events_app, existsb_app, He, Hl, Hxs, Hls, Hr.
      rewrite map_app. repeat split; auto.
      now rewrite app_assoc.
  - exists evs. cbn [modify results trace]. split; [exact Ht0|].
    apply Nat.ltb_ge in Hn.
    destruct (declared (build rc)) eqn:Hc; [|simpl in Hn; lia].
    unfold built. rewrite Hc, He. split; reflexivity.
Qed.

Lemma built_extend (evs' : Trace) (s s' : State) :
  since t0 (built w rc) s ->
  trace s' = trace s ++ evs' ->
  exec_events evs' = [] ->
  since t0 (built w rc) s'.
Proof.
  intros (evs & Ht & Hm & Hx) Ht' He'.
  exists (evs ++ evs'). split; [now rewrite Ht', Ht, app_assoc|].
  unfold built. now rewrite exec_events_app, He', app_nil_r.
Qed.

Lemma register_built (ts : TaskServerConfig) (wasCloned : option bool) :
  triple (since t0 (built w rc)) (registerStep w rc ts wasCloned)
         (fun _ => since t0 (built w rc)) R.
Proof.
  intros s H. unfold registerStep, when.
  destruct (truthy_bool wasCloned && _); [|exact H].
  rewrite mbind_eq.
  destruct (register_loop w ts (elements (registerScripts rc)) [] s)
    as [(rs & s' & -> & Hr & Ht & Hm)
       |(rs & s' & pre & sc & post & e & _ & -> & _)]; [|exact I].
  destruct (lifecycle_adds ts rs) as (_ & He & _).
  now apply (built_extend (map (ev_add ts) rs) s).
Qed.

Lemma restart_built (ts : TaskServerConfig) :
  triple (since t0 (built w rc)) (restartStep w rc ts)
         (fun _ => since t0 (built w rc)) R.
Proof.
  intros s H. unfold restartStep.
  destruct (nonempty (restartScripts rc)).
  - rewrite mbind_eq.
    destruct (restart_loop w ts (elements (restartScripts rc)) [] s)
      as [(rs & s' & -> & Hr & Ht & _)
         |(rs & s' & pre & n & post & e & _ & -> & _)]; [|exact I].
    destruct (lifecycle_restarts ts rs) as (_ & He & _).
    now apply (built_extend (map (ev_restart ts) rs) s).
  - apply (built_extend [] s); cbn [modify trace]; rewrite ?app_nil_r; auto.
Qed.

Lemma deploy_stages (cfg : config) :
  triple (since t0 quiet) (deploy w cfg rc)
         (fun _ => since t0 (built w rc)) R.
Proof.
  unfold deploy.
  eapply triple_bind; [apply Accounting.clock_frame|intros startTime].
  eapply triple_bind; [apply ensure_quiet|intros ?].
  eapply triple_bind; [apply pull_quiet|intros p].
  eapply triple_bind; [apply skip_quiet|intros wasCloned].
  eapply triple_bind; [apply install_ready|intros ?].
  eapply triple_bind; [apply eval_commands|intros cmds].
  apply triple_fact. intros Hc.
  apply getBuildCommands_declared in Hc. subst cmds.
  eapply triple_bind; [apply stop_ready|intros ?].
  eapply triple_bind; [apply build_built|intros ?].
  eapply triple_bind; [apply register_built|intros ?].
  eapply triple_bind; [apply restart_built|intros ?].
  eapply triple_bind; [apply Accounting.clock_frame|intros t].
  intros s H.
  apply (built_extend [] s); cbn [modify trace]; rewrite ?app_nil_r; auto.
Qed.

End Steps.

Lemma workDirOf_cases (w : World) (rc : RepoConfig) (c : BuildCommand) :
  workDirOf w rc c =
  match cwd c with
  | None => expandPath (homedir w) (join w) (path rc)
  | Some d =>
      if (d =? "")%string then expandPath (homedir w) (join w) (path rc)
      else if startsWith d "/" then d
      else join w (expandPath (homedir w) (join w) (path rc)) d
  end.
Proof.
  unfold workDirOf. destruct (cwd c) as [d|]; [|reflexivity].
  cbn [truthy_str str_or_empty].
  destruct (d =? "")%string; [reflexivity|]. cbn [negb].
  destruct (startsWith d "/") eqn:E; [|reflexivity].
  now apply expandPath_absolute.
Qed.


Import Examples.



(** A stop call that throws: [deploy] throws with it, and the build
    commands the configuration declares are not run. *)
Example stop_that_throws :
  declared (build repo_app) <> []
  /\ fst (run world_bad_name cfg_open repo_app None [])
     = Throw "URIError: URI malformed"
  /\ exec_events (snd (run world_bad_name cfg_open repo_app None [])) = [].
Proof. repeat split; [discriminate|reflexivity..]. Qed.

End Building.

(** ** The fast path (C3) *)

Module FastPath.

Import Config Deployer DeploySpec.

Local Open Scope list_scope.


Import Examples.


End FastPath.

(* ================================================================== *)
(** * The poll loop *)
(* ================================================================== *)

Module PollFacts.

Import Config Polling.

Local Open Scope list_scope.

Lemma visited_app (a b : Trace) : visited (a ++ b) = visited a ++ visited b.
Proof.
  induction a as [|[] a IH]; simpl; rewrite ?IH; reflexivity.
Qed.

(** Whatever the check answers, or if it throws, exactly this
    repository is added to the visited ones. *)
Lemma visited_check (w : World) (repo : RepoConfig) (t : Trace) :
  visited (check w repo t) = visited t ++ [repo].
Proof.
  unfold check.
  destruct (checkForUpdates w t (path repo) (branch repo)) as [st|e].
  - destruct (st_success st && st_hasUpdates st);
      rewrite ?visited_app; simpl; now rewrite ?app_nil_r.
  - now rewrite visited_app.
Qed.

(** The scan visits a prefix of the list, in order. *)
Lemma scan_prefix (w : World) (repos : list RepoConfig) (t : Trace) :
  exists k, visited (scan w repos t) = visited t ++ firstn k repos.
Proof.
  revert t; induction repos as [|r rest IH]; intros t; simpl.
  - exists 0. now rewrite app_nil_r.
  - destruct (running w t); simpl.
    + destruct (IH (check w r t)) as [k Hk].
      exists (S k). rewrite Hk, visited_check, <- app_assoc. reflexivity.
    + exists 0. now rewrite app_nil_r.
Qed.

Lemma scan_all (w : World) (repos : list RepoConfig) (t : Trace) :
  (forall t', running w t' = true) ->
  visited (scan w repos t) = visited t ++ repos.
Proof.
  intros Hrun. revert t; induction repos as [|r rest IH]; intros t; simpl.
  - now rewrite app_nil_r.
  - rewrite Hrun. simpl.
    rewrite IH, visited_check, <- app_assoc. reflexivity.
Qed.

(** C9. During one tick the repositories are checked one after the
    other in list order, whatever the checks answer: a check that
    throws or reports [success = false] is followed by the check of the
    next repository.  The visited repositories are always a prefix of
    the list, and the whole list as long as [stop()] has not cleared
    the running flag. *)
Theorem failed_check_does_not_abort_scan (w : World) (c : config) :
  (exists k, visited (poll w c []) = firstn k (repos c))
  /\ ((forall t, running w t = true) ->
      visited (poll w c []) = repos c)
  /\ (forall (repo : RepoConfig) (t : Trace),
        visited (check w repo t) = visited t ++ [repo]).
Proof.
  split; [|split].
  - unfold poll. destruct (running w []); simpl.
    + destruct (scan_prefix w (repos c) []) as [k Hk].
      exists k. destruct (running w (scan w (repos c) []));
        rewrite ?visited_app, Hk; simpl; now rewrite ?app_nil_r.
    + exists 0. reflexivity.
  - intros Hrun. unfold poll. rewrite !Hrun. simpl.
    rewrite visited_app, scan_all by exact Hrun. simpl.
    now rewrite app_nil_r.
  - apply visited_check.
Qed.

Import Examples.

Lemma failed_check_does_not_abort_scan_witness :
  visited (poll world_flaky cfg_poll [])
  = [repo_named "a"; repo_named "b"; repo_named "c"].
Proof.
  exact (proj1 (proj2 (failed_check_does_not_abort_scan world_flaky cfg_poll))
           (fun _ => eq_refl)).
Defined.

End PollFacts.

(* ================================================================== *)
(** * Deployments in flight *)
(* ================================================================== *)

Module IndexFacts.

Import Config Index.

Local Open Scope list_scope.

Lemma inflight_app (n : string) (a b : list Pending) :
  inflight n (a ++ b) = inflight n a + inflight n b.
Proof. unfold inflight. now rewrite filter_app, length_app. Qed.

Lemma inflight_settle (n m : string) (pending : list Pending) :
  inflight n (settle m pending) <= inflight n pending.
Proof.
  induction pending as [|d rest IH]; simpl; [lia|].
  destruct (name (p_repo d) =? m)%string.
  - unfold inflight. simpl.
    destruct (name (p_repo d) =? n)%string; simpl; lia.
  - unfold inflight in *. simpl.
    destruct (name (p_repo d) =? n)%string; simpl; lia.
Qed.

Lemma inflight_handleDeploy (n : string) (pending : list Pending)
    (r : RepoConfig) (trig : option Deployer.TriggerInfo) :
  inflight n (handleDeploy pending r trig)
  = inflight n pending + (if (name r =? n)%string then 1 else 0).
Proof.
  unfold handleDeploy. rewrite inflight_app. f_equal.
  unfold inflight. simpl. now destruct (name r =? n)%string.
Qed.

Section System.

Variable hmac_sha256 : string -> string -> list byte.
Variable JSON_parse : string -> option json.
Variable cfg : config.

Abbreviation submits := (Index.submits hmac_sha256 JSON_parse cfg).
Abbreviation sys_step := (Index.sys_step hmac_sha256 JSON_parse cfg).
Abbreviation spaced := (Index.spaced hmac_sha256 JSON_parse cfg).

Lemma sys_step_submits (pending : list Pending) (ev : SysEvent)
    (r : RepoConfig) (trig : option Deployer.TriggerInfo) :
  submits ev = Some (r, trig) ->
  sys_step pending ev = handleDeploy pending r trig.
Proof.
  intros H. unfold Index.sys_step. rewrite H.
  destruct ev; [reflexivity|reflexivity|discriminate].
Qed.

Lemma sys_step_other (n : string) (pending : list Pending) (ev : SysEvent) :
  submits ev = None ->
  inflight n (sys_step pending ev) <= inflight n pending.
Proof.
  intros H. unfold Index.sys_step. rewrite H.
  destruct ev; try lia. apply inflight_settle.
Qed.

Lemma spaced_run (n : string) (evs : list SysEvent) (pending : list Pending) :
  inflight n pending <= 1 ->
  spaced n pending evs = true ->
  inflight n (fold_left sys_step evs pending) <= 1.
Proof.
  revert pending; induction evs as [|ev rest IH]; intros pending Hp Hs;
    [exact Hp|].
  cbn [Index.spaced] in Hs. apply andb_true_iff in Hs as [Hev Hrest].
  cbn [fold_left]. apply IH; [|exact Hrest].
  destruct (submits ev) as [[r trig]|] eqn:E.
  - rewrite (sys_step_submits pending ev r trig E), inflight_handleDeploy.
    destruct (name r =? n)%string; simpl in *; [|lia].
    apply Nat.eqb_eq in Hev. lia.
  - pose proof (sys_step_other n pending ev E). lia.
Qed.

(** C1 (as amended). Neither trigger path serialises deployments:
    every trigger the webhook handler accepts and every update the poll
    loop finds starts a deploy at once, so each one adds a deployment
    in flight for its repository whatever is already running.  At most
    one deployment per repository is in flight only as long as no
    trigger for it arrives while one of its deployments is running. *)
Theorem triggers_start_deploys_at_once :
  (forall (pending : list Pending) (ev : SysEvent) (r : RepoConfig)
          (trig : option Deployer.TriggerInfo),
      submits ev = Some (r, trig) ->
      inflight (name r) (sys_step pending ev)
        = S (inflight (name r) pending))
  /\ (forall (n : string) (evs : list SysEvent),
        spaced n [] evs = true ->
        inflight n (Index.sys_run hmac_sha256 JSON_parse cfg evs) <= 1).
Proof.
  split.
  - intros pending ev r trig H.
    rewrite (sys_step_submits pending ev r trig H), inflight_handleDeploy.
    rewrite String.eqb_refl. lia.
  - intros n evs H. apply spaced_run; [unfold inflight; simpl; lia|exact H].
Qed.

End System.

Import Examples Aux.

Lemma triggers_start_deploys_at_once_witness :
  inflight "x"
    (Index.sys_step toy_hmac (parses_to push_main_x) cfg_open
       [{| p_repo := repo_x; p_trigger := None |}] (Http generic_req))
  = 2
  /\ inflight "x"
       (sys_run toy_hmac (parses_to push_main_x) cfg_open
          [Http generic_req; Settled "x"; PollUpdate repo_x]) <= 1.
Proof.
  pose proof (triggers_start_deploys_at_once toy_hmac
                (parses_to push_main_x) cfg_open) as (Hstep & Hrun).
  split.
  - exact (Hstep [{| p_repo := repo_x; p_trigger := None |}]
               (Http generic_req) repo_x
               (Some (Deployer.PushTrigger
                        {| Webhook.provider := "github";
                           Webhook.event := "push";
                           Webhook.pi_branch := "main";
                           Webhook.repository := JStr "x";
                           Webhook.fullName := JNull;
                           Webhook.commits := JNum 0;
                           Webhook.pusher := JStr "a";
                           Webhook.headCommit := JNull |}))
               eq_refl).
  - apply Hrun. reflexivity.
Defined.

(** Two triggers for repository [x] in quick succession, a webhook
    push followed by a poll update (or by a second push): both
    deployments are in flight together. *)
Lemma overlapping_deploys_counterexample :
  inflight "x"
    (sys_run toy_hmac (parses_to push_main_x) cfg_open
       [Http generic_req; PollUpdate repo_x]) = 2
  /\ inflight "x"
       (sys_run toy_hmac (parses_to push_main_x) cfg_secret
          [Http generic_req; Http generic_req]) = 2
  /\ ~ (forall evs : list SysEvent,
          inflight "x"
            (sys_run toy_hmac (parses_to push_main_x) cfg_open evs) <= 1).
Proof.
  split; [reflexivity|]. split; [reflexivity|].
  intros H.
  specialize (H [Http generic_req; PollUpdate repo_x]).
  vm_compute in H. lia.
Qed.

End IndexFacts.

(* ================================================================== *)
(** * Further properties of the webhook handler *)
(* ================================================================== *)

Module DispatchFacts.

Import Aux Webhook ParseFacts.

Local Open Scope list_scope.

(** [find] returns the first element that satisfies the predicate. *)
Lemma find_first {A} (f : A -> bool) (l : list A) (x : A) :
  find f l = Some x ->
  exists pre post,
    l = pre ++ x :: post /\ f x = true /\ forallb (fun y => negb (f y)) pre = true.
Proof.
  induction l as [|y l IH]; simpl; [discriminate|].
  destruct (f y) eqn:E.
  - intros H; injection H as <-. exists [], l. auto.
  - intros H. destruct (IH H) as (pre & post & -> & Hx & Hpre).
    exists (y :: pre), post. simpl. rewrite E, Hx, Hpre. auto.
Qed.

Lemma strict_eq_str_true (j : json) (n : string) :
  strict_eq_str (Some j) n = true -> j = JStr n.
Proof.
  destruct j; simpl; try discriminate.
  now intros ->%String.eqb_eq.
Qed.

Lemma matches_exact (p : PushInfo) (r : Config.RepoConfig) :
  matches p r = true ->
  Config.branch r = pi_branch p
  /\ (repository p = JStr (Config.name r) \/ fullName p = JStr (Config.name r)).
Proof.
  unfold matches.
  destruct (Config.branch r =? pi_branch p)%string eqn:Hb; cbn [negb];
    [|discriminate].
  apply String.eqb_eq in Hb. intros H. split; [exact Hb|]. revert H.
  destruct (strict_eq_str (Some (repository p)) (Config.name r)) eqn:E1.
  - intros _. left. now apply strict_eq_str_true.
  - destruct (strict_eq_str (Some (fullName p)) (Config.name r)) eqn:E2;
      [|discriminate].
    intros _. right. now apply strict_eq_str_true.
Qed.

Section Handler.

Variable hmac_sha256 : string -> string -> list byte.
Variable JSON_parse : string -> option json.

Abbreviation detect := (Webhook.detect hmac_sha256).
Abbreviation fetch := (Webhook.fetch hmac_sha256 JSON_parse).
Abbreviation verify := (verifyGitHubSignature hmac_sha256).

(** What a returning handler call can have done. *)
Lemma fetch_cases (cfg : Config.config) (req : Request) (resp : Response)
    (o : option (Config.RepoConfig * PushInfo)) :
  fetch cfg req = Normal (resp, o) ->
  (resp = {| status := 200; rbody := HealthOk |} /\ o = None)
  \/ (resp = {| status := 404; rbody := ErrorBody "Not found" |} /\ o = None)
  \/ (resp = {| status := 400; rbody := ErrorBody "Invalid JSON" |}
      /\ o = None)
  \/ (exists body valid pushInfo,
        is_webhook_post req = true
        /\ JSON_parse (text req) = Some body
        /\ detect (Config.secret (Config.webhook cfg)) req body
           = Normal (valid, pushInfo)
        /\ (resp, o) = respond cfg valid pushInfo).
Proof.
  unfold Webhook.fetch, is_webhook_post.
  destruct ((pathname req =? "/health") && (method req =? "GET"))%string.
  { intros H; injection H as <- <-. auto. }
  destruct ((method req =? "POST")%string && startsWith (pathname req) "/webhook").
  2:{ intros H; injection H as <- <-. auto. }
  destruct (JSON_parse (text req)) as [body|].
  2:{ intros H; injection H as <- <-. auto 6. }
  destruct (detect _ req body) as [[valid pushInfo]|e] eqn:E;
    cbn [bind fst snd]; [|discriminate].
  intros H; injection H as H. right. right. right.
  exists body, valid, pushInfo. auto.
Qed.

Lemma respond_cases (cfg : Config.config) (valid : bool)
    (pushInfo : option PushInfo) (resp : Response)
    (o : option (Config.RepoConfig * PushInfo)) :
  (resp, o) = respond cfg valid pushInfo ->
  (valid = false /\ resp = invalid_signature /\ o = None)
  \/ (valid = true /\ pushInfo = None /\ resp = ignored /\ o = None)
  \/ (exists p, valid = true /\ pushInfo = Some p
        /\ find (matches p) (Config.repos cfg) = None
        /\ resp = {| status := 200;
                     rbody := MessageBody "No matching repo configuration" |}
        /\ o = None)
  \/ (exists p r, valid = true /\ pushInfo = Some p
        /\ find (matches p) (Config.repos cfg) = Some r
        /\ resp = {| status := 200;
                     rbody := TriggeredBody "Deployment triggered"
                                (Config.name r) (pi_branch p) |}
        /\ o = Some (r, p)).
Proof.
  unfold respond. destruct valid; cbn [negb].
  2:{ intros H; injection H as -> ->. left. repeat split; reflexivity. }
  destruct pushInfo as [p|].
  2:{ intros H; injection H as -> ->. right. left.
      repeat split; reflexivity. }
  destruct (find (matches p) (Config.repos cfg)) as [r|] eqn:E;
    intros H; injection H as -> ->.
  - right. right. right. exists p, r. repeat split; auto.
  - right. right. left. exists p. repeat split; auto.
Qed.

(** X1. A deployment is triggered only for a configured repository
    whose branch equals the pushed branch exactly and whose name
    equals the short or the full repository name of the push; it is
    the first such repository of the list, and the response is 200
    "Deployment triggered" naming that repository and branch. *)
Theorem dispatch_is_exact (cfg : Config.config) (req : Request)
    (resp : Response) (r : Config.RepoConfig) (p : PushInfo) :
  fetch cfg req = Normal (resp, Some (r, p)) ->
  Config.branch r = pi_branch p
  /\ (repository p = JStr (Config.name r) \/ fullName p = JStr (Config.name r))
  /\ (exists pre post,
        Config.repos cfg = pre ++ r :: post
        /\ forallb (fun r' => negb (matches p r')) pre = true)
  /\ resp = {| status := 200;
               rbody := TriggeredBody "Deployment triggered"
                          (Config.name r) (pi_branch p) |}.
Proof.
  intros H.
  destruct (fetch_cases cfg req resp _ H)
    as [(_ & Ho)|[(_ & Ho)|[(_ & Ho)|(body & valid & pi & _ & _ & _ & Hr)]]];
    try discriminate.
  destruct (respond_cases cfg valid pi resp _ Hr)
    as [(_ & _ & Ho)|[(_ & _ & _ & Ho)|[(p' & _ & _ & _ & _ & Ho)
       |(p' & r' & _ & _ & Hf & Hresp & Ho)]]];
    try discriminate.
  injection Ho as <- <-.
  destruct (find_first _ _ _ Hf) as (pre & post & Hl & Hm & Hpre).
  destruct (matches_exact p r Hm) as (Hb & Hn).
  repeat split; auto. exists pre, post. auto.
Qed.

(** X3. Whatever the request, a returning handler call answers 200,
    400, 401 or 404; [GET /health] is answered 200 before anything
    else, a request that is neither that nor a POST under [/webhook] is
    answered 404, a webhook POST whose body is not JSON is answered 400
    before any provider detection, and a deployment is started only
    together with a 200 response. *)
Theorem handler_status_codes (cfg : Config.config) (req : Request) :
  (pathname req = "/health" -> method req = "GET" ->
   fetch cfg req = Normal ({| status := 200; rbody := HealthOk |}, None))
  /\ (is_webhook_post req = false ->
      (pathname req =? "/health")%string && (method req =? "GET")%string
        = false ->
      fetch cfg req
        = Normal ({| status := 404; rbody := ErrorBody "Not found" |}, None))
  /\ (is_webhook_post req = true -> JSON_parse (text req) = None ->
      fetch cfg req
        = Normal ({| status := 400; rbody := ErrorBody "Invalid JSON" |},
                  None))
  /\ (forall resp o,
        fetch cfg req = Normal (resp, o) ->
        In (status resp) [200; 400; 401; 404]
        /\ (o <> None -> status resp = 200)).
Proof.
  split; [|split; [|split]].
  - intros Hp Hm. unfold Webhook.fetch. now rewrite Hp, Hm.
  - unfold is_webhook_post, Webhook.fetch. now intros -> ->.
  - intros Hp Hj. unfold Webhook.fetch.
    unfold is_webhook_post in Hp. rewrite Hp, Hj.
    apply andb_true_iff in Hp as [Hm _]. apply String.eqb_eq in Hm.
    rewrite Hm. cbn. now rewrite andb_false_r.
  - intros resp o H.
    destruct (fetch_cases cfg req resp o H)
      as [(-> & ->)|[(-> & ->)|[(-> & ->)|(body & valid & pi & _ & _ & _ & Hr)]]];
      try (split; [simpl; tauto|congruence]).
    destruct (respond_cases cfg valid pi resp o Hr)
      as [(_ & -> & ->)|[(_ & _ & -> & ->)|[(p' & _ & _ & _ & -> & ->)
         |(p' & r' & _ & _ & _ & -> & ->)]]];
      (split; [simpl; tauto|]); try congruence; reflexivity.
Qed.

Lemma verify_true_inv (payload : string) (h : option string) (s : string) :
  s <> "" ->
  verify payload h (Some s) = Normal true ->
  h = Some (signed hmac_sha256 s payload).
Proof.
  intros Hs Hv.
  destruct h as [x|].
  - destruct (string_dec x (signed hmac_sha256 s payload)) as [->|Hne];
      [reflexivity|].
    rewrite (VerifyFacts.verify_rejects hmac_sha256 s payload (Some x)) in Hv;
      [discriminate|exact Hs|congruence].
  - rewrite (VerifyFacts.verify_rejects hmac_sha256 s payload None) in Hv;
      [discriminate|exact Hs|discriminate].
Qed.

Lemma bind_normal {A B} (c : completion A) (k : A -> completion B) (b : B) :
  bind c k = Normal b -> exists a, c = Normal a /\ k a = Normal b.
Proof. destruct c as [a|e]; simpl; [eauto|discriminate]. Qed.

(** The verdict of a provider branch is the provider's check. *)
Lemma detect_verdict (secret : option string) (req : Request) (body : json)
    (valid : bool) (o : option PushInfo) :
  detect secret req body = Normal (valid, o) ->
  match provider_of req with
  | GitHub =>
      verify (text req) (headers req "X-Hub-Signature-256") secret
        = Normal valid
  | GitLab => verifyGitLabToken (headers req "X-Gitlab-Token") secret = valid
  | Gitea =>
      verify (text req) (headers req "X-Gitea-Signature") secret
        = Normal valid
  | Generic => valid = true
  end.
Proof.
  unfold Webhook.detect, provider_of, verifyGiteaSignature.
  destruct (truthy_str (headers req "X-GitHub-Event")
            || (pathname req =? "/webhook/github")%string).
  { intros H. apply bind_normal in H as (v & Hv & H).
    apply bind_normal in H as (pi & _ & H). congruence. }
  destruct (truthy_str (headers req "X-Gitlab-Token")
            || (pathname req =? "/webhook/gitlab")%string).
  { intros H. apply bind_normal in H as (k & _ & H).
    apply bind_normal in H as (pi & _ & H). congruence. }
  destruct (truthy_str (headers req "X-Gitea-Event")
            || (pathname req =? "/webhook/gitea")%string).
  { intros H. apply bind_normal in H as (v & Hv & H).
    apply bind_normal in H as (pi & _ & H). congruence. }
  intros H. apply bind_normal in H as (pi & _ & H). congruence.
Qed.

(** X2. With a webhook secret configured, a request handled as a
    GitHub, GitLab or Gitea delivery starts a deployment only if it
    carries the right credential: the header [X-Hub-Signature-256]
    (GitHub) or [X-Gitea-Signature] (Gitea) equal to ["sha256="]
    followed by the hex HMAC-SHA256 of the raw body under the secret,
    or the header [X-Gitlab-Token] equal to the secret (GitLab). *)
Theorem deployment_requires_credential (cfg : Config.config) (req : Request)
    (resp : Response) (d : Config.RepoConfig * PushInfo) (s : string) :
  Config.secret (Config.webhook cfg) = Some s ->
  s <> "" ->
  fetch cfg req = Normal (resp, Some d) ->
  (provider_of req = GitHub ->
   headers req "X-Hub-Signature-256"
     = Some (signed hmac_sha256 s (text req)))
  /\ (provider_of req = Gitea ->
      headers req "X-Gitea-Signature"
        = Some (signed hmac_sha256 s (text req)))
  /\ (provider_of req = GitLab -> headers req "X-Gitlab-Token" = Some s).
Proof.
  intros Hsec Hs H.
  destruct (fetch_cases cfg req resp _ H)
    as [(_ & Ho)|[(_ & Ho)|[(_ & Ho)|(body & valid & pi & _ & _ & Hd & Hr)]]];
    try discriminate.
  assert (valid = true) as ->.
  { destruct (respond_cases cfg valid pi resp _ Hr)
      as [(_ & _ & Ho)|[(-> & _)|[(p' & -> & _)|(p' & r' & -> & _)]]];
      [discriminate|reflexivity..]. }
  apply detect_verdict in Hd. rewrite Hsec in Hd.
  repeat split; intros Hp; rewrite Hp in Hd.
  - now apply verify_true_inv.
  - now apply verify_true_inv.
  - unfold verifyGitLabToken in Hd. simpl in Hd.
    destruct (String.eqb_spec s ""); [contradiction|]. simpl in Hd.
    destruct (headers req "X-Gitlab-Token") as [t|]; [|discriminate].
    apply String.eqb_eq in Hd. now subst.
Qed.

End Handler.

Import Examples.

Lemma dispatch_is_exact_witness :
  Config.branch repo_x = "main"%string
  /\ exists pre post, Config.repos cfg_open = pre ++ repo_x :: post.
Proof.
  destruct (dispatch_is_exact toy_hmac (parses_to push_main_x) cfg_open
              generic_req _ repo_x _ eq_refl)
    as (Hb & _ & (pre & post & Hl & _) & _).
  split; [exact Hb|]. exists pre, post. exact Hl.
Defined.

Lemma handler_status_codes_witness :
  Webhook.fetch toy_hmac (fun _ => None) cfg_secret generic_req
  = Normal ({| status := 400; rbody := ErrorBody "Invalid JSON" |}, None).
Proof.
  exact (proj1 (proj2 (proj2
    (handler_status_codes toy_hmac (fun _ => None) cfg_secret generic_req)))
    eq_refl eq_refl).
Defined.

Lemma deployment_requires_credential_witness :
  headers signed_req "X-Hub-Signature-256"
  = Some (signed toy_hmac "s3cret" "<body>").
Proof.
  refine (proj1 (deployment_requires_credential toy_hmac
            (parses_to push_main_x) cfg_secret signed_req _ _ "s3cret"
            eq_refl _ eq_refl) eq_refl).
  discriminate.
Defined.

End DispatchFacts.

(* ================================================================== *)
(** * Further properties of the poll loop *)
(* ================================================================== *)

Module PollMore.

Import Config Polling PollSpec.

Local Open Scope list_scope.

Lemma updated_app (a b : Trace) : updated (a ++ b) = updated a ++ updated b.
Proof. induction a as [|[] a IH]; simpl; rewrite ?IH; reflexivity. Qed.

Lemma found_app (a b : Trace) : found (a ++ b) = found a ++ found b.
Proof.
  induction a as [|[] a IH]; simpl; rewrite ?IH; try reflexivity.
  now destruct (reports_updates status).
Qed.

Lemma scheduled_app (a b : Trace) :
  scheduled (a ++ b) = scheduled a ++ scheduled b.
Proof. induction a as [|[] a IH]; simpl; rewrite ?IH; reflexivity. Qed.

Lemma check_updates (w : World) (repo : RepoConfig) (t : Trace) :
  updated (check w repo t) = updated t ++ found [Checked repo
     (checkForUpdates w t (path repo) (branch repo))]
  /\ found (check w repo t) = found t ++ found [Checked repo
     (checkForUpdates w t (path repo) (branch repo))]
  /\ scheduled (check w repo t) = scheduled t.
Proof.
  unfold check.
  destruct (checkForUpdates w t (path repo) (branch repo)) as [st|e]; simpl.
  - destruct (st_success st && st_hasUpdates st) eqn:E;
      rewrite ?updated_app, ?found_app, ?scheduled_app; simpl; rewrite ?E;
      simpl; rewrite ?app_nil_r; auto.
  - rewrite ?updated_app, ?found_app, ?scheduled_app; simpl;
      rewrite ?app_nil_r; auto.
Qed.

Lemma scan_updates (w : World) (repos : list RepoConfig) (t : Trace) :
  updated t = found t ->
  updated (scan w repos t) = found (scan w repos t)
  /\ scheduled (scan w repos t) = scheduled t.
Proof.
  revert t; induction repos as [|r rest IH]; intros t Ht; simpl; [auto|].
  destruct (running w t); simpl; [|auto].
  destruct (check_updates w r t) as (Hu & Hf & Hs).
  destruct (IH (check w r t)) as (IH1 & IH2); [now rewrite Hu, Hf, Ht|].
  split; [exact IH1|]. now rewrite IH2.
Qed.

Lemma scan_updates_scheduled (w : World) (repos : list RepoConfig)
    (t : Trace) :
  scheduled (scan w repos t) = scheduled t.
Proof.
  revert t; induction repos as [|r rest IH]; intros t; simpl; [auto|].
  destruct (running w t); simpl; [|auto].
  destruct (check_updates w r t) as (_ & _ & Hs). now rewrite IH.
Qed.

(** X4. In one tick [onUpdate] is called exactly for the repositories
    whose check returned with [success] and [hasUpdates], in the order
    of the checks: a check that throws, fails or finds nothing behind
    never starts a deployment. *)
Theorem updates_follow_positive_checks (w : World) (c : config) :
  updated (poll w c []) = found (poll w c []).
Proof.
  unfold poll. destruct (running w []); simpl; [|reflexivity].
  destruct (scan_updates w (repos c) [] eq_refl) as (H & _).
  destruct (running w (scan w (repos c) []));
    rewrite ?updated_app, ?found_app; simpl; now rewrite ?app_nil_r.
Qed.


Import Examples.


End PollMore.

(* ================================================================== *)
(** * Further properties of the deployment pipeline *)
(* ================================================================== *)

Module Outcome.

Import Config Deployer DeploySpec DeployFacts DeployShape.

Local Open Scope list_scope.

Section Steps.

Variable w : World.
Variable t0 : Trace.

Abbreviation G := (since t0 going).
Abbreviation H := (since t0 (halted w t0)).

Ltac run := cbv [ensureStep pullStep skipCheck installStep when mbind call
                 modify pure return_results get_results clock];
            cbn [results trace].

(** Going on after events without a fatal one. *)
Lemma going_extend (evs' : Trace) (s s' : State) :
  G s ->
  trace s' = trace s ++ evs' ->
  existsb fatal_event evs' = false ->
  success (results s') = success (results s) ->
  error (results s') = error (results s) ->
  skipped (results s') = skipped (results s) ->
  duration (results s') = duration (results s) ->
  G s'.
Proof.
  intros (evs & Ht & Hf & Hs & He & Hk & Hd) Ht' Hf' Hs' He' Hk' Hd'.
  exists (evs ++ evs'). split; [now rewrite Ht', Ht, app_assoc|].
  unfold going. rewrite existsb_app, Hf, Hf', Hs', He', Hk', Hd'. auto.
Qed.

(** Ending on a fatal event. *)
Lemma going_fail (ev : Event) (s s' : State) :
  G s ->
  trace s' = trace s ++ [ev] ->
  fatal_event ev = true ->
  success (results s') = false ->
  error (results s') = Some (fatal_message ev) ->
  skipped (results s') = skipped (results s) ->
  duration (results s') = duration (results s) ->
  H s'.
Proof.
  intros (evs & Ht & Hf & Hs & He & Hk & Hd) Ht' Hf' Hs' He' Hk' Hd'.
  exists (evs ++ [ev]). split; [now rewrite Ht', Ht, app_assoc|].
  left. exists evs, ev. rewrite Hk', Hd'. auto 10.
Qed.

Lemma ensure_going (rc : RepoConfig) :
  triple G (ensureStep w rc) (fun _ => G) H.
Proof.
  intros s Hs. run.
  destruct (truthy_str (repoUrl rc)); [|assumption].
  destruct (e_success _) eqn:E; cbn [negb].
  - eapply (going_extend [_] s); [exact Hs|reflexivity|..]; try reflexivity.
    simpl. now rewrite E.
  - eapply (going_fail _ s); [exact Hs|reflexivity|..]; try reflexivity.
    simpl. now rewrite E.
Qed.

Lemma pull_going (rc : RepoConfig) :
  triple G (pullStep w rc) (fun _ => G) H.
Proof.
  intros s Hs. unfold pullStep. rewrite mbind_eq, await_eq.
  destruct (gitPull w (trace s) (path rc) (branch rc)) as [p|e];
    [|exact I].
  run. destruct (p_success p) eqn:E; cbn [negb].
  - eapply (going_extend [_] s); [exact Hs|reflexivity|..]; try reflexivity.
    simpl. now rewrite E.
  - eapply (going_fail _ s); [exact Hs|reflexivity|..]; try reflexivity.
    simpl. now rewrite E.
Qed.

Lemma skip_going (startTime : Z) (p : PullResult) :
  startTime = now w t0 ->
  triple G (skipCheck w startTime p) (fun _ => G) H.
Proof.
  intros -> s Hs. run.
  destruct (negb (p_changed p) && _).
  - destruct Hs as (evs & Ht & Hf & Hsu & He & Hk & Hd).
    exists evs. split; [exact Ht|]. right.
    unfold skipped_early. cbn. rewrite Ht. auto.
  - destruct s; assumption.
Qed.

Lemma install_going (rc : RepoConfig) :
  triple G (installStep w rc) (fun _ => G) H.
Proof.
  intros s Hs. run.
  destruct (wantsInstall rc).
  - destruct (negb (i_success _) && _) eqn:E.
    + eapply (going_fail _ s); [exact Hs|reflexivity|..]; try reflexivity.
      simpl. now rewrite E.
    + eapply (going_extend [_] s); [exact Hs|reflexivity|..];
        try reflexivity.
      simpl. now rewrite E.
  - apply (going_extend [] s); cbn [results trace]; rewrite ?app_nil_r; auto.
Qed.

Lemma stop_going (rc : RepoConfig) (ts : TaskServerConfig)
    (cmds : list BuildCommand) :
  triple G (stopStep w rc ts cmds) (fun _ => G) H.
Proof.
  intros s Hs. unfold stopStep, when.
  destruct (nonempty (restartScripts rc) && _); [|exact Hs].
  destruct (stop_loop w ts (elements (restartScripts rc)) s)
    as [(rs & s' & -> & Hr & Ht & _)
       |(rs & s' & pre & n & post & e & _ & -> & _)]; [|exact I].
  destruct (lifecycle_stops ts rs) as (_ & _ & _ & Hf).
  apply (going_extend (map (ev_stop ts) rs) s); rewrite ?Hr; auto.
Qed.

Lemma build_going (rc : RepoConfig) (cmds : list BuildCommand) :
  triple G (buildStep w rc cmds) (fun _ => G) H.
Proof.
  intros s Hs. unfold buildStep.
  destruct (0 <? List.length cmds)%nat.
  - rewrite mbind_eq.
    destruct (build_loop w rc cmds [] s)
      as [(xs & rs & s' & -> & Hr & Ht & _ & Hx & Hb)
         |(xs & rs & s' & pre & c & post & msg & _ & -> & Hr & Ht
           & _ & Hx & Hb)].
    + destruct (lifecycle_execs xs) as (_ & _ & _ & Hf).
      apply (going_extend (map ev_exec xs) s);
        cbn [modify results trace]; rewrite ?Hr; auto.
      now rewrite Hf.
    + destruct Hs as (evs & Ht0 & Hf & Hsu & He & Hk & Hd).
      exists (evs ++ map ev_exec (xs ++ [(plan w rc c, ExecError msg)])).
      split; [now rewrite Ht, Ht0, app_assoc|].
      left. exists (evs ++ map ev_exec xs),
                   (EvExec (command c) (workDirOf w rc c) (ExecError msg)).
      destruct (lifecycle_execs xs) as (_ & _ & _ & Hfx).
      rewrite Hr, map_app, app_assoc, existsb_app, Hf, Hfx, Hx.
      cbn. repeat split; auto.
  - apply (going_extend [] s); cbn [modify results trace];
      rewrite ?app_nil_r; auto.
Qed.

Lemma register_going (rc : RepoConfig) (ts : TaskServerConfig)
    (wasCloned : option bool) :
  triple G (registerStep w rc ts wasCloned) (fun _ => G) H.
Proof.
  intros s Hs. unfold registerStep, when.
  destruct (truthy_bool wasCloned && _); [|exact Hs].
  rewrite mbind_eq.
  destruct (register_loop w ts (elements (registerScripts rc)) [] s)
    as [(rs & s' & -> & Hr & Ht & Hm)
       |(rs & s' & pre & sc & post & e & _ & -> & _)]; [|exact I].
  destruct (lifecycle_adds ts rs) as (_ & _ & Hf).
  apply (going_extend (map (ev_add ts) rs) s);
    cbn [modify results trace]; rewrite ?Hr; auto.
Qed.

Lemma restart_going (rc : RepoConfig) (ts : TaskServerConfig) :
  triple G (restartStep w rc ts) (fun _ => G) H.
Proof.
  intros s Hs. unfold restartStep.
  destruct (nonempty (restartScripts rc)).
  - rewrite mbind_eq.
    destruct (restart_loop w ts (elements (restartScripts rc)) [] s)
      as [(rs & s' & -> & Hr & Ht & _)
         |(rs & s' & pre & n & post & e & _ & -> & _)]; [|exact I].
    destruct (lifecycle_restarts ts rs) as (_ & _ & Hf).
    apply (going_extend (map (ev_restart ts) rs) s);
      cbn [modify results trace]; rewrite ?Hr; auto.
  - apply (going_extend [] s); cbn [modify results trace];
      rewrite ?app_nil_r; auto.
Qed.

Lemma deploy_outcome (cfg : config) (rc : RepoConfig) :
  triple (fun s => trace s = t0 /\ going [] (results s))
         (deploy w cfg rc)
         (fun _ => since t0 (finished w t0)) H.
Proof.
  unfold deploy.
  eapply triple_bind with
    (Q := fun a s => a = now w t0 /\ G s).
  { intros s (Ht & Hg). cbn [clock]. split; [now rewrite Ht|].
    exists []. now rewrite app_nil_r. }
  intros startTime. apply triple_fact. intros HstartTime.
  eapply triple_bind; [apply ensure_going|intros ?].
  eapply triple_bind; [apply pull_going|intros p].
  eapply triple_bind; [now apply skip_going|intros wasCloned].
  eapply triple_bind; [apply install_going|intros ?].
  eapply triple_bind; [apply eval_commands|intros cmds].
  apply triple_fact. intros _.
  eapply triple_bind; [apply stop_going|intros ?].
  eapply triple_bind; [apply build_going|intros ?].
  eapply triple_bind; [apply register_going|intros ?].
  eapply triple_bind; [apply restart_going|intros ?].
  intros s (evs & Ht & Hf & Hsu & He & Hk & Hd).
  cbn [mbind clock modify].
  exists evs. split; [exact Ht|].
  unfold finished. cbn. rewrite Ht, HstartTime. auto.
Qed.

End Steps.

(** How a deployment that returns a result ends. *)
Lemma run_outcome (w : World) (cfg : config) (rc : RepoConfig)
    (trig : option TriggerInfo) (t0 : Trace) :
  exists evs : Trace,
    snd (run w cfg rc trig t0) = t0 ++ evs
    /\ match fst (run w cfg rc trig t0) with
       | Normal r =>
           finished w t0 evs r \/ failed evs r \/ skipped_early w t0 evs r
       | Throw e => rejected w cfg rc t0 evs e
       end.
Proof.
  pose proof (deploy_outcome w t0 cfg rc
                {| results := initial rc trig; trace := t0 |}) as Hd.
  destruct (Rejection.run_rejection w cfg rc trig t0) as (evs0 & Ht0 & Hrej).
  revert Ht0 Hrej. unfold run.
  destruct (deploy w cfg rc {| results := initial rc trig; trace := t0 |})
    as [f s].
  cbn [fst snd]. intros Ht0 Hrej.
  assert (H0 : trace {| results := initial rc trig; trace := t0 |} = t0
               /\ going [] (results {| results := initial rc trig;
                                        trace := t0 |})).
  { split; [reflexivity|]. repeat split; reflexivity. }
  specialize (Hd H0). destruct f.
  - destruct Hd as (evs & Ht & Hf). exists evs. auto.
  - destruct Hd as (evs & Ht & [Hf|Hk]); exists evs; auto.
  - exists evs0. auto.
Qed.



Import Examples.



(** A deployment on a machine where the checkout is missing: the pull
    throws, [deploy] throws with it and returns no result. *)
Example pull_that_throws :
  run world_no_checkout cfg_open repo_app None []
  = (Throw "Cannot use simple-git on a directory that does not exist",
     [EvGitPull "/srv/app" "main"
        (Throw "Cannot use simple-git on a directory that does not exist")]).
Proof. reflexivity. Qed.

End Outcome.

Module Calls.

Import Config Deployer DeploySpec DeployFacts DeployShape Rejection.

Local Open Scope list_scope.

Lemma stops_first_extend (evs evs' : Trace) :
  stops_first evs -> stop_calls evs' = [] -> stops_first (evs ++ evs').
Proof.
  intros (a & b & -> & Ha & Hb) H. exists a, (b ++ evs').
  now rewrite app_assoc, stop_calls_app, Hb, H.
Qed.

Lemma stops_first_before_build (evs : Trace) :
  exec_events evs = [] -> stops_first evs.
Proof. intros H. exists evs, []. now rewrite app_nil_r. Qed.

(** [wasCloned] is read off the ensure-repo step, wherever the later
    steps are pushed. *)
Lemma wasClonedOf_push (st : StepResult) (r : Results) :
  (step st =? "ensure-repo")%string = false ->
  wasClonedOf (push st r) = wasClonedOf r.
Proof.
  intros H. unfold wasClonedOf. cbn [steps push].
  induction (steps r) as [|x l IH]; simpl.
  - now rewrite H.
  - destruct (step x =? "ensure-repo")%string; [reflexivity|exact IH].
Qed.

Lemma begins_nil {A} (l : list A) : begins [] l.
Proof. now exists l. Qed.

Lemma begins_all {A} (l : list A) : begins l l.
Proof. exists []. now rewrite app_nil_r. Qed.

Lemma expected_stops_cases (rc : RepoConfig) :
  expected_stops rc = [] \/ expected_stops rc = elements (restartScripts rc).
Proof. unfold expected_stops. destruct (_ && _); auto. Qed.

Lemma begins_expected_stops (rc : RepoConfig) (l : list string) :
  begins l (expected_stops rc) -> begins l (elements (restartScripts rc)).
Proof.
  destruct (expected_stops_cases rc) as [E|E]; rewrite E; [|auto].
  intros (rest & H). symmetry in H. apply app_eq_nil in H.
  destruct H as [-> _]. apply begins_nil.
Qed.

Lemma expected_adds_cases (rc : RepoConfig) (wc : option bool) :
  expected_adds rc wc = []
  \/ expected_adds rc wc = elements (registerScripts rc).
Proof. unfold expected_adds. destruct (_ && _); auto. Qed.

Lemma begins_expected_adds (rc : RepoConfig) (wc : option bool) :
  begins (expected_adds rc wc) (elements (registerScripts rc)).
Proof.
  destruct (expected_adds_cases rc wc) as [->| ->];
    auto using begins_nil, begins_all.
Qed.

Section Steps.

Variable w : World.
Variable t0 : Trace.
Variable rc : RepoConfig.

Abbreviation B ns stops := (since t0 (calls_before_build ns stops)).
Abbreviation A ns stops adds restarts :=
  (since t0 (calls ns stops adds restarts)).
Abbreviation C := (since t0 (cut_short rc)).
Abbreviation J :=
  (fun e => since t0 (fun evs _ => interrupted rc e evs)).

Ltac run := cbv [ensureStep pullStep skipCheck installStep when mbind call
                 modify pure return_results get_results clock];
            cbn [results trace].

Lemma before_extend (ns stops stops' : list string) (evs' : Trace)
    (sts : list StepResult) (s s' : State) :
  B ns stops s ->
  trace s' = trace s ++ evs' ->
  steps (results s') = steps (results s) ++ sts ->
  stop_calls evs' = stops' ->
  add_calls evs' = [] ->
  restart_calls evs' = [] ->
  exec_events evs' = [] ->
  success (results s') = success (results s) ->
  skipped (results s') = skipped (results s) ->
  B (ns ++ map step sts) (stops ++ stops') s'.
Proof.
  intros (evs & Ht & (Hn & Hs & Ha & Hr & Hf & Hsu & Hk) & He)
         Ht' Hst Hs' Ha' Hr' He' Hsu' Hk'.
  exists (evs ++ evs'). split; [now rewrite Ht', Ht, app_assoc|].
  unfold calls_before_build, calls, names.
  rewrite Hst, map_app, stop_calls_app, add_calls_app, restart_calls_app,
    exec_events_app, Hs, Hs', Ha, Ha', Hr, Hr', He, He', Hsu', Hk'.
  unfold names in Hn. rewrite Hn.
  repeat split; auto.
  apply stops_first_before_build. now rewrite exec_events_app, He, He'.
Qed.

Lemma before_cut (ns stops : list string) (evs' : Trace) (s s' : State) :
  B ns stops s ->
  stops = [] \/ stops = expected_stops rc ->
  trace s' = trace s ++ evs' ->
  stop_calls evs' = [] ->
  add_calls evs' = [] ->
  restart_calls evs' = [] ->
  success (results s') = false \/ skipped (results s') = Some true ->
  C s'.
Proof.
  intros (evs & Ht & (Hn & Hs & Ha & Hr & Hf & Hsu & Hk) & He)
         Hstops Ht' Hs' Ha' Hr' Hend.
  exists (evs ++ evs'). split; [now rewrite Ht', Ht, app_assoc|].
  unfold cut_short.
  rewrite stop_calls_app, add_calls_app, restart_calls_app,
    Hs, Hs', Ha, Ha', Hr, Hr', !app_nil_r.
  repeat split; auto. now apply stops_first_extend.
Qed.

Lemma after_extend (ns stops : list string) (adds adds' : list ScriptConfig)
    (restarts restarts' : list string) (evs' : Trace)
    (sts : list StepResult) (s s' : State) :
  A ns stops adds restarts s ->
  trace s' = trace s ++ evs' ->
  steps (results s') = steps (results s) ++ sts ->
  stop_calls evs' = [] ->
  add_calls evs' = adds' ->
  restart_calls evs' = restarts' ->
  success (results s') = success (results s) ->
  skipped (results s') = skipped (results s) ->
  A (ns ++ map step sts) stops (adds ++ adds') (restarts ++ restarts') s'.
Proof.
  intros (evs & Ht & Hn & Hs & Ha & Hr & Hf & Hsu & Hk)
         Ht' Hst Hs' Ha' Hr' Hsu' Hk'.
  exists (evs ++ evs'). split; [now rewrite Ht', Ht, app_assoc|].
  unfold calls, names.
  rewrite Hst, map_app, stop_calls_app, add_calls_app, restart_calls_app,
    Hs, Hs', Ha, Ha', Hr, Hr', Hsu', Hk', app_nil_r.
  unfold names in Hn. rewrite Hn.
  repeat split; auto. now apply stops_first_extend.
Qed.

(** Thrown before a build command ran. *)
Lemma before_interrupt (ns : list string) (evs' : Trace) (e : string)
    (s s' : State) :
  B ns [] s ->
  trace s' = trace s ++ evs' ->
  begins (stop_calls evs') (expected_stops rc) ->
  add_calls evs' = [] ->
  restart_calls evs' = [] ->
  exec_events evs' = [] ->
  J e s'.
Proof.
  intros (evs & Ht & (Hn & Hs & Ha & Hr & Hf & Hsu & Hk) & He)
         Ht' Hs' Ha' Hr' He'.
  exists (evs ++ evs'). split; [now rewrite Ht', Ht, app_assoc|].
  unfold interrupted.
  rewrite stop_calls_app, add_calls_app, restart_calls_app,
    Hs, Ha, Ha', Hr, Hr'. cbn [app].
  repeat split; auto using begins_nil.
  apply stops_first_before_build. now rewrite exec_events_app, He, He'.
Qed.

(** Thrown by a registration call. *)
Lemma register_interrupt (ns : list string) (ts : TaskServerConfig)
    (rs : list (ScriptConfig * ApiResult)) (sc : ScriptConfig)
    (post : list ScriptConfig) (e : string) (s s' : State) :
  A ns (expected_stops rc) [] [] s ->
  trace s' = trace s ++ map (ev_add ts) rs ++ [EvAdd sc ts (Throw e)] ->
  elements (registerScripts rc) = map fst rs ++ sc :: post ->
  J e s'.
Proof.
  intros (evs & Ht & Hn & Hs & Ha & Hr & Hf & Hsu & Hk) Ht' Hel.
  destruct (calls_of_adds ts rs) as (H1 & H2 & H3).
  exists (evs ++ map (ev_add ts) rs ++ [EvAdd sc ts (Throw e)]).
  split; [now rewrite Ht', Ht, <- app_assoc|].
  unfold interrupted.
  rewrite !stop_calls_app, !add_calls_app, !restart_calls_app,
    Hs, Ha, Hr, H1, H2, H3. cbn [app stop_calls add_calls restart_calls].
  rewrite !app_nil_r.
  split; [apply begins_all|].
  split; [exists post; now rewrite Hel, <- app_assoc|].
  split; [apply begins_nil|].
  split; [right; left; split; [reflexivity|];
          exists (evs ++ map (ev_add ts) rs), sc, ts;
          now rewrite app_assoc|].
  apply stops_first_extend; [exact Hf|].
  now rewrite stop_calls_app, H1.
Qed.

(** Thrown by a restart call. *)
Lemma after_interrupt (ns : list string) (adds : list ScriptConfig)
    (ts : TaskServerConfig) (rs : list (string * ApiResult))
    (n : string) (post : list string) (e : string) (s s' : State) :
  A ns (expected_stops rc) adds [] s ->
  begins adds (elements (registerScripts rc)) ->
  trace s' = trace s ++ map (ev_restart ts) rs ++ [EvRestart n ts (Throw e)] ->
  elements (restartScripts rc) = map fst rs ++ n :: post ->
  J e s'.
Proof.
  intros (evs & Ht & Hn & Hs & Ha & Hr & Hf & Hsu & Hk) Hadds Ht' Hel.
  destruct (calls_of_restarts ts rs) as (H1 & H2 & H3).
  exists (evs ++ map (ev_restart ts) rs ++ [EvRestart n ts (Throw e)]).
  split; [now rewrite Ht', Ht, <- app_assoc|].
  unfold interrupted.
  rewrite !stop_calls_app, !add_calls_app, !restart_calls_app,
    Hs, Ha, Hr, H1, H2, H3. cbn [app stop_calls add_calls restart_calls].
  rewrite !app_nil_r.
  split; [apply begins_all|].
  split; [exact Hadds|].
  split; [exists post; now rewrite Hel, <- app_assoc|].
  split; [right; right; exists (evs ++ map (ev_restart ts) rs), n, ts;
          now rewrite app_assoc|].
  apply stops_first_extend; [exact Hf|].
  now rewrite stop_calls_app, H1.
Qed.

Lemma ensure_calls :
  triple_x (B [] []) (ensureStep w rc) (fun _ => B (ensure_names rc) []) C J.
Proof.
  intros s Hs. run. unfold ensure_names.
  destruct (truthy_str (repoUrl rc)); [|assumption].
  destruct (e_success _) eqn:E; cbn [negb].
  - eapply (before_extend [] [] [] [_] [EnsureRepoStep _] s);
      [exact Hs|reflexivity..].
  - eapply (before_cut [] [] [_] s); [exact Hs|auto|reflexivity..|].
    left. reflexivity.
Qed.

Lemma pull_calls (ns : list string) :
  triple_x (B ns []) (pullStep w rc) (fun _ => B (ns ++ ["git-pull"]) [])
           C J.
Proof.
  intros s Hs. unfold pullStep. rewrite mbind_eq, await_eq.
  destruct (gitPull w (trace s) (path rc) (branch rc)) as [p|e].
  - run. destruct (p_success p) eqn:E; cbn [negb].
    + eapply (before_extend ns [] [] [_] [GitPullStep _] s);
        [exact Hs|reflexivity..].
    + eapply (before_cut ns [] [_] s); [exact Hs|auto|reflexivity..|].
      left. reflexivity.
  - eapply (before_interrupt ns [_] e s);
      [exact Hs|reflexivity|apply begins_nil|reflexivity..].
Qed.

Lemma skip_calls (ns : list string) (startTime : Z) (p : PullResult) :
  triple_x (B ns []) (skipCheck w startTime p)
           (fun wc s => B ns [] s /\ wasClonedOf (results s) = wc) C J.
Proof.
  intros s Hs. run.
  destruct (negb (p_changed p) && _).
  - eapply (before_cut ns [] [] s); [exact Hs|auto|..];
      cbn [results trace]; rewrite ?app_nil_r; auto.
  - split; [|reflexivity]. destruct s; assumption.
Qed.

Lemma install_calls (ns : list string) (wc : option bool) :
  triple_x (fun s => B ns [] s /\ wasClonedOf (results s) = wc)
           (installStep w rc)
           (fun _ s => B (ns ++ ["install-deps"]) [] s
                       /\ wasClonedOf (results s) = wc)
           C J.
Proof.
  intros s (Hs & Hwc). run.
  destruct (wantsInstall rc).
  - destruct (negb (i_success _) && _) eqn:E.
    + eapply (before_cut ns [] [_] s); [exact Hs|auto|reflexivity..|].
      left. reflexivity.
    + split.
      * eapply (before_extend ns [] [] [_] [InstallDepsStep _] s);
          [exact Hs|reflexivity..].
      * cbn [results]. now rewrite wasClonedOf_push.
  - split.
    + apply (before_extend ns [] [] [] [InstallDepsSkipped] s);
        cbn [results trace]; rewrite ?app_nil_r; auto.
    + cbn [results]. now rewrite wasClonedOf_push.
Qed.

Lemma commands_calls (ns : list string) (wc : option bool) :
  triple_x (fun s => B ns [] s /\ wasClonedOf (results s) = wc)
           (eval (getBuildCommands rc))
           (fun cmds s => cmds = declared (build rc)
                          /\ B ns [] s /\ wasClonedOf (results s) = wc)
           C J.
Proof.
  intros s (Hs & Hwc). unfold eval.
  destruct (getBuildCommands rc) as [cmds|e] eqn:E.
  - split; [now apply getBuildCommands_declared|now split].
  - apply (before_interrupt ns [] e s); cbn [stop_calls];
      rewrite ?app_nil_r; auto using begins_nil.
Qed.

Lemma stop_calls_step (ns : list string) (wc : option bool)
    (ts : TaskServerConfig) :
  triple_x (fun s => B ns [] s /\ wasClonedOf (results s) = wc)
           (stopStep w rc ts (declared (build rc)))
           (fun _ s => B ns (expected_stops rc) s
                       /\ wasClonedOf (results s) = wc)
           C J.
Proof.
  intros s (Hs & Hwc). unfold stopStep, when, expected_stops.
  destruct (nonempty (restartScripts rc) && _) eqn:Hcond; [|now split].
  destruct (stop_loop w ts (elements (restartScripts rc)) s)
    as [(rs & s' & -> & Hr & Ht & Hm)
       |(rs & s' & pre & n & post & e & Hel & -> & Hr & Ht & Hm & _)].
  - destruct (calls_of_stops ts rs) as (H1 & H2 & H3).
    destruct (lifecycle_stops ts rs) as (_ & He & _).
    split; [|now rewrite Hr].
    rewrite <- (app_nil_r ns). rewrite <- Hm.
    apply (before_extend ns [] (map fst rs) (map (ev_stop ts) rs) [] s);
      rewrite ?Hr, ?app_nil_r; auto.
  - destruct (calls_of_stops ts rs) as (H1 & H2 & H3).
    destruct (lifecycle_stops ts rs) as (_ & He & _).
    apply (before_interrupt ns
             (map (ev_stop ts) rs ++ [EvStop n ts (Throw e)]) e s);
      [exact Hs|exact Ht|..];
      rewrite ?stop_calls_app, ?add_calls_app, ?restart_calls_app,
        ?exec_events_app, ?H1, ?H2, ?H3, ?He; try reflexivity.
    unfold expected_stops. rewrite Hcond, Hel, Hm. exists post.
    cbn [stop_calls]. now rewrite <- app_assoc.
Qed.

Lemma build_calls (ns : list string) (wc : option bool) :
  triple_x (fun s => B ns (expected_stops rc) s
                     /\ wasClonedOf (results s) = wc)
           (buildStep w rc (declared (build rc)))
           (fun _ s => A (ns ++ ["build"]) (expected_stops rc) [] [] s
                       /\ wasClonedOf (results s) = wc)
           C J.
Proof.
  intros s (Hs & Hwc). unfold buildStep.
  destruct (0 <? List.length (declared (build rc)))%nat.
  - rewrite mbind_eq.
    destruct (build_loop w rc (declared (build rc)) [] s)
      as [(xs & rs & s' & -> & Hr & Ht & _)
         |(xs & rs & s' & pre & c & post & msg & _ & -> & Hr & Ht & _)].
    + destruct (calls_of_execs xs) as (H1 & H2 & H3).
      split.
      * destruct Hs as (evs & Ht0 & Hc & _).
        apply (after_extend ns (expected_stops rc) [] [] [] []
                 (map ev_exec xs) [BuildStep ([] ++ rs)] s);
          [now exists evs|cbn [modify results trace steps push success
                              skipped]; rewrite ?Hr; auto..].
      * cbn [modify results]. rewrite wasClonedOf_push, Hr; auto.
    + destruct (calls_of_execs (xs ++ [(plan w rc c, ExecError msg)]))
        as (H1 & H2 & H3).
      eapply (before_cut ns (expected_stops rc) _ s);
        [exact Hs|auto|exact Ht|auto..].
      left. now rewrite Hr.
  - split.
    + destruct Hs as (evs & Ht0 & Hc & _).
      apply (after_extend ns (expected_stops rc) [] [] [] [] []
               [BuildSkipped] s);
        [now exists evs|cbn [modify results trace steps push success
                            skipped]; rewrite ?app_nil_r; auto..].
    + cbn [modify results]. now rewrite wasClonedOf_push.
Qed.

Lemma register_calls (ns : list string) (wc : option bool)
    (ts : TaskServerConfig) :
  triple_x (fun s => A ns (expected_stops rc) [] [] s
                     /\ wasClonedOf (results s) = wc)
           (registerStep w rc ts wc)
           (fun _ s => A (ns ++ register_names rc wc) (expected_stops rc)
                         (expected_adds rc wc) [] s
                       /\ wasClonedOf (results s) = wc)
           C J.
Proof.
  intros s (Hs & Hwc). unfold registerStep, when, register_names, expected_adds.
  destruct (truthy_bool wc && _).
  - rewrite mbind_eq.
    destruct (register_loop w ts (elements (registerScripts rc)) [] s)
      as [(rs & s' & -> & Hr & Ht & Hm)
         |(rs & s' & pre & sc & post & e & Hel & -> & Hr & Ht & Hm & _)].
    + destruct (calls_of_adds ts rs) as (H1 & H2 & H3).
      split.
      * rewrite <- Hm.
        apply (after_extend ns (expected_stops rc) [] (map fst rs) [] []
                 (map (ev_add ts) rs)
                 [RegisterScriptsStep
                    ([] ++ map (fun x => (sc_name (fst x), snd x)) rs)] s);
          cbn [modify results trace steps push success skipped];
          rewrite ?Hr; auto.
      * cbn [modify results]. rewrite wasClonedOf_push, Hr; auto.
    + apply (register_interrupt ns ts rs sc post e s); auto.
      now rewrite Hm.
  - rewrite app_nil_r. now split.
Qed.

Lemma restart_calls_step (ns : list string) (adds : list ScriptConfig)
    (wc : option bool) (ts : TaskServerConfig) :
  begins adds (elements (registerScripts rc)) ->
  triple_x (fun s => A ns (expected_stops rc) adds [] s
                     /\ wasClonedOf (results s) = wc)
           (restartStep w rc ts)
           (fun _ s => A (ns ++ ["restart-scripts"]) (expected_stops rc)
                         adds (elements (restartScripts rc)) s
                       /\ wasClonedOf (results s) = wc)
           C J.
Proof.
  intros Hadds s (Hs & Hwc). unfold restartStep.
  destruct (nonempty (restartScripts rc)) eqn:N.
  - rewrite mbind_eq.
    destruct (restart_loop w ts (elements (restartScripts rc)) [] s)
      as [(rs & s' & -> & Hr & Ht & Hm)
         |(rs & s' & pre & n & post & e & Hel & -> & Hr & Ht & Hm & _)].
    + destruct (calls_of_restarts ts rs) as (H1 & H2 & H3).
      split.
      * rewrite <- Hm. rewrite <- (app_nil_r adds).
        apply (after_extend ns (expected_stops rc) adds [] [] (map fst rs)
                 (map (ev_restart ts) rs) [RestartScriptsStep ([] ++ rs)] s);
          cbn [modify results trace steps push success skipped];
          rewrite ?Hr; auto.
      * cbn [modify results]. rewrite wasClonedOf_push, Hr; auto.
    + apply (after_interrupt ns adds ts rs n post e s); auto.
      now rewrite Hm.
  - assert (He : elements (restartScripts rc) = []).
    { destruct (restartScripts rc) as [[|]|]; [reflexivity|discriminate
                                              |reflexivity]. }
    rewrite He. split.
    + rewrite <- (app_nil_r adds).
      apply (after_extend ns (expected_stops rc) adds [] [] [] []
               [RestartScriptsSkipped] s);
        cbn [modify results trace steps push success skipped];
        rewrite ?app_nil_r; auto.
    + cbn [modify results]. now rewrite wasClonedOf_push.
Qed.

Lemma deploy_calls (cfg : config) :
  triple_x (B [] []) (deploy w cfg rc)
           (fun _ s => exists wc,
              A (full_names rc wc) (expected_stops rc) (expected_adds rc wc)
                (elements (restartScripts rc)) s
              /\ wasClonedOf (results s) = wc)
           C J.
Proof.
  unfold deploy.
  eapply triple_x_bind; [apply clock_x|intros startTime].
  eapply triple_x_bind; [apply ensure_calls|intros ?].
  eapply triple_x_bind; [apply pull_calls|intros p].
  eapply triple_x_bind; [apply skip_calls|intros wc].
  eapply triple_x_bind; [apply install_calls|intros ?].
  eapply triple_x_bind; [apply commands_calls|intros cmds].
  apply triple_x_fact. intros ->.
  eapply triple_x_bind; [apply stop_calls_step|intros ?].
  eapply triple_x_bind; [apply build_calls|intros ?].
  eapply triple_x_bind; [apply register_calls|intros ?].
  eapply triple_x_bind;
    [apply restart_calls_step, begins_expected_adds|intros ?].
  intros s (Hs & Hwc). cbn [mbind clock modify].
  exists wc. split; [|exact Hwc].
  destruct Hs as (evs & Ht & Hn & Hrest).
  exists evs. split; [exact Ht|]. split; [|exact Hrest].
  unfold names in *. cbn [results steps set_duration]. rewrite Hn.
  unfold full_names. now rewrite <- !app_assoc.
Qed.

End Steps.

(** The calls of a deployment: one that returns a result ran to its
    end or was cut short; one that throws was interrupted. *)
Lemma run_calls (w : World) (cfg : config) (rc : RepoConfig)
    (trig : option TriggerInfo) (t0 : Trace) :
  exists evs : Trace,
    snd (run w cfg rc trig t0) = t0 ++ evs
    /\ match fst (run w cfg rc trig t0) with
       | Normal r =>
           calls (full_names rc (wasClonedOf r)) (expected_stops rc)
             (expected_adds rc (wasClonedOf r))
             (elements (restartScripts rc)) evs r
           \/ cut_short rc evs r
       | Throw e => interrupted rc e evs /\ rejected w cfg rc t0 evs e
       end.
Proof.
  pose proof (deploy_calls w t0 rc cfg
                {| results := initial rc trig; trace := t0 |}) as Hd.
  destruct (run_rejection w cfg rc trig t0) as (evs0 & Ht0 & Hrej).
  revert Ht0 Hrej. unfold run.
  destruct (deploy w cfg rc {| results := initial rc trig; trace := t0 |})
    as [f s].
  cbn [fst snd]. intros Ht0 Hrej.
  assert (H0 : since t0 (calls_before_build [] [])
                 {| results := initial rc trig; trace := t0 |}).
  { exists []. split; [now rewrite app_nil_r|].
    repeat split; try reflexivity. now exists [], []. }
  specialize (Hd H0). destruct f.
  - destruct Hd as (wc & (evs & Ht & Hc) & <-). exists evs. auto.
  - destruct Hd as (evs & Ht & Hc). exists evs. auto.
  - destruct Hd as (evs & Ht & Hc). exists evs.
    rewrite (same_events t0 evs evs0 (trace s) Ht Ht0) in *. auto.
Qed.

(** X8. A deployment that runs to its end (it returns a result with
    [success = true] that is not skipped) records its steps in this
    order: [ensure-repo] if a repository URL is configured, [git-pull],
    [install-deps], [build], [register-scripts] if the repository was
    freshly cloned and scripts to register are configured,
    [restart-scripts]. *)
Theorem steps_of_completed_deployment (w : World) (cfg : config)
    (rc : RepoConfig) (trig : option TriggerInfo) (t0 : Trace)
    (r : Results) :
  fst (run w cfg rc trig t0) = Normal r ->
  success r = true ->
  skipped r = None ->
  map step (steps r)
  = (if truthy_str (repoUrl rc) then ["ensure-repo"%string] else [])
    ++ ["git-pull"; "install-deps"; "build"]%string
    ++ (if truthy_bool (wasClonedOf r) && nonempty (registerScripts rc)
        then ["register-scripts"%string] else [])
    ++ ["restart-scripts"%string].
Proof.
  intros Hrun Hs Hk.
  destruct (run_calls w cfg rc trig t0) as (evs & _ & Hcase).
  rewrite Hrun in Hcase.
  destruct Hcase as [(Hn & _)|([Hf|Hf] & _)].
  - exact Hn.
  - rewrite Hs in Hf. discriminate.
  - rewrite Hk in Hf. discriminate.
Qed.



Import Examples.

Lemma steps_of_completed_deployment_witness :
  exists r : Results,
    fst (run (world_with_stop api_ok) cfg_open repo_app None []) = Normal r
    /\ map step (steps r)
       = ["git-pull"; "install-deps"; "build"; "restart-scripts"]%string.
Proof.
  eexists. split; [reflexivity|].
  exact (steps_of_completed_deployment (world_with_stop api_ok) cfg_open
           repo_app None [] _ eq_refl eq_refl eq_refl).
Defined.



End Calls.

Module BuildConfigFacts.

Import Config Deployer DeploySpec DeployShape.

Local Open Scope list_scope.

Lemma map_filter_cwd (items : list BuildItem) (cmds : list BuildCommand)
    (c : BuildCommand) :
  map_filter items = Normal cmds -> In c cmds -> cwd c <> Some ""%string.
Proof.
  revert cmds. induction items as [|item items IH]; intros cmds; simpl.
  - intros [= <-] [].
  - destruct item as [s|[cmd|] d| |]; simpl; try discriminate;
      destruct (map_filter items) as [cs|e]; simpl;
        try discriminate.
    + intros [= <-] [<-|H]; [discriminate|eauto].
    + destruct (cmd =? "")%string; simpl; intros [= <-]; [eauto|].
      intros [<-|H]; [|eauto]. simpl.
      destruct d as [x|]; simpl; [|discriminate].
      destruct (String.eqb_spec x ""); simpl; [discriminate|congruence].
    + destruct (cmd =? "")%string; simpl; discriminate.
    + intros [= <-]. eauto.
    + intros [= <-]. eauto.
Qed.

Lemma map_filter_length (items : list BuildItem)
    (cmds : list BuildCommand) :
  map_filter items = Normal cmds -> List.length cmds <= List.length items.
Proof.
  revert cmds. induction items as [|item items IH]; intros cmds; simpl.
  - intros [= <-]. simpl. lia.
  - destruct (normalize item) as [c|e]; simpl; [|discriminate].
    destruct (map_filter items) as [cs|e]; simpl; [|discriminate].
    specialize (IH cs eq_refl).
    destruct c; intros [= <-]; simpl; lia.
Qed.


(** X12. Build commands come out normalised: whenever
    [getBuildCommands] returns a list, it has never more commands than
    configured entries and no command with an empty [cwd] (an empty or
    missing [cwd] means the repository path); and it returns the empty
    list when [build] is absent, an empty string, or an object without
    a usable [command] or [commands]. *)
Theorem build_commands_normalised (rc : RepoConfig) :
  (forall (cmds : list BuildCommand) (c : BuildCommand),
      getBuildCommands rc = Normal cmds ->
      In c cmds -> cwd c <> Some ""%string)
  /\ (forall (cmds : list BuildCommand) (items : list BuildItem),
        getBuildCommands rc = Normal cmds ->
        build rc = BuildArray items ->
        List.length cmds <= List.length items)
  /\ (build rc = BuildAbsent \/ build rc = BuildString ""
      \/ (exists d, build rc = BuildObject None d None)
      \/ (exists d, build rc = BuildObject (Some ""%string) d None) ->
      getBuildCommands rc = Normal []).
Proof.
  unfold getBuildCommands. repeat split.
  - intros cmds c. destruct (build rc) as [|s|cmd d cs|items].
    + intros [= <-] [].
    + destruct (negb (truthy_str (Some s))); intros [= <-]; simpl;
        [tauto|].
      intros [<-|[]]. discriminate.
    + destruct (truthy_str cmd).
      * intros [= <-] [<-|[]]. simpl.
        destruct d as [x|]; simpl; [|discriminate].
        destruct (String.eqb_spec x ""); simpl; [discriminate|congruence].
      * destruct cs; [apply map_filter_cwd|intros [= <-] []].
    + apply map_filter_cwd.
  - intros cmds items H E. rewrite E in H. now apply map_filter_length.
  - intros [->|[->|[(d & ->)|(d & ->)]]]; reflexivity.
Qed.

Import Examples.


Lemma build_commands_normalised_witness :
  getBuildCommands (with_build repo_x (BuildString "")) = Normal [].
Proof.
  apply (proj2 (proj2 (build_commands_normalised
                         (with_build repo_x (BuildString ""))))).
  right. left. reflexivity.
Defined.

(** X13. [expandPath] changes only paths that are [~] or start with
    [~/]: a path that does not start with a tilde (an absolute or a
    relative path, or the empty path) is returned as it is, [~] becomes
    the home directory, [~/rest] becomes the home directory joined with
    [rest], and a path such as [~user] is returned as it is. *)
Theorem expandPath_tilde_only (h : string) (j : string -> string -> string)
    (p : string) :
  (startsWith p "~" = false -> expandPath h j p = p)
  /\ expandPath h j "~" = h
  /\ (forall rest : string, expandPath h j ("~/" ++ rest)%string = j h rest)
  /\ (startsWith p "~/" = false -> p <> "~"%string ->
      expandPath h j p = p).
Proof.
  split; [|split; [reflexivity|split; [intros rest; now destruct rest|]]].
  - destruct p as [|c p]; [reflexivity|].
    unfold expandPath, startsWith. cbn [String.prefix String.eqb].
    destruct (ascii_dec "~" c) as [<-|Hc]; [now destruct p|].
    intros Hfalse. clear Hfalse.
    destruct (Ascii.eqb_spec c "~") as [Heq|Hne];
      [symmetry in Heq; contradiction|reflexivity].
  - intros Hs Hp. unfold expandPath. rewrite Hs.
    apply String.eqb_neq in Hp. rewrite Hp.
    now destruct (p =? "")%string eqn:E; [apply String.eqb_eq in E|].
Qed.

Lemma expandPath_tilde_only_witness :
  expandPath "/home/u" (fun a b => a ++ "/" ++ b)%string "/srv/app"
  = "/srv/app"%string.
Proof.
  exact (proj1 (expandPath_tilde_only "/home/u"
                  (fun a b => a ++ "/" ++ b)%string "/srv/app") eq_refl).
Defined.

End BuildConfigFacts.

(* ================================================================== *)
(** * Git operations *)
(* ================================================================== *)

Module GitFacts.

Import Config Eff Git GitSpec.

Local Open Scope list_scope.

Lemma pair_nil {A B} (a : A) (t : list B) : (a, t) = (a, t ++ []).
Proof. now rewrite app_nil_r. Qed.

Ltac io := cbv [ensureRepo isGitRepo gitClone gitPull checkForUpdates
                getCurrentCommit exists_ bind try_catch ask perform ret lift].

Ltac split_on_calls w :=
  repeat (match goal with
          | |- context [existsSync w ?t ?p] =>
              destruct (existsSync w t p) eqn:?
          | |- context [mkdirSync w ?t ?p] =>
              destruct (mkdirSync w t p) as [[]|?] eqn:?
          | |- context [simpleGit w ?t ?p] =>
              destruct (simpleGit w t p) as [[]|?] eqn:?
          | |- context [clone w ?t ?u ?p ?b] =>
              destruct (clone w t u p b) as [[]|?] eqn:?
          | |- context [fetch w ?t ?p ?r ?b] =>
              destruct (fetch w t p r b) as [[]|?] eqn:?
          | |- context [status w ?t ?p] =>
              destruct (status w t p) as [?|?] eqn:?
          | |- context [checkout w ?t ?p ?b] =>
              destruct (checkout w t p b) as [[]|?] eqn:?
          | |- context [pull w ?t ?p ?r ?b] =>
              destruct (pull w t p r b) as [?|?] eqn:?
          | |- context [log w ?t ?p] =>
              destruct (log w t p) as [?|?] eqn:?
          | |- context [if ?x then _ else _] => destruct x eqn:?
          end; cbv beta iota zeta; cbn [negb]).

Ltac unneg :=
  repeat match goal with
         | H : negb _ = false |- _ => apply negb_false_iff in H
         | H : negb _ = true |- _ => apply negb_true_iff in H
         end.

Ltac same_run :=
  first [ apply pair_nil
        | rewrite <- ?app_assoc; cbn [app]; reflexivity ].

Section Ops.

Variable w : World.


Ltac ends_with :=
  match goal with
  | |- exists before ev, ?l = _ /\ _ =>
      exists (removelast l), (last l (ExistsSync "" true)); cbn
  end.

(** X15. [gitClone] never throws.  It creates a directory only for a
    non-empty parent path that was just reported missing; the clone is
    its last interaction, made with the given URL, the expanded path
    and the branch, and only after everything before it returned; and
    a failure reports the message of the interaction that threw. *)
Theorem clone_prepares_parent :
  forall (repoUrl repoPath branch : string) (t : Trace),
  exists (r : EnsureResult) (evs : Trace),
    gitClone w repoUrl repoPath branch t = (Normal r, t ++ evs)
    /\ (forall d res, In (MkdirSync d res) evs ->
          d = parentDir (expand w repoPath) /\ d <> ""%string
          /\ In (ExistsSync d false) evs)
    /\ (forall u q b res, In (Clone u q b res) evs ->
          u = repoUrl /\ q = expand w repoPath /\ b = branch
          /\ exists before, evs = before ++ [Clone u q b res]
                            /\ forallb returned before = true)
    /\ (en_success r = true <-> existsb clone_ok evs = true)
    /\ (en_success r = false ->
          exists before ev,
            evs = before ++ [ev] /\ forallb returned before = true
            /\ threw ev = en_message r /\ en_message r <> None
            /\ en_cloned r = Some false).
Proof.
  intros repoUrl repoPath branch t. io. split_on_calls w.
  all: eexists; eexists; (split; [same_run|]).
  all: unneg; cbn.
  all: split; [|split; [|split]].
  all: try (intros d res Hin; cbn in Hin;
            repeat match type of Hin with
                   | _ \/ _ => destruct Hin as [Hin|Hin]; try discriminate Hin
                   end;
            try contradiction;
            injection Hin as <- <-;
            (split; [reflexivity|
             split; [now apply String.eqb_neq|cbn; tauto]])).
  all: try (intros u q b res Hin; cbn in Hin;
            repeat match type of Hin with
                   | _ \/ _ => destruct Hin as [Hin|Hin]; try discriminate Hin
                   end;
            try contradiction;
            injection Hin as <- <- <- <-;
            (split; [reflexivity|split; [reflexivity|split; [reflexivity|]]]);
            match goal with
            | |- exists before, ?l = _ /\ _ =>
                exists (removelast l); cbn; now split
            end).
  all: try (split; intros H; try discriminate H; reflexivity).
  all: intros H; try discriminate H.
  all: ends_with; repeat split; congruence.
Qed.

Ltac member Hin :=
  cbn in Hin;
  repeat match type of Hin with
         | _ \/ _ => destruct Hin as [Hin|Hin]; try discriminate Hin
         end;
  try contradiction.

(** X16. [gitPull] throws exactly when the [simpleGit] constructor
    does, and then does nothing else.  Otherwise it returns a result:
    success means every operation returned; a failure carries the
    message of the operation that threw, the last one made; and
    [changed] is set exactly when the pull returned a summary with a
    non-zero counter. *)
Theorem gitPull_outcome :
  forall (repoPath branch : string) (t : Trace),
  let p := expand w repoPath in
  match simpleGit w t (Some p) with
  | Throw e =>
      gitPull w repoPath branch t
      = (Throw e, t ++ [SimpleGit (Some p) (Throw e)])
  | Normal _ =>
      exists (r : PullResult) (evs : Trace),
        gitPull w repoPath branch t
        = (Normal r, t ++ SimpleGit (Some p) (Normal tt) :: evs)
        /\ (pl_success r = true <-> forallb returned evs = true)
        /\ (pl_success r = false ->
              exists before ev,
                evs = before ++ [ev] /\ forallb returned before = true
                /\ threw ev = Some (pl_message r))
        /\ (pl_changed r = true <->
              exists out, In (Pull p "origin" branch (Normal out)) evs
                          /\ no_change (summary out) = false)
        /\ (pl_changed r = true -> pl_success r = true)
  end.
Proof.
  intros repoPath branch t p. subst p. io.
  destruct (simpleGit w t (Some (expand w repoPath))) as [[]|e] eqn:Hopen;
    [|reflexivity].
  split_on_calls w.
  all: eexists; eexists; (split; [same_run|]).
  all: unneg; cbn; unfold no_change.
  all: split; [|split; [|split]].
  all: try (split; intros H; try discriminate H; reflexivity).
  all: try (intros H; try discriminate H; try reflexivity;
            ends_with; repeat split; congruence).
  all: try (split; [intros H; try discriminate H|
                    intros [out [Hin Hz]]; member Hin]).
  all: try (injection Hin as <-;
            match goal with
            | H : ?a = true, Hz : ?a = false |- _ => congruence
            end).
  all: eexists; (split; [cbn; tauto|assumption]).
Qed.


(** X18. [checkForUpdates] and [getCurrentCommit] only look: they open
    a handle and fetch, read the status or the log, and never check
    out, pull, clone or create a directory.  [checkForUpdates] throws
    only when the constructor does; it reports updates exactly when
    the status returned with a positive [behind], and a failed check
    never reports updates. *)
Theorem checks_only_look :
  forall (repoPath branch : string) (t : Trace),
  let p := expand w repoPath in
  (exists (r : completion UpdateStatus) (evs : Trace),
     checkForUpdates w repoPath branch t = (r, t ++ evs)
     /\ forallb read_only evs = true
     /\ match r with
        | Throw e => simpleGit w t (Some p) = Throw e
        | Normal u =>
            (up_hasUpdates u = true <->
               exists st, In (Status p (Normal st)) evs
                          /\ (0 < behind st)%Z)
            /\ (up_success u = false ->
                  up_hasUpdates u = false /\ up_error u <> None)
        end)
  /\ (exists (r : completion (option string)) (evs : Trace),
        getCurrentCommit w repoPath t = (r, t ++ evs)
        /\ forallb read_only evs = true
        /\ r <> Normal (Some ""%string)).
Proof.
  intros repoPath branch t p. subst p. split.
  - io. split_on_calls w.
    all: eexists; eexists; (split; [same_run|]).
    all: cbn; (split; [reflexivity|]); try assumption; try reflexivity.
    all: split; [|intros H; try discriminate H; split; congruence].
    all: split; [intros H; try discriminate H|
                 intros [st [Hin Hpos]]; member Hin].
    + apply Z.ltb_lt in H. eexists; split; [right; right; now left|exact H].
    + injection Hin as <-. now apply Z.ltb_lt.
  - io. split_on_calls w.
    all: eexists; eexists; (split; [same_run|]).
    all: cbn; (split; [reflexivity|]); try congruence.
    intros H. injection H as ->. discriminate.
Qed.

End Ops.

(** ** The parent directory of the clone target *)

Lemma includes_step (s pat : string) :
  includes s pat =
  if String.prefix pat s then true
  else match s with
       | EmptyString => false
       | String _ s' => includes s' pat
       end.
Proof. destruct s; reflexivity. Qed.

Lemma lastIndexOf_absent (n : string) (c : ascii) (i acc : Z) :
  includes n (String c "") = false -> lastIndexOf_from n c i acc = acc.
Proof.
  revert i acc. induction n as [|x n IH]; intros i acc H; [reflexivity|].
  rewrite includes_step in H. cbn [String.prefix] in H.
  cbn [lastIndexOf_from].
  destruct (ascii_dec c x) as [->|Hne].
  - now destruct n.
  - destruct (Ascii.eqb_spec x c) as [->|_]; [contradiction|].
    now apply IH.
Qed.

Lemma lastIndexOf_last (d n : string) (c : ascii) (i acc : Z) :
  includes n (String c "") = false ->
  lastIndexOf_from (d ++ String c n) c i acc
  = (i + Z.of_nat (String.length d))%Z.
Proof.
  intros H. revert i acc. induction d as [|x d IH]; intros i acc.
  - cbn [String.append lastIndexOf_from String.length].
    rewrite Ascii.eqb_refl, lastIndexOf_absent by exact H. cbn. lia.
  - cbn [String.append lastIndexOf_from String.length]. rewrite IH. lia.
Qed.

Lemma substring_front (d rest : string) :
  String.substring 0 (String.length d) (d ++ rest) = d.
Proof.
  induction d as [|x d IH]; cbn.
  - now destruct rest.
  - now rewrite IH.
Qed.

(** X19. For a target [d/n] whose last component [n] has no slash,
    the directory that [gitClone] checks and creates is [d]; for a
    target without a slash, or directly under the root, there is no
    directory to create. *)
Theorem parentDir_of_target :
  forall (d n : string),
    includes n "/" = false ->
    parentDir (d ++ "/" ++ n) = d
    /\ parentDir n = ""%string
    /\ parentDir ("/" ++ n) = ""%string.
Proof.
  intros d n H. unfold parentDir, lastIndexOf, substring0.
  assert (Hd : forall d0, lastIndexOf_from (d0 ++ "/" ++ n) "/" 0 (-1)
                          = Z.of_nat (String.length d0)).
  { intros d0. change ("/" ++ n)%string with (String "/" n).
    now rewrite lastIndexOf_last. }
  split; [|split].
  - rewrite Hd, Nat2Z.id. apply substring_front.
  - rewrite lastIndexOf_absent by exact H. cbn. now destruct n.
  - specialize (Hd ""%string). cbn [String.append] in Hd.
    cbn [String.append]. rewrite Hd. reflexivity.
Qed.

Import Fixtures.

(** On a fresh machine the clone target is expanded, its parent is
    created, and the repository is cloned. *)
Example ensureRepo_on_fresh_machine :
  ensureRepo git_fresh "~/apps/site" (Some "git@host:site.git"%string)
    "main" []
  = (Normal {| en_success := true; en_cloned := Some true;
               en_existed := None;
               en_message :=
                 Some "Cloned git@host:site.git to ~/apps/site"%string;
               en_path := Some "~/apps/site"%string; en_error := None |},
     [ExistsSync "/home/deploy/apps/site" false;
      ExistsSync "/home/deploy/apps" false;
      MkdirSync "/home/deploy/apps" (Normal tt);
      SimpleGit None (Normal tt);
      Clone "git@host:site.git" "/home/deploy/apps/site" "main"
        (Normal tt)]).
Proof. reflexivity. Qed.

(** A pull from another branch checks out first and reports the
    number of changes. *)
Example gitPull_from_another_branch :
  gitPull git_fresh "/srv/site" "main" []
  = (Normal {| pl_success := true; pl_changed := true;
               pl_message := "Pulled 1 changes";
               pl_files := Some ["README.md"%string];
               pl_summary := Some {| changes := 1; insertions := 3;
                                     deletions := 0 |};
               pl_error := None |},
     [SimpleGit (Some "/srv/site"%string) (Normal tt);
      Fetch "/srv/site" "origin" "main" (Normal tt);
      Status "/srv/site"
        (Normal {| current := "dev"; behind := 2; ahead := 0 |});
      Checkout "/srv/site" "main" (Normal tt);
      Pull "/srv/site" "origin" "main"
        (Normal {| files := ["README.md"%string];
                   summary := {| changes := 1; insertions := 3;
                                 deletions := 0 |} |})]).
Proof. reflexivity. Qed.

Lemma parentDir_of_target_witness :
  includes "site" "/" = false
  /\ parentDir "/srv/apps/site" = "/srv/apps"%string.
Proof.
  split; [reflexivity|].
  exact (proj1 (parentDir_of_target "/srv/apps" "site" eq_refl)).
Defined.

End GitFacts.

(* ================================================================== *)
(** * Dependency installation *)
(* ================================================================== *)

Module InstallerFacts.

Import Config Eff Installer InstallerSpec.

Local Open Scope list_scope.

Lemma run_nil {A B} (a : A) (t : list B) : (a, t) = (a, t ++ []).
Proof. now rewrite app_nil_r. Qed.

Ltac io := cbv [installDependencies installNpm installBun installYarn
                installPip exists_ exec bind try_catch ask perform ret lift
                fst snd].

Ltac split_on_calls w :=
  repeat (match goal with
          | |- context [existsSync w ?t ?p] =>
              destruct (existsSync w t p) eqn:?
          | |- context [execAsync w ?t ?c ?d] =>
              destruct (execAsync w t c d) as [?|?] eqn:?
          | |- context [if ?x then _ else _] => destruct x eqn:?
          end; cbv beta iota zeta; cbn [negb fst snd]).

Ltac same_run :=
  first [ apply run_nil
        | rewrite <- ?app_assoc; cbn [app]; reflexivity ].

Ltac eqs :=
  repeat match goal with
         | H : (_ =? _)%string = true |- _ => apply String.eqb_eq in H
         | H : (_ =? _)%string = false |- _ => apply String.eqb_neq in H
         end.

Ltac member Hin :=
  cbn in Hin;
  repeat match type of Hin with
         | _ \/ _ => destruct Hin as [Hin|Hin]; try discriminate Hin
         end;
  try contradiction.

Section Install.

Variable w : World.

(** X20. [installDependencies] never throws.  A skipped installation
    is a success that ran no command; every command runs in the
    expanded repository directory; nothing follows a command that
    failed; the result is a failure exactly when a command failed or
    the configured type is unknown; and a failed command's message is
    the reported error. *)
Theorem installation_outcome :
  forall (repoPath : string) (depConfig : option Dependencies) (t : Trace),
  exists (r : InstallResult) (evs : Trace),
    installDependencies w repoPath depConfig t = (Normal r, t ++ evs)
    /\ (in_skipped r = Some true ->
          in_success r = true /\ commands evs = [])
    /\ (forall d, In d (cwds evs) -> d = workdir w repoPath)
    /\ forallb returned (removelast evs) = true
    /\ (in_success r = false <->
          existsb exec_threw evs = true
          \/ exists d, depConfig = Some d
                       /\ dep_type d <> "none"%string
                       /\ known_type (dep_type d) = false)
    /\ (forall c d e, In (Exec c d (Throw e)) evs -> in_error r = Some e).
Proof.
  intros repoPath depConfig t. unfold workdir. io.
  destruct depConfig as [d|].
  2: { exists skip, []. split; [apply run_nil|]. cbn.
       repeat split; try discriminate; try contradiction.
       intros [H|[d [H _]]]; discriminate. }
  split_on_calls w.
  all: eexists; eexists; (split; [same_run|]).
  all: unfold known_type; cbn.
  all: split; [intros H; try discriminate H; now split|].
  all: split; [intros d0 Hin; member Hin; now subst d0|].
  all: split; [reflexivity|].
  all: split; [|intros c0 d0 e0 Hin; member Hin; congruence].
  all: split;
    [ intros H; try discriminate H; try (now left);
      right; exists d; eqs; repeat split; try assumption;
      repeat match goal with
             | H : _ <> _ |- _ => apply String.eqb_neq in H; rewrite H
             end; reflexivity
    | intros [H|[d0 [Hd [Hn Hk]]]]; try discriminate H; try reflexivity;
      injection Hd as <-; eqs;
      repeat match goal with
             | H : dep_type _ = _ |- _ => rewrite H in *
             end;
      try discriminate Hk; try congruence ].
Qed.

(** X21. For a known dependency type the first thing done is to look
    for the manifest ([requirements.txt] for pip, [package.json]
    otherwise).  Without it the installation is skipped and nothing
    else happens; with it, the JavaScript package managers run the one
    command [<type> install], and the result is a success exactly when
    that command returned. *)
Theorem manifest_decides :
  forall (repoPath : string) (d : Dependencies) (t : Trace),
    known_type (dep_type d) = true ->
    let p := workdir w repoPath in
    let m := join w [p; manifest (dep_type d)] in
    exists (r : InstallResult) (rest : Trace),
      installDependencies w repoPath (Some d) t
      = (Normal r, t ++ ExistsSync m (existsSync w t m) :: rest)
      /\ (existsSync w t m = false -> r = skip /\ rest = [])
      /\ (existsSync w t m = true ->
            in_skipped r = None
            /\ (dep_type d <> "pip"%string ->
                  exists res,
                    rest = [Exec (dep_type d ++ " install") p res]
                    /\ in_success r = Js.returns res)).
Proof.
  intros repoPath d t Hk p m. subst p m. unfold workdir, manifest. io.
  unfold known_type in Hk.
  destruct (dep_type d =? "none")%string eqn:Hnone.
  { apply String.eqb_eq in Hnone. rewrite Hnone in Hk. discriminate. }
  destruct (dep_type d =? "npm")%string eqn:Hnpm;
    [|destruct (dep_type d =? "bun")%string eqn:Hbun;
      [|destruct (dep_type d =? "yarn")%string eqn:Hyarn;
        [|destruct (dep_type d =? "pip")%string eqn:Hpip;
          [|discriminate]]]].
  all: eqs; repeat match goal with
                   | H : dep_type _ = _ |- _ => rewrite H in *
                   end; cbn [String.eqb Ascii.eqb Bool.eqb].
  all: split_on_calls w.
  all: eexists; eexists; (split; [same_run|]).
  all: cbn; split; [intros H; try discriminate H; now split|].
  all: intros H; try discriminate H; (split; [reflexivity|]).
  all: intros Hp; try congruence.
  all: eexists; split; reflexivity.
Qed.

(** X22. A pip installation runs at most two commands, in this order:
    the creation of [.venv], only when [venv] is [auto] and [.venv]
    was reported missing, and one [<pip> install -r requirements.txt],
    where [<pip>] is plain [pip] without a [venv] setting and the
    [bin/pip] or [Scripts/pip] of the designated environment with
    one.  A successful installation reports that environment. *)
Theorem pip_uses_the_venv :
  forall (repoPath : string) (d : Dependencies) (t : Trace),
    dep_type d = "pip"%string ->
    let p := workdir w repoPath in
    exists (r : InstallResult) (evs : Trace),
      installDependencies w repoPath (Some d) t = (Normal r, t ++ evs)
      /\ (exists (create install : list string),
            commands evs = create ++ install
            /\ (create = [] \/ create = ["python3 -m venv .venv"%string])
            /\ (install = []
                \/ exists pip, In pip (pip_candidates w repoPath (dep_venv d))
                     /\ install = [(pip ++ " install -r requirements.txt")%string])
            /\ (create <> [] ->
                  dep_venv d = Some "auto"%string
                  /\ In (ExistsSync (join w [p; ".venv"]) false) evs))
      /\ (in_success r = true -> in_skipped r = None ->
            in_venvPath r = venv_dir w repoPath (dep_venv d)).
Proof.
  intros repoPath d t Hpip p. subst p.
  unfold pip_candidates, venv_dir, workdir. io. rewrite Hpip.
  cbn [String.eqb Ascii.eqb Bool.eqb].
  destruct (dep_venv d) as [v|] eqn:Hv; cbn [truthy_str str_or_empty].
  - split_on_calls w.
    all: eexists; eexists; (split; [same_run|]).
    all: cbn [commands app in_skipped in_success in_venvPath skip installed
              failure negb].
    all: eqs; subst.
    all: split; [|intros H1 H2; try discriminate H1; try discriminate H2;
                  reflexivity].
    all: try (exists [], []; cbn; intuition congruence).
    all: try (exists ["python3 -m venv .venv"%string], []; cbn;
              intuition congruence).
    all: try (eexists [], [_]; cbn [app In];
              split; [reflexivity|];
              split; [now left|];
              split; [right; eexists; split; [|reflexivity]; cbn [In]; tauto|];
              intros H; congruence).
    all: try (eexists ["python3 -m venv .venv"%string], [_]; cbn [app In];
              split; [reflexivity|];
              split; [now right|];
              split; [right; eexists; split; [|reflexivity]; cbn [In]; tauto|];
              intros _; split; [reflexivity|tauto]).
  - split_on_calls w.
    all: eexists; eexists; (split; [same_run|]).
    all: cbn [commands app in_skipped in_success in_venvPath skip installed
              failure negb].
    all: split; [|intros H1 H2; try discriminate H1; try discriminate H2;
                  reflexivity].
    all: try (exists [], []; cbn; intuition congruence).
    all: eexists [], [_]; cbn [app In];
         (split; [reflexivity|]);
         (split; [now left|]);
         (split; [right; eexists; split; [|reflexivity]; cbn [In]; tauto|]);
         intros H; congruence.
Qed.

End Install.

Import Fixtures.

Lemma manifest_decides_witness :
  known_type (dep_type deps_yarn) = true
  /\ exists (r : InstallResult) (rest : Trace),
       installDependencies installer_ready "/srv/app" (Some deps_yarn) []
       = (Normal r,
          [] ++ ExistsSync "/srv/app/package.json" true :: rest).
Proof.
  split; [reflexivity|].
  destruct (manifest_decides installer_ready "/srv/app" deps_yarn []
              eq_refl) as (r & rest & H & _).
  exists r, rest. exact H.
Defined.

Lemma pip_uses_the_venv_witness :
  dep_type deps_pip_auto = "pip"%string
  /\ exists (r : InstallResult) (evs : Trace),
       installDependencies installer_ready "/srv/app" (Some deps_pip_auto) []
       = (Normal r, [] ++ evs).
Proof.
  split; [reflexivity|].
  destruct (pip_uses_the_venv installer_ready "/srv/app" deps_pip_auto []
              eq_refl) as (r & evs & H & _).
  exists r, evs. exact H.
Defined.

End InstallerFacts.

(* ================================================================== *)
(** * The process-manager client *)
(* ================================================================== *)

Module TaskServerFacts.

Import Config Eff TaskServer TaskServerSpec.

Local Open Scope list_scope.

Ltac io := cbv [invoke restartScript stopScript startScript listScripts
                addScript pingTaskServer send accepted bind try_catch ask
                perform ret lift route Js.bind].

Ltac split_on_calls w :=
  repeat (match goal with
          | |- context [encodeURIComponent w ?n] =>
              destruct (encodeURIComponent w n) as [?|?]
          | |- context [fetch w ?t ?r] =>
              destruct (fetch w t r) as [[? [[| | | | |]|]]|?] eqn:?
          | |- context [if ?x then _ else _] => destruct x eqn:?
          end; cbv beta iota zeta;
          cbn [negb res_ok res_json get get_opt or truthy]).

Section Client.

Variable w : World.


(** X24. The one request of an operation goes to [url/api] followed by
    the operation's own route, with the script name URL-encoded; it is
    a POST except for the listing; it always declares a JSON content
    type; it carries the [X-API-Key] header exactly when an API key is
    configured, with that key; and only [addScript] sends a body.  An
    operation whose script name cannot be encoded throws before it
    makes a request. *)
Theorem request_shape :
  forall (c : Call) (ts : TaskServerConfig) (t : Trace),
    match route w c with
    | Normal path =>
        exists (r : completion Result) (req : HttpRequest)
               (res : completion HttpResponse),
          invoke w c ts t = (r, t ++ [Fetched req res])
          /\ endpoint req = (ts_url ts ++ "/api" ++ path)%string
          /\ method req = verb c
          /\ header "Content-Type" (headers req)
             = Some "application/json"%string
          /\ header "X-API-Key" (headers req)
             = (if truthy_str (ts_apiKey ts) then ts_apiKey ts else None)
          /\ body req = payload w c
    | Throw e => invoke w c ts t = (Throw e, t)
    end.
Proof.
  intros c ts t. unfold with_api_key, json_headers.
  destruct (ts_apiKey ts) as [k|] eqn:Hk; destruct c; io;
    unfold with_api_key, json_headers; rewrite ?Hk; split_on_calls w;
    try reflexivity.
  all: eexists; eexists; eexists; (split; [reflexivity|]).
  all: cbn in *; try discriminate; repeat split; reflexivity.
Qed.

(** X25. [pingTaskServer] never throws: it makes the one request of
    [listScripts] and answers whether the server affirmed it. *)
Theorem ping_reports_reachability :
  forall (ts : TaskServerConfig) (t : Trace),
  exists (req : HttpRequest),
    pingTaskServer w ts t
    = (Normal (affirmed (fetch w t req)), t ++ [Fetched req (fetch w t req)])
    /\ endpoint req = (ts_url ts ++ "/api/scripts")%string
    /\ method req = "GET"%string.
Proof.
  intros ts t.
  exists {| endpoint := (ts_url ts ++ "/api/scripts")%string;
            method := "GET";
            headers := with_api_key (ts_apiKey ts) json_headers;
            body := None |}.
  split; [|split; reflexivity].
  io. split_on_calls w.
  all: cbn in *; rewrite ?andb_false_r; congruence.
Qed.

End Client.

End TaskServerFacts.

(* ================================================================== *)
(** * Loading the configuration *)
(* ================================================================== *)

Module ConfigLoaderFacts.

Import Eff ConfigLoader ConfigLoaderSpec.

Local Open Scope list_scope.

Lemma lookup_set_same (k : string) (v : json) (fields : list (string * json)) :
  lookup k (set k v fields) = Some v.
Proof.
  induction fields as [|[k' v'] rest IH]; cbn.
  - now rewrite String.eqb_refl.
  - destruct (k =? k')%string eqn:E; cbn; rewrite ?String.eqb_refl, ?E;
      [reflexivity|exact IH].
Qed.

Lemma lookup_set_other (k k' : string) (v : json)
    (fields : list (string * json)) :
  k' <> k -> lookup k' (set k v fields) = lookup k' fields.
Proof.
  intros Hne. induction fields as [|[k0 v0] rest IH]; cbn.
  - apply String.eqb_neq in Hne. now rewrite Hne.
  - destruct (k =? k0)%string eqn:E; cbn.
    + apply String.eqb_eq in E. subst k0.
      apply String.eqb_neq in Hne. now rewrite Hne.
    + destruct (k' =? k0)%string; [reflexivity|exact IH].
Qed.

(** One defaulting assignment, seen through the fields. *)
Lemma default_fields (fields : list (string * json)) (k : string) (d : json) :
  exists fields',
    default (JObj fields) k d = Normal (JObj fields')
    /\ lookup k fields'
       = (if truthy (lookup k fields) then lookup k fields else Some d)
    /\ (forall k', k' <> k -> lookup k' fields' = lookup k' fields).
Proof.
  unfold default, assign. cbn [get own Js.bind].
  eexists. split; [reflexivity|]. split.
  - rewrite lookup_set_same. unfold or_default.
    destruct (lookup k fields) as [v|] eqn:E; [|reflexivity].
    now destruct (truthy (Some v)).
  - intros k' Hne. now apply lookup_set_other.
Qed.

(** Validation passes only on an object with an array [repos]. *)
Lemma validated (config : json) (repos : value) :
  get (Some config) "repos" = Normal repos ->
  negb (truthy repos) || negb (isArray repos) = false ->
  exists orig, config = JObj orig /\ isArray (lookup "repos" orig) = true.
Proof.
  intros Hg Hv. apply orb_false_elim in Hv as [_ Ha].
  apply negb_false_iff in Ha.
  destruct config; cbn in Hg; try discriminate; injection Hg as <-;
    try discriminate Ha.
  now exists fields.
Qed.

(** The four defaulting assignments in a row. *)
Lemma defaults_applied (orig : list (string * json)) :
  exists fields,
    Js.bind (default (JObj orig) "triggerMode" (JStr "webhook")) (fun c1 =>
    Js.bind (default c1 "webhook"
               (JObj [("port", JNum 4000); ("secret", JStr ""%string)]))
      (fun c2 =>
    Js.bind (default c2 "polling" (JObj [("interval", JNum 60)])) (fun c3 =>
    default c3 "taskServer"
      (JObj [("url", JStr "http://localhost:3000");
             ("apiKey", JStr ""%string)]))))
    = Normal (JObj fields)
    /\ forall k, lookup k fields = loaded orig k.
Proof.
  destruct (default_fields orig "triggerMode" (JStr "webhook"))
    as (f1 & E1 & S1 & O1).
  destruct (default_fields f1 "webhook"
              (JObj [("port", JNum 4000); ("secret", JStr ""%string)]))
    as (f2 & E2 & S2 & O2).
  destruct (default_fields f2 "polling" (JObj [("interval", JNum 60)]))
    as (f3 & E3 & S3 & O3).
  destruct (default_fields f3 "taskServer"
              (JObj [("url", JStr "http://localhost:3000");
                     ("apiKey", JStr ""%string)]))
    as (f4 & E4 & S4 & O4).
  exists f4. rewrite E1. cbn [Js.bind]. rewrite E2. cbn [Js.bind].
  rewrite E3. cbn [Js.bind]. split; [exact E4|].
  intros k. unfold loaded, defaults. cbn [lookup].
  destruct (string_dec k "taskServer") as [->|N4].
  { rewrite S4, O3, O2, O1 by discriminate. cbn [String.eqb Ascii.eqb Bool.eqb].
    cbn. reflexivity. }
  rewrite O4 by exact N4.
  destruct (string_dec k "polling") as [->|N3].
  { rewrite S3, O2, O1 by discriminate. cbn. reflexivity. }
  rewrite O3 by exact N3.
  destruct (string_dec k "webhook") as [->|N2].
  { rewrite S2, O1 by discriminate. cbn. reflexivity. }
  rewrite O2 by exact N2.
  destruct (string_dec k "triggerMode") as [->|N1].
  { rewrite S1. cbn. reflexivity. }
  rewrite O1 by exact N1.
  apply String.eqb_neq in N1, N2, N3, N4. rewrite N1, N2, N3, N4.
  now destruct (truthy (lookup k orig)).
Qed.

(** A defaulted field is truthy after loading. *)
Lemma loaded_truthy (orig : list (string * json)) (k : string) :
  truthy (lookup k defaults) = true -> truthy (loaded orig k) = true.
Proof.
  intros H. unfold loaded.
  destruct (truthy (lookup k orig)) eqn:E; [exact E|].
  destruct (lookup k defaults); [exact H|discriminate H].
Qed.

Section Loader.

Variable w : World.

(** X26. When [loadConfig] returns, it has read exactly one file,
    [config.yaml] if it exists and the example otherwise; the parsed
    document is an object with an array [repos]; and the result is
    that object with every truthy field kept and each of
    [triggerMode], [webhook], [polling] and [taskServer] that was
    missing or falsy set to its default. *)
Theorem loaded_config_is_complete :
  forall (t : Trace) (c : json) (t' : Trace),
    loadConfig w t = (Normal c, t') ->
    exists (content : string) (orig fields : list (string * json))
           (evs : Trace),
      t' = t ++ evs
      /\ filter is_read evs = [ReadFileSync (chosen w t) (Normal content)]
      /\ parse w content = Normal (JObj orig)
      /\ c = JObj fields
      /\ (forall k, lookup k fields = loaded orig k)
      /\ isArray (lookup "repos" fields) = true
      /\ forallb (fun kd => truthy (lookup (fst kd) fields)) defaults = true.
Proof.
  intros t c t' H. unfold loadConfig, chosen in *.
  cbv [bind exists_ ask perform ret lift] in H.
  assert (Tail : forall path t1 evs1,
    t1 = t ++ evs1 -> filter is_read evs1 = [] ->
    (let (r, t2) :=
       match readFileSync w t1 path with
       | Normal content =>
           match parse w content with
           | Normal config =>
               match get (Some config) "repos" with
               | Normal repos =>
                   (if negb (truthy repos) || negb (isArray repos)
                    then fun t => (Throw no_repos, t)
                    else fun t =>
                      match default config "triggerMode" (JStr "webhook") with
                      | Normal c1 =>
                          match default c1 "webhook"
                                  (JObj [("port", JNum 4000);
                                         ("secret", JStr ""%string)]) with
                          | Normal c2 =>
                              match default c2 "polling"
                                      (JObj [("interval", JNum 60)]) with
                              | Normal c3 =>
                                  match default c3 "taskServer"
                                     (JObj [("url", JStr "http://localhost:3000");
                                            ("apiKey", JStr ""%string)]) with
                                  | Normal c4 => (Normal c4, t)
                                  | Throw e => (Throw e, t)
                                  end
                              | Throw e => (Throw e, t)
                              end
                          | Throw e => (Throw e, t)
                          end
                      | Throw e => (Throw e, t)
                      end)
                     (t1 ++ [ReadFileSync path (Normal content)])
               | Throw e => (Throw e, t1 ++ [ReadFileSync path (Normal content)])
               end
           | Throw e => (Throw e, t1 ++ [ReadFileSync path (Normal content)])
           end
       | Throw e => (Throw e, t1 ++ [ReadFileSync path (Throw e)])
       end in r = Normal c /\ t2 = t') ->
    exists content orig fields evs,
      t' = t ++ evs
      /\ filter is_read evs = [ReadFileSync path (Normal content)]
      /\ parse w content = Normal (JObj orig)
      /\ c = JObj fields
      /\ (forall k, lookup k fields = loaded orig k)
      /\ isArray (lookup "repos" fields) = true
      /\ forallb (fun kd => truthy (lookup (fst kd) fields)) defaults = true).
  { intros path t1 evs1 -> Hnone Hrun.
    destruct (readFileSync w (t ++ evs1) path) as [content|e];
      [|destruct Hrun; discriminate].
    destruct (parse w content) as [config|e] eqn:Hp;
      [|destruct Hrun; discriminate].
    destruct (get (Some config) "repos") as [repos|e] eqn:Hg;
      [|destruct Hrun; discriminate].
    destruct (negb (truthy repos) || negb (isArray repos)) eqn:Hv;
      [destruct Hrun; discriminate|].
    destruct (validated config repos Hg Hv) as (orig & -> & Harr).
    destruct (defaults_applied orig) as (fields & Hd & Hl).
    destruct (default (JObj orig) "triggerMode" (JStr "webhook"))
      as [c1|e]; [|discriminate Hd].
    cbn [Js.bind] in Hd.
    destruct (default c1 "webhook" _) as [c2|e]; [|discriminate Hd].
    cbn [Js.bind] in Hd.
    destruct (default c2 "polling" _) as [c3|e]; [|discriminate Hd].
    cbn [Js.bind] in Hd. rewrite Hd in Hrun. destruct Hrun as [Hc <-].
    injection Hc as <-.
    exists content, orig, fields, (evs1 ++ [ReadFileSync path (Normal content)]).
    split; [now rewrite app_assoc|].
    split; [now rewrite filter_app, Hnone|].
    split; [exact Hp|]. split; [reflexivity|]. split; [exact Hl|].
    assert (Hrepos : lookup "repos" fields = lookup "repos" orig).
    { rewrite Hl. unfold loaded.
      destruct (lookup "repos" orig) as [[]|]; try discriminate Harr.
      reflexivity. }
    split; [now rewrite Hrepos|].
    cbn [forallb defaults fst]. rewrite !Hl.
    now rewrite !loaded_truthy by reflexivity. }
  destruct (existsSync w t (CONFIG_PATH w)) eqn:Hc; cbn [negb] in H.
  - apply (Tail (CONFIG_PATH w) (t ++ [ExistsSync (CONFIG_PATH w) true])
                [ExistsSync (CONFIG_PATH w) true] eq_refl eq_refl).
    revert H. cbv beta iota zeta.
    repeat match goal with
           | |- context [match ?x with _ => _ end] => destruct x
           end; intros H; injection H as <- <-; split; reflexivity.
  - cbv beta iota zeta in H.
    destruct (existsSync w _ (EXAMPLE_CONFIG_PATH w)) eqn:He;
      cbv beta iota zeta in H; [|discriminate H].
    apply (Tail (EXAMPLE_CONFIG_PATH w)
                ((t ++ [ExistsSync (CONFIG_PATH w) false])
                   ++ [ExistsSync (EXAMPLE_CONFIG_PATH w) true])
                [ExistsSync (CONFIG_PATH w) false;
                 ExistsSync (EXAMPLE_CONFIG_PATH w) true]);
      [now rewrite <- app_assoc|reflexivity|].
    revert H. cbv beta iota zeta.
    repeat match goal with
           | |- context [match ?x with _ => _ end] => destruct x
           end; intros H; injection H as <- <-; split; reflexivity.
Qed.

End Loader.

Import Fixtures.

Lemma loaded_config_is_complete_witness :
  loadConfig loader_world [] = (Normal loader_config, loader_trace)
  /\ exists (content : string) (orig fields : list (string * json))
            (evs : Trace),
       loader_trace = [] ++ evs
       /\ filter is_read evs
          = [ReadFileSync (chosen loader_world []) (Normal content)]
       /\ parse loader_world content = Normal (JObj orig)
       /\ loader_config = JObj fields
       /\ (forall k, lookup k fields = loaded orig k)
       /\ isArray (lookup "repos" fields) = true
       /\ forallb (fun kd => truthy (lookup (fst kd) fields)) defaults
          = true.
Proof.
  split; [reflexivity|].
  exact (loaded_config_is_complete loader_world [] loader_config
           loader_trace eq_refl).
Defined.

End ConfigLoaderFacts.
